(** * normalize: a shallow embedding of the travel-message normalizer

    The Python service (src/normalize/src) answers POST /normalize by
    calling an LLM chat-completion API, a geocoder and an emergency-number
    API, with regex and keyword fallbacks.  This file embeds the handler
    and the logic modules it calls as Rocq functions and proves the
    properties the specification states about them.

    Modelling conventions.
    - Python [str] is [string]; the text is taken to be ASCII: the case
      conversions and the classes [\s], [\d], [\w] are the ASCII ones, and
      a character above 127 is an unclassified symbol.  A property that
      depends on these classes is stated for [ascii_text].
    - A decoded JSON document (the result of [response.json()] or
      [json.loads]) is a [json] value.
    - Outbound HTTP calls are answered by the [World]; every call issued is
      recorded in a trace, so that the number of calls can be counted.
    - A Python [dict] keyed by strings whose order is never observed is a
      [gmap string _]; a Python [set] is a [gset]. *)

From Stdlib Require Import String Ascii List ZArith QArith Lia Bool.
From stdpp Require Import base gmap sets list strings.

Open Scope string_scope.

Set Warnings "-register-all,-clear-no-such-hyp".

(** ** Python string primitives *)

Module Py.

Definition code (c : ascii) : nat := nat_of_ascii c.

Definition in_range (lo hi : nat) (c : ascii) : bool :=
  (lo <=? code c)%nat && (code c <=? hi)%nat.

Definition is_upper (c : ascii) : bool := in_range 65 90 c.
Definition is_lower (c : ascii) : bool := in_range 97 122 c.
Definition is_digit (c : ascii) : bool := in_range 48 57 c.

(** [str.isspace] on ASCII: TAB, LF, VT, FF, CR, FS, GS, RS, US and SPACE. *)
Definition is_space (c : ascii) : bool := in_range 9 13 c || in_range 28 32 c.

(** [\w] on ASCII. *)
Definition is_word (c : ascii) : bool :=
  is_upper c || is_lower c || is_digit c || Ascii.eqb c "_".

Definition lower_char (c : ascii) : ascii :=
  if is_upper c then ascii_of_nat (code c + 32) else c.

Definition upper_char (c : ascii) : ascii :=
  if is_lower c then ascii_of_nat (code c - 32) else c.

Fixpoint smap (f : ascii -> ascii) (s : string) : string :=
  match s with
  | EmptyString => EmptyString
  | String c s' => String (f c) (smap f s')
  end.

(** [s.lower()] and [s.upper()] *)
Definition lower (s : string) : string := smap lower_char s.
Definition upper (s : string) : string := smap upper_char s.

Fixpoint lstrip (s : string) : string :=
  match s with
  | EmptyString => EmptyString
  | String c s' => if is_space c then lstrip s' else s
  end.

Fixpoint rstrip (s : string) : string :=
  match s with
  | EmptyString => EmptyString
  | String c s' =>
      let r := rstrip s' in
      if String.eqb r EmptyString && is_space c then EmptyString
      else String c r
  end.

(** [s.strip()] *)
Definition strip (s : string) : string := rstrip (lstrip s).

(** [needle in hay] on strings *)
Fixpoint contains (needle hay : string) : bool :=
  String.prefix needle hay ||
  match hay with
  | EmptyString => false
  | String _ hay' => contains needle hay'
  end.

(** [s.startswith(p)] *)
Definition startswith (s p : string) : bool := String.prefix p s.

(** [s.replace(old, new)] for a non-empty [old]: the occurrences are
    replaced from the left and do not overlap; [skip] counts the characters
    of an occurrence already replaced. *)
Fixpoint replace_from (old new s : string) (skip : nat) : string :=
  match s with
  | EmptyString => EmptyString
  | String c s' =>
      match skip with
      | S k => replace_from old new s' k
      | O =>
          if String.prefix old s
          then new ++ replace_from old new s' (String.length old - 1)
          else String c (replace_from old new s' 0)
      end
  end.

Definition replace (s old new : string) : string := replace_from old new s 0.

(** [s.split(sep)[0]] for a one-character separator *)
Fixpoint split_head (sep : ascii) (s : string) : string :=
  match s with
  | EmptyString => EmptyString
  | String c s' => if Ascii.eqb c sep then EmptyString else String c (split_head sep s')
  end.

(** [''.join(parts)] *)
Definition join (parts : list string) : string :=
  fold_right String.append EmptyString parts.

(** [x in xs] for a list of strings *)
Definition mem (x : string) (xs : list string) : bool :=
  existsb (String.eqb x) xs.

(** The characters of a string, as Python iterates over it. *)
Fixpoint chars (s : string) : list string :=
  match s with
  | EmptyString => []
  | String c s' => String c EmptyString :: chars s'
  end.

Fixpoint sforall (p : ascii -> bool) (s : string) : bool :=
  match s with
  | EmptyString => true
  | String c s' => p c && sforall p s'
  end.

(** An ASCII character.  On these the classes and the case maps above are
    Python's; beyond them Python follows the Unicode tables. *)
Definition is_ascii (c : ascii) : bool := (code c <? 128)%nat.

End Py.

(** A text of ASCII characters only. *)
Definition ascii_text (s : string) : Prop := Py.sforall Py.is_ascii s = true.

(** ** Regular expressions, as Python's backtracking [re] module runs them *)

Module Re.

Inductive re : Type :=
| Eps                           (* the empty pattern *)
| Cls (p : ascii -> bool)       (* one character of a class *)
| Cat (r1 r2 : re)              (* r1 r2 *)
| Alt (r1 r2 : re)              (* r1|r2, r1 tried first *)
| Star (r : re)                 (* r*, greedy *)
| Grp (i : nat) (r : re)        (* the i-th capturing group *)
| WordB                         (* \b *)
| Bos                           (* ^ *)
| Eos.                          (* $ *)

(** The captured groups, latest first. *)
Definition caps : Type := list (nat * string).

Fixpoint group (cs : caps) (i : nat) : string :=
  match cs with
  | [] => EmptyString
  | (j, s) :: cs' => if Nat.eqb i j then s else group cs' i
  end.

Definition is_word_opt (c : option ascii) : bool :=
  match c with Some c => Py.is_word c | None => false end.

Definition next_char (s : string) : option ascii :=
  match s with String c _ => Some c | EmptyString => None end.

(** The text consumed between the input [s] and its suffix [s']. *)
Definition consumed (s s' : string) : string :=
  substring 0 (String.length s - String.length s') s.

(** [run r prev s cs k]: match [r] at the head of [s], where [prev] is the
    character before [s] (if any), and hand what is left to the continuation
    [k]; a failing continuation makes the matcher backtrack. *)
Fixpoint run {A : Type} (r : re) (prev : option ascii) (s : string) (cs : caps)
    (k : option ascii -> string -> caps -> option A) {struct r} : option A :=
  match r with
  | Eps => k prev s cs
  | Cls p =>
      match s with
      | String c s' => if p c then k (Some c) s' cs else None
      | EmptyString => None
      end
  | Cat r1 r2 => run r1 prev s cs (fun prev' s' cs' => run r2 prev' s' cs' k)
  | Alt r1 r2 =>
      match run r1 prev s cs k with
      | Some a => Some a
      | None => run r2 prev s cs k
      end
  | Star r' =>
      (fix loop (n : nat) (prev : option ascii) (s : string) (cs : caps)
           {struct n} : option A :=
         match n with
         | O => k prev s cs
         | S n' =>
             match
               run r' prev s cs
                 (fun prev' s' cs' =>
                    if (String.length s' <? String.length s)%nat
                    then loop n' prev' s' cs' else None)
             with
             | Some a => Some a
             | None => k prev s cs
             end
         end) (String.length s) prev s cs
  | Grp i r' =>
      run r' prev s cs (fun prev' s' cs' => k prev' s' ((i, consumed s s') :: cs'))
  | WordB =>
      if xorb (is_word_opt prev) (is_word_opt (next_char s)) then k prev s cs else None
  | Bos => match prev with None => k prev s cs | Some _ => None end
  | Eos =>
      if String.eqb s EmptyString || String.eqb s (String "010" EmptyString)
      then k prev s cs else None
  end.

(** r+, r?, r{n} *)
Definition Plus (r : re) : re := Cat r (Star r).
Definition Opt (r : re) : re := Alt r Eps.
Fixpoint Rep (n : nat) (r : re) : re :=
  match n with
  | O => Eps
  | S n' => Cat r (Rep n' r)
  end.
Fixpoint Lit (s : string) : re :=
  match s with
  | EmptyString => Eps
  | String c s' => Cat (Cls (Ascii.eqb c)) (Lit s')
  end.

(** A match: the text matched, the groups, the rest of the input and the
    last character before the rest. *)
Record rmatch : Type := {
  matched : string;
  groups : caps;
  rest : string;
  last : option ascii
}.

(** The number of capturing groups of a pattern, and [m.groups()]. *)
Fixpoint ngroups (r : re) : nat :=
  match r with
  | Cat r1 r2 | Alt r1 r2 => ngroups r1 + ngroups r2
  | Star r' => ngroups r'
  | Grp _ r' => S (ngroups r')
  | _ => 0
  end.

Definition groups_of (r : re) (m : rmatch) : list string :=
  map (group (groups m)) (seq 1 (ngroups r)).

(** One attempt at the head of [s]. *)
Definition match_here (r : re) (prev : option ascii) (s : string) : option rmatch :=
  run r prev s []
    (fun prev' s' cs =>
       Some {| matched := consumed s s'; groups := cs; rest := s'; last := prev' |}).

(** [re.match(r, s)] *)
Definition match_ (r : re) (s : string) : option rmatch := match_here r None s.

(** [re.search(r, s)]: the leftmost position at which an attempt succeeds. *)
Fixpoint search_from (r : re) (prev : option ascii) (s : string) : option rmatch :=
  match match_here r prev s with
  | Some m => Some m
  | None =>
      match s with
      | EmptyString => None
      | String c s' => search_from r (Some c) s'
      end
  end.

Definition search (r : re) (s : string) : option rmatch := search_from r None s.

(** All the matches from the left, none overlapping another; [skip] counts
    the characters of the last match still to be passed. *)
Fixpoint matches_from (r : re) (prev : option ascii) (s : string) (skip : nat)
    : list rmatch :=
  match skip with
  | S k =>
      match s with
      | EmptyString => []
      | String c s' => matches_from r (Some c) s' k
      end
  | O =>
      match match_here r prev s with
      | Some m =>
          m :: match s with
               | EmptyString => []
               | String c s' =>
                   matches_from r (Some c) s' (String.length (matched m) - 1)
               end
      | None =>
          match s with
          | EmptyString => []
          | String c s' => matches_from r (Some c) s' 0
          end
      end
  end.

(** [re.findall(r, s)] for a pattern with one group: the group of every match. *)
Definition findall1 (r : re) (s : string) : list string :=
  map (fun m => group (groups m) 1) (matches_from r None s 0).

(** [re.sub(r, repl, s)] for a pattern that matches no empty text. *)
Fixpoint sub_from (r : re) (repl : string) (prev : option ascii) (s : string)
    (skip : nat) : string :=
  match s with
  | EmptyString => EmptyString
  | String c s' =>
      match skip with
      | S k => sub_from r repl (Some c) s' k
      | O =>
          match match_here r prev s with
          | Some m =>
              repl ++ sub_from r repl (Some c) s' (String.length (matched m) - 1)
          | None => String c (sub_from r repl (Some c) s' 0)
          end
      end
  end.

Definition sub (r : re) (repl s : string) : string := sub_from r repl None s 0.

(** Character classes of the patterns in the source. *)
Definition d : re := Cls Py.is_digit.                       (* \d *)
Definition D : re := Cls (fun c => negb (Py.is_digit c)).   (* \D *)
Definition sp : re := Cls Py.is_space.                      (* \s *)
Definition w : re := Cls Py.is_word.                        (* \w *)
Definition AZ : re := Cls Py.is_upper.                      (* [A-Z] *)
Definition az : re := Cls Py.is_lower.                      (* [a-z] *)
Definition chr (c : ascii) : re := Cls (Ascii.eqb c).
Definition one_of (s : string) : ascii -> bool :=
  fun c => Py.contains (String c EmptyString) s.

End Re.

(** ** Decoded JSON and the Python operations the code applies to it *)

Inductive json : Type :=
| JNull
| JBool (b : bool)
| JNum (q : Q)
| JStr (s : string)
| JArr (items : list json)
| JObj (fields : list (string * json)).

(** Python exceptions the code can meet; all of them derive from
    [Exception]. *)
Inductive exn : Type :=
| ValueError (msg : string)
| JSONDecodeError
| KeyError
| IndexError
| TypeError
| AttributeError
| HTTPError                                   (* httpx: transport, timeout, status *)
| ValidationError (msg : string)              (* pydantic *)
| RequestValidationError (errors : list json) (* fastapi: a request that does not fit *)
| HTTPException (status_code : Z) (detail : json).

Inductive Res (A : Type) : Type :=
| Ok (a : A)
| Raise (e : exn).
Arguments Ok {A} a.
Arguments Raise {A} e.

Definition is_ok {A : Type} (r : Res A) : bool :=
  match r with Ok _ => true | Raise _ => false end.

#[export] Instance Res_ret : MRet Res := fun A a => Ok a.
#[export] Instance Res_bind : MBind Res :=
  fun A B f r => match r with Ok a => f a | Raise e => Raise e end.

Module J.

Fixpoint assoc (k : string) (fields : list (string * json)) : option json :=
  match fields with
  | [] => None
  | (k', v) :: fields' => if String.eqb k k' then Some v else assoc k fields'
  end.

(** [bool(j)] *)
Definition truthy (j : json) : bool :=
  match j with
  | JNull => false
  | JBool b => b
  | JNum q => negb (Qnum q =? 0)%Z
  | JStr s => negb (String.eqb s EmptyString)
  | JArr items => match items with [] => false | _ => true end
  | JObj fields => match fields with [] => false | _ => true end
  end.

(** [j[k]] for a string key *)
Definition getitem (j : json) (k : string) : Res json :=
  match j with
  | JObj fields => match assoc k fields with Some v => Ok v | None => Raise KeyError end
  | _ => Raise TypeError
  end.

(** [j[0]] *)
Definition getitem0 (j : json) : Res json :=
  match j with
  | JArr (x :: _) => Ok x
  | JArr [] => Raise IndexError
  | JStr (String c _) => Ok (JStr (String c EmptyString))
  | JStr EmptyString => Raise IndexError
  | JObj _ => Raise KeyError
  | _ => Raise TypeError
  end.

(** [j.get(k, default)]: only a dict has the method. *)
Definition get (j : json) (k : string) (default : json) : Res json :=
  match j with
  | JObj fields => Ok (match assoc k fields with Some v => v | None => default end)
  | _ => Raise AttributeError
  end.

(** [for x in j] *)
Definition iter (j : json) : Res (list json) :=
  match j with
  | JArr items => Ok items
  | JStr s => Ok (map JStr (Py.chars s))
  | JObj fields => Ok (map (fun kv => JStr (fst kv)) fields)
  | _ => Raise TypeError
  end.

(** A method of [str] called on [j]. *)
Definition as_str (j : json) : Res string :=
  match j with
  | JStr s => Ok s
  | _ => Raise AttributeError
  end.

(** [j] handed to a function of the [re] module. *)
Definition as_re_arg (j : json) : Res string :=
  match j with
  | JStr s => Ok s
  | _ => Raise TypeError
  end.

(** [j == s] for a string [s] *)
Definition eq_str (j : json) (s : string) : bool :=
  match j with
  | JStr s' => String.eqb s' s
  | _ => false
  end.

(** [j in xs] for a list of strings *)
Definition mem_str (j : json) (xs : list string) : bool :=
  existsb (eq_str j) xs.

Definition opt_str (o : option string) : json :=
  match o with Some s => JStr s | None => JNull end.

End J.

(** ** Outbound calls and the world that answers them *)

Inductive llm_op : Type := Categorize | ExtractContact | ExtractEntities.

(** One outbound HTTP request, with the timeout of the client that sends it. *)
Inductive call : Type :=
| LLMCall (op : llm_op) (text : string) (timeout : Q)
| GeoCall (q : string) (timeout : Q)
| EmergencyCall (country_code : string) (timeout : Q).

(** What [raise_for_status] and [response.json()] leave of a reply. *)
Inductive http_reply : Type :=
| HttpFailed
| HttpJson (j : json).

Record World : Type := {
  OPENAI_API_KEY : option string;              (* os.getenv("OPENAI_API_KEY") *)
  HTTP_TIMEOUT_SECONDS : Q;                    (* the environment's, 1.0 by default *)
  json_loads : string -> option json;          (* json.loads; None is JSONDecodeError *)
  llm_post : llm_op -> string -> http_reply;   (* the chat-completion API *)
  geocoder_get : nat -> string -> http_reply;  (* the i-th geocoding task and its query *)
  emergency_get : string -> http_reply         (* the emergency-number API, by country *)
}.

(** A computation: its outcome and the calls it issued, in order. *)
Definition M (A : Type) : Type := (Res A * list call)%type.

#[export] Instance M_ret : MRet M := fun A a => (Ok a, []).
#[export] Instance M_bind : MBind M :=
  fun A B f m =>
    match m with
    | (Ok a, t) => let '(r, t') := f a in (r, (t ++ t')%list)
    | (Raise e, t) => (Raise e, t)
    end.

Definition raise {A : Type} (e : exn) : M A := (Raise e, []).
Definition lift {A : Type} (r : Res A) : M A := (r, []).

(** [try: body / except Exception: handler] *)
Definition try_except {A : Type} (body : M A) (handler : exn -> M A) : M A :=
  match body with
  | (Ok a, t) => (Ok a, t)
  | (Raise e, t) => let '(r, t') := handler e in (r, (t ++ t')%list)
  end.

(** Send one request and decode the reply. *)
Definition http (c : call) (reply : http_reply) : M json :=
  match reply with
  | HttpFailed => (Raise HTTPError, [c])
  | HttpJson j => (Ok j, [c])
  end.

(** [asyncio.gather] of the tasks, with [return_exceptions=True] *)
Definition gather {A : Type} (tasks : list (M A)) : M (list (Res A)) :=
  (Ok (map fst tasks), concat (map snd tasks)).

Definition has_api_key (w : World) : bool :=
  match OPENAI_API_KEY w with
  | Some key => negb (String.eqb key EmptyString)
  | None => false
  end.

Definition LLM_TIMEOUT : Q := 10.

(** The request the three LLM operations share: POST the prompt built from
    [text], [raise_for_status], [response.json()], then
    [result["choices"][0]["message"]["content"].strip()]. *)
Definition chat_content (result : json) : Res string :=
  choices ← J.getitem result "choices";
  first ← J.getitem0 choices;
  message ← J.getitem first "message";
  content ← J.getitem message "content";
  s ← J.as_str content;
  mret (Py.strip s).

Definition llm_content (w : World) (op : llm_op) (text : string) : M string :=
  result ← http (LLMCall op text LLM_TIMEOUT) (llm_post w op text);
  lift (chat_content result).

(** ** logic/text_utils.py *)

Definition normalize_text (text : string) : string :=
  Re.sub (Re.Plus Re.sp) " " (Py.lower (Py.strip text)).

Definition extract_phone_digits (phone : string) : string :=
  Re.sub Re.D "" phone.

Definition email_pattern : Re.re :=
  Re.Cat (Re.Plus (Re.Cls (fun c => Py.is_word c || Re.one_of ".+-" c)))
 (Re.Cat (Re.chr "@")
 (Re.Cat (Re.Plus (Re.Cls (fun c => Py.is_word c || Re.one_of ".-" c)))
 (Re.Cat (Re.chr ".") (Re.Plus Re.w)))).

Definition is_valid_email (email : string) : bool :=
  bool_decide (is_Some (Re.match_ email_pattern email)).

Definition is_valid_zip (zip_code : string) : bool :=
  bool_decide (is_Some (Re.match_ (Re.Cat Re.Bos (Re.Cat (Re.Rep 5 Re.d) Re.Eos)) zip_code)).

(** ** logic/categorizer.py *)

Definition high_risk_keywords : list string :=
  ["lost passport"; "passport stolen"; "wallet stolen"; "credit card stolen";
   "hospital"; "medical emergency"; "police"; "arrested"; "kidnapped";
   "visa denied"; "scam"; "fraud"; "stolen"; "emergency"].

Definition urgent_keywords : list string :=
  ["today"; "tonight"; "tomorrow"; "asap"; "immediately";
   "urgent"; "now"; "first thing"].

Definition _fallback_categorize (text : string) : string :=
  let text_lower := Py.lower text in
  if existsb (fun keyword => Py.contains keyword text_lower) high_risk_keywords
  then "high_risk"
  else if existsb (fun keyword => Py.contains keyword text_lower) urgent_keywords
  then "urgent"
  else "base".

Definition categories : list string := ["urgent"; "high_risk"; "base"].

Definition categorize (w : World) (text : string) : M string :=
  if negb (has_api_key w)
  then raise (ValueError "OPENAI_API_KEY environment variable not set")
  else
    try_except
      (content ← llm_content w Categorize text;
       let category := Py.lower content in
       if Py.mem category categories then mret category else mret "base")
      (fun _ => mret (_fallback_categorize text)).

(** ** logic/extract_contact.py *)

(** The dict [extract_contact] returns.  On the LLM path a field holds
    whatever JSON value the model produced for it, so the fields are [json]:
    [JNull] is Python's [None]. *)
Record contact_dict : Type := {
  first_name : json;
  last_name : json;
  email : json;
  phone : json;
  zip : json
}.

(** [try: body / except json.JSONDecodeError: handler] *)
Definition try_except_decode {A : Type} (body : M A) (handler : M A) : M A :=
  match body with
  | (Raise JSONDecodeError, t) => let '(r, t') := handler in (r, (t ++ t')%list)
  | other => other
  end.

Definition loads (w : World) (content : string) : Res json :=
  match json_loads w content with
  | Some j => Ok j
  | None => Raise JSONDecodeError
  end.

(** Remove markdown code blocks if present. *)
Definition strip_code_fence (content : string) : string :=
  if Py.startswith content "```json"
  then Py.strip (Py.replace (Py.replace content "```json" "") "```" "")
  else if Py.startswith content "```"
  then Py.strip (Py.replace content "```" "")
  else content.

Definition upper_lower : Re.re := Re.Cat Re.AZ (Re.Plus Re.az).  (* [A-Z][a-z]+ *)

Definition two_names : Re.re :=     (* \s+([A-Z][a-z]+)\s+([A-Z][a-z]+) *)
  Re.Cat (Re.Plus Re.sp) (Re.Cat (Re.Grp 1 upper_lower)
 (Re.Cat (Re.Plus Re.sp) (Re.Grp 2 upper_lower))).

Definition name_patterns : list Re.re :=
  [ Re.Cat (Re.Alt (Re.Lit "I'm") (Re.Alt (Re.Lit "I am") (Re.Lit "This is"))) two_names;
    Re.Cat (Re.Alt (Re.Lit "Hi") (Re.Alt (Re.Lit "Hello") (Re.Lit "Hey")))
   (Re.Cat (Re.Plus Re.sp)
   (Re.Cat (Re.Plus (Re.Cls (fun c => Py.is_upper c || Py.is_lower c)))
   (Re.Cat (Re.chr ",") (Re.Cat (Re.Star Re.sp) (Re.Cat (Re.Lit "I'm") two_names)))));
    Re.Cat (Re.Lit "My name is") two_names ].

(** The first pattern of the list that is found in [text]. *)
Fixpoint first_search (patterns : list Re.re) (text : string) : option (Re.re * Re.rmatch) :=
  match patterns with
  | [] => None
  | pattern :: patterns' =>
      match Re.search pattern text with
      | Some m => Some (pattern, m)
      | None => first_search patterns' text
      end
  end.

Definition _extract_names_fallback (text : string) : option (list string) :=
  match first_search name_patterns text with
  | Some (_, m) => Some [Re.group (Re.groups m) 1; Re.group (Re.groups m) 2]
  | None => None
  end.

Definition _extract_email_fallback (text : string) : option string :=
  match Re.search email_pattern text with
  | Some m => Some (Re.matched m)
  | None => None
  end.

Definition phone_patterns : list Re.re :=
  [ (* \((\d{3})\)\s*(\d{3})[-.]?(\d{4}) *)
    Re.Cat (Re.chr "(") (Re.Cat (Re.Grp 1 (Re.Rep 3 Re.d)) (Re.Cat (Re.chr ")")
   (Re.Cat (Re.Star Re.sp) (Re.Cat (Re.Grp 2 (Re.Rep 3 Re.d))
   (Re.Cat (Re.Opt (Re.Cls (Re.one_of "-."))) (Re.Grp 3 (Re.Rep 4 Re.d)))))));
    (* (\d{3})[-.](\d{3})[-.](\d{4}) *)
    Re.Cat (Re.Grp 1 (Re.Rep 3 Re.d)) (Re.Cat (Re.Cls (Re.one_of "-."))
   (Re.Cat (Re.Grp 2 (Re.Rep 3 Re.d)) (Re.Cat (Re.Cls (Re.one_of "-."))
   (Re.Grp 3 (Re.Rep 4 Re.d)))));
    (* (\d{3})\s+(\d{3})\s+(\d{4}) *)
    Re.Cat (Re.Grp 1 (Re.Rep 3 Re.d)) (Re.Cat (Re.Plus Re.sp)
   (Re.Cat (Re.Grp 2 (Re.Rep 3 Re.d)) (Re.Cat (Re.Plus Re.sp)
   (Re.Grp 3 (Re.Rep 4 Re.d)))));
    (* (\d{10}) *)
    Re.Grp 1 (Re.Rep 10 Re.d) ].

Definition _extract_phone_fallback (text : string) : option string :=
  match first_search phone_patterns text with
  | Some (pattern, m) =>
      if (Re.ngroups pattern =? 3)%nat
      then Some (extract_phone_digits (Py.join (Re.groups_of pattern m)))
      else if (Re.ngroups pattern =? 1)%nat
      then Some (extract_phone_digits (Re.group (Re.groups m) 1))
      else None
  | None => None
  end.

Definition _extract_zip_fallback (text : string) : option string :=
  match Re.search (Re.Cat Re.WordB (Re.Cat (Re.Grp 1 (Re.Rep 5 Re.d)) Re.WordB)) text with
  | Some m => Some (Re.group (Re.groups m) 1)
  | None => None
  end.

Definition nonempty (s : string) : bool := negb (String.eqb s EmptyString).

Definition _fallback_extract_contact (text : string) : contact_dict :=
  let names := _extract_names_fallback text in
  let email := _extract_email_fallback text in
  let phone := _extract_phone_fallback text in
  let zip_code := _extract_zip_fallback text in
  {| first_name :=
       match names with
       | Some (n0 :: _) => JStr n0
       | _ => JNull
       end;
     last_name :=
       match names with
       | Some (_ :: n1 :: _) => JStr n1
       | _ => JNull
       end;
     email :=
       match email with
       | Some e => if nonempty e && is_valid_email e then JStr e else JNull
       | None => JNull
       end;
     phone :=
       match phone with
       | Some p => if nonempty p then JStr p else JNull
       | None => JNull
       end;
     zip :=
       match zip_code with
       | Some z => if nonempty z && is_valid_zip z then JStr z else JNull
       | None => JNull
       end |}.

(** Validate and clean the extracted data (the LLM path, after
    [json.loads]). *)
Definition clean_contact (contact_data : json) : Res contact_dict :=
  first_name ← J.get contact_data "first_name" JNull;
  last_name ← J.get contact_data "last_name" JNull;
  email ← J.get contact_data "email" JNull;
  phone ← J.get contact_data "phone" JNull;
  zip ← J.get contact_data "zip" JNull;
  email ← (if J.truthy email
           then s ← J.as_re_arg email;
                mret (if negb (is_valid_email s) then JNull else email)
           else mret email);
  phone ← (if J.truthy phone
           then s ← J.as_re_arg phone;
                let digits := extract_phone_digits s in
                mret (if negb (String.length digits =? 10)%nat then JNull else JStr digits)
           else mret phone);
  zip ← (if J.truthy zip
         then s ← J.as_re_arg zip;
              mret (if negb (is_valid_zip s) then JNull else zip)
         else mret zip);
  mret {| first_name := first_name; last_name := last_name;
          email := email; phone := phone; zip := zip |}.

Definition extract_contact (w : World) (text : string) : M contact_dict :=
  if negb (has_api_key w)
  then raise (ValueError "OPENAI_API_KEY environment variable not set")
  else
    try_except
      (content ← llm_content w ExtractContact text;
       try_except_decode
         (contact_data ← lift (loads w (strip_code_fence content));
          lift (clean_contact contact_data))
         (mret (_fallback_extract_contact text)))
      (fun _ => mret (_fallback_extract_contact text)).

(** ** logic/extract_entities.py *)

(** An entity dict: [{"type": ..., "value": ...}]. *)
Record entity : Type := {
  type : string;
  value : string
}.

(** What [_geocode_city] returns when it accepts a place:
    [{"city": ..., "country_code": ...}]; the empty dict is [None]. *)
Record geo_hit : Type := {
  city : string;
  country_code : string
}.

Definition entity_types : list string := ["city"; "country"; "hotel"; "restaurant"].

Definition no_typos : json :=
  JObj [("city_typo", JNull); ("country_typo", JNull);
        ("phone_number_typo", JNull); ("zip_code_typo", JNull)].

(** [len(j)] *)
Definition json_len (j : json) : Res nat :=
  match j with
  | JStr s => Ok (String.length s)
  | JArr items => Ok (length items)
  | JObj fields => Ok (length fields)
  | _ => Raise TypeError
  end.

(** The body of [_geocode_city] after [response.json()]. *)
Definition accept_place (data : json) : Res (option geo_hit) :=
  if J.truthy data then
    n ← json_len data;
    if (0 <? n)%nat then
      place ← J.getitem0 data;
      place_type ← J.get place "type" (JStr "");
      place_class ← J.get place "class" (JStr "");
      addresstype ← J.get place "addresstype" (JStr "");
      if (J.eq_str place_class "place" && J.mem_str place_type ["city"; "town"; "village"])
         || (J.eq_str place_class "boundary" && J.eq_str place_type "administrative"
             && J.mem_str addresstype ["city"; "province"])
      then
        address ← J.get place "address" (JObj []);
        cc ← J.get address "country_code" (JStr "");
        cc ← J.as_str cc;
        display_name ← J.get place "display_name" (JStr "");
        display_name ← J.as_str display_name;
        mret (Some {| city := Py.split_head "," display_name;
                      country_code := Py.upper cc |})
      else mret None
    else mret None
  else mret None.

(** [i] is the position of the task among those gathered together. *)
Definition _geocode_city (w : World) (i : nat) (city_name : string) (timeout : Q)
    : M (option geo_hit) :=
  try_except
    (data ← http (GeoCall city_name timeout) (geocoder_get w i city_name);
     lift (accept_place data))
    (fun _ => mret None).

(** [results[i]] belongs to [city_names[i]]. *)
Definition _get_country_codes (w : World) (city_names : list string) (timeout : Q)
    : M (gmap string string) :=
  results ← gather (imap (fun i city_name => _geocode_city w i city_name timeout) city_names);
  mret (foldl (fun (country_map : gmap string string) '(city_name, result) =>
                 match result with
                 | Ok (Some hit) => <[Py.lower city_name := country_code hit]> country_map
                 | _ => country_map
                 end)
              ∅ (zip_with pair city_names results)).

Definition mapping_items : list (string * string) :=
  [ ("south africa", "ZA"); ("south korea", "KR"); ("north korea", "KP");
    ("united states", "US"); ("united kingdom", "GB"); ("great britain", "GB");
    ("germany", "DE"); ("france", "FR"); ("italy", "IT"); ("spain", "ES");
    ("netherlands", "NL"); ("belgium", "BE"); ("switzerland", "CH");
    ("austria", "AT"); ("china", "CN"); ("japan", "JP"); ("australia", "AU");
    ("canada", "CA"); ("mexico", "MX"); ("brazil", "BR"); ("argentina", "AR");
    ("chile", "CL"); ("colombia", "CO"); ("peru", "PE"); ("venezuela", "VE");
    ("russia", "RU"); ("india", "IN"); ("thailand", "TH"); ("vietnam", "VN");
    ("singapore", "SG"); ("malaysia", "MY"); ("indonesia", "ID");
    ("philippines", "PH"); ("turkey", "TR"); ("egypt", "EG"); ("morocco", "MA");
    ("kenya", "KE"); ("nigeria", "NG"); ("ghana", "GH"); ("iran", "IR");
    ("iraq", "IQ"); ("israel", "IL"); ("jordan", "JO"); ("lebanon", "LB");
    ("saudi arabia", "SA"); ("uae", "AE"); ("united arab emirates", "AE");
    ("new zealand", "NZ");
    ("paris", "FR"); ("london", "GB"); ("berlin", "DE"); ("madrid", "ES");
    ("barcelona", "ES"); ("amsterdam", "NL"); ("brussels", "BE"); ("vienna", "AT");
    ("zurich", "CH"); ("geneva", "CH"); ("stockholm", "SE"); ("oslo", "NO");
    ("copenhagen", "DK"); ("helsinki", "FI"); ("prague", "CZ"); ("budapest", "HU");
    ("warsaw", "PL"); ("moscow", "RU"); ("st petersburg", "RU"); ("tokyo", "JP");
    ("osaka", "JP"); ("kyoto", "JP"); ("seoul", "KR"); ("beijing", "CN");
    ("shanghai", "CN"); ("hong kong", "HK"); ("singapore", "SG"); ("bangkok", "TH");
    ("mumbai", "IN"); ("delhi", "IN"); ("bangalore", "IN"); ("sydney", "AU");
    ("melbourne", "AU"); ("toronto", "CA"); ("vancouver", "CA"); ("montreal", "CA");
    ("new york", "US"); ("nyc", "US"); ("los angeles", "US"); ("chicago", "US");
    ("san francisco", "US"); ("miami", "US"); ("las vegas", "US"); ("boston", "US");
    ("washington", "US"); ("seattle", "US"); ("mexico city", "MX"); ("cancun", "MX");
    ("rio de janeiro", "BR"); ("sao paulo", "BR"); ("buenos aires", "AR");
    ("lima", "PE"); ("santiago", "CL"); ("bogota", "CO"); ("caracas", "VE");
    ("cairo", "EG"); ("cape town", "ZA"); ("johannesburg", "ZA"); ("nairobi", "KE");
    ("istanbul", "TR"); ("athens", "GR"); ("lisbon", "PT"); ("dublin", "IE");
    ("reykjavik", "IS"); ("tel aviv", "IL"); ("dubai", "AE"); ("doha", "QA");
    ("riyadh", "SA") ].

(** The dict literal: a later item replaces an earlier one with its key. *)
Definition mappings : gmap string string :=
  foldl (fun (m : gmap string string) kv => <[kv.1 := kv.2]> m) ∅ mapping_items.

Definition _get_country_name_mappings (city_names : list string) : gmap string string :=
  foldl (fun (result : gmap string string) city_name =>
           match mappings !! city_name with
           | Some iso => <[city_name := iso]> result
           | None => result
           end)
        ∅ city_names.

(** [d.update(other)] on dicts whose order is not observed. *)
Definition update (d other : gmap string string) : gmap string string := other ∪ d.

Definition capitalized_words : Re.re :=   (* ([A-Z][a-z]+(?:\s+[A-Z][a-z]+)* ) *)
  Re.Grp 1 (Re.Cat upper_lower (Re.Star (Re.Cat (Re.Plus Re.sp) upper_lower))).

Definition city_patterns : list Re.re :=
  [ Re.Cat Re.WordB (Re.Cat (Re.Lit "in") (Re.Cat (Re.Plus Re.sp) capitalized_words));
    Re.Cat Re.WordB (Re.Cat (Re.Lit "to") (Re.Cat (Re.Plus Re.sp) capitalized_words)) ].

Definition city_phrases : list string :=
  ["New York City"; "New York"; "Los Angeles"; "San Francisco";
   "Las Vegas"; "Miami"; "Chicago"; "Boston"; "Seattle";
   "Paris"; "London"; "Rome"; "Barcelona"; "Amsterdam"; "Berlin";
   "Tokyo"; "Sydney"; "Dubai"; "Istanbul"].

Definition _extract_city_candidates_fallback (text : string) : gset string :=
  let from_patterns :=
    flat_map (fun pattern =>
                List.filter (fun city => (1 <? String.length city)%nat)
                       (map Py.strip (Re.findall1 pattern text)))
             city_patterns in
  let from_phrases :=
    List.filter (fun phrase => Py.contains (Py.lower phrase) (Py.lower text)) city_phrases in
  list_to_set from_patterns ∪ list_to_set from_phrases.

(** [d[k] = v] on a dict whose order is observed: a key already present
    keeps its place. *)
Fixpoint dict_set {V : Type} (d : list (string * V)) (k : string) (v : V)
    : list (string * V) :=
  match d with
  | [] => [(k, v)]
  | (k', v') :: d' => if String.eqb k k' then (k, v) :: d' else (k', v') :: dict_set d' k v
  end.

(** The candidates are a set, whose order Python does not fix: here they
    are visited in the order [elements] lists them.  The order of the calls
    and of the entries of the dict follows it, and so does the code kept
    when two candidates resolve to one display name. *)
Definition _validate_cities_fallback (w : World) (candidates : gset string) (timeout : Q)
    : M (list (string * string)) :=
  results ← gather (imap (fun i candidate => _geocode_city w i candidate timeout)
                         (elements candidates));
  mret (foldl (fun validated result =>
                 match result with
                 | Ok (Some hit) => dict_set validated (city hit) (country_code hit)
                 | _ => validated
                 end)
              [] results).

Definition hotel_keywords : list string :=
  ["hotel"; "inn"; "resort"; "lodge"; "hostel"; "marriott"; "hilton"; "hyatt";
   "four seasons"; "chapter roma"].

Definition _extract_hotels_fallback (text : string) : list string :=
  let normalized := normalize_text text in
  flat_map (fun keyword =>
              if Py.contains keyword normalized then
                if String.eqb keyword "chapter roma" then
                  if Py.contains "chapter roma" normalized then ["Chapter Roma"] else []
                else []
              else [])
           hotel_keywords.

Definition restaurant_keywords : list string :=
  ["restaurant"; "trattoria"; "osteria"; "cafe"; "bistro"].

Definition _extract_restaurants_fallback (text : string) : list string :=
  let normalized := normalize_text text in
  flat_map (fun keyword => if Py.contains keyword normalized then [] else [])
           restaurant_keywords.

Definition entities_result : Type := (list entity * gmap string string * json)%type.

Definition _fallback_extract_entities (w : World) (text : string) (timeout : Q)
    : M entities_result :=
  let city_candidates := _extract_city_candidates_fallback text in
  '(entities, country_map) ←
    (if bool_decide (city_candidates ≠ ∅) then
       validated_cities ← _validate_cities_fallback w city_candidates timeout;
       mret (map (fun '(city, _) => {| type := "city"; value := Py.lower city |})
                 validated_cities,
             foldl (fun (country_map : gmap string string) '(city, country_code) =>
                      <[Py.lower city := country_code]> country_map)
                   ∅ validated_cities)
     else mret ([], ∅));
  let hotels := _extract_hotels_fallback text in
  let restaurants := _extract_restaurants_fallback text in
  let entities :=
    (entities
     ++ map (fun hotel => {| type := "hotel"; value := Py.lower hotel |}) hotels
     ++ map (fun restaurant => {| type := "restaurant"; value := Py.lower restaurant |})
            restaurants)%list in
  mret (entities, country_map, no_typos).

(** Validate entity structure: one item of the reply. *)
Definition validate_entity (item : json) : option entity :=
  match item with
  | JObj fields =>
      match J.assoc "type" fields, J.assoc "value" fields with
      | Some ty, Some (JStr v) =>
          match ty with
          | JStr t =>
              if Py.mem t entity_types
              then Some {| type := t; value := Py.strip (Py.lower v) |}
              else None
          | _ => None
          end
      | _, _ => None
      end
  | _ => None
  end.

(** The LLM path of [extract_entities], from the parsed reply on. *)
Definition entities_of_reply (w : World) (parsed_response : json) (timeout : Q)
    : M entities_result :=
  '(entities, typos) ←
    lift (match parsed_response with
          | JArr _ => Ok (parsed_response, no_typos)
          | _ =>
              entities ← J.get parsed_response "entities" (JArr []);
              typos ← J.get parsed_response "typos" (JObj []);
              mret (entities, typos)
          end);
  items ← lift (J.iter entities);
  let validated_entities := omap validate_entity items in
  let city_entities := List.filter (fun e => String.eqb (type e) "city") validated_entities in
  let country_entities := List.filter (fun e => String.eqb (type e) "country") validated_entities in
  country_map ←
    (match city_entities with
     | [] => mret ∅
     | _ =>
         let city_names := map value city_entities in
         country_map ← _get_country_codes w city_names timeout;
         mret (update country_map (_get_country_name_mappings city_names))
     end);
  let country_map :=
    match country_entities with
    | [] => country_map
    | _ => update country_map (_get_country_name_mappings (map value country_entities))
    end in
  mret (validated_entities, country_map, typos).

Definition extract_entities (w : World) (text : string) (timeout : Q) : M entities_result :=
  if negb (has_api_key w)
  then raise (ValueError "OPENAI_API_KEY environment variable not set")
  else
    try_except
      (content ← llm_content w ExtractEntities text;
       try_except_decode
         (parsed_response ← lift (loads w (strip_code_fence content));
          entities_of_reply w parsed_response timeout)
         (_fallback_extract_entities w text timeout))
      (fun _ => _fallback_extract_entities w text timeout).

(** ** logic/enrich.py *)

(** [[num for num in items if num.strip() and num not in exclude]] *)
Fixpoint nonblank_numbers (items : list json) (exclude : list string) : Res (list string) :=
  match items with
  | [] => Ok []
  | num :: items' =>
      s ← J.as_str num;
      nums ← nonblank_numbers items' exclude;
      mret (if nonempty (Py.strip s) && negb (Py.mem s exclude) then s :: nums else nums)
  end.

(** One block of the reply ([dispatch] or [police]): its ["all"] numbers are
    appended to [numbers]; the police block leaves out those already there. *)
Definition extend_numbers (block : json) (numbers : list string) (if_different : bool)
    : Res (list string) :=
  match block with
  | JObj _ =>
      all ← J.get block "all" JNull;
      if J.truthy all then
        items ← J.iter all;
        nums ← nonblank_numbers items (if if_different then numbers else []);
        mret (numbers ++ nums)%list
      else mret numbers
  | _ => mret numbers
  end.

(** Remove duplicates while preserving order. *)
Fixpoint unique_from (seen : gset string) (numbers : list string) : list string :=
  match numbers with
  | [] => []
  | num :: numbers' =>
      if bool_decide (num ∈ seen) then unique_from seen numbers'
      else num :: unique_from ({[num]} ∪ seen) numbers'
  end.

(** The body of [_fetch_emergency_numbers] after [response.json()]. *)
Definition numbers_of_reply (api_response : json) : Res (list string) :=
  numbers ←
    match api_response with
    | JObj fields =>
        match J.assoc "data" fields with
        | Some data =>
            is_112_member ← J.get data "member_112" (JBool false);
            let numbers := if J.truthy is_112_member then ["112"] else [] in
            dispatch ← J.get data "dispatch" (JObj []);
            numbers ← extend_numbers dispatch numbers false;
            police ← J.get data "police" (JObj []);
            extend_numbers police numbers true
        | None => Ok []
        end
    | _ => Ok []
    end;
  mret (unique_from ∅ numbers).

Definition _fetch_emergency_numbers (w : World) (country_code : string) (timeout : Q)
    : M (list string) :=
  try_except
    (api_response ← http (EmergencyCall country_code timeout) (emergency_get w country_code);
     lift (numbers_of_reply api_response))
    (fun _ => mret []).

(** The country codes are a set, visited in the order [elements] lists
    them; the numbers come back as [list(emergency_numbers)]. *)
Definition _get_emergency_numbers (w : World) (cities : list string)
    (country_map : gmap string string) (timeout : Q) : M (option (list string)) :=
  let country_codes : gset string := map_img country_map in
  results ← gather (map (fun country_code => _fetch_emergency_numbers w country_code timeout)
                        (elements country_codes));
  let emergency_numbers : gset string :=
    foldl (fun (acc : gset string) result =>
             match result with
             | Ok numbers => acc ∪ list_to_set numbers
             | Raise _ => acc
             end)
          ∅ results in
  mret (if bool_decide (emergency_numbers ≠ ∅) then Some (elements emergency_numbers)
        else None).

(** The enrichment dict, keyed by field name. *)
Definition enrich (w : World) (entities : list entity) (country_map : gmap string string)
    (timeout : Q) : M (list (string * json)) :=
  let locations :=
    map value (List.filter (fun e => Py.mem (type e) ["city"; "country"]) entities) in
  match locations with
  | [] => mret [("local_emergency_numbers", JNull)]
  | _ =>
      emergency_numbers ← _get_emergency_numbers w locations country_map timeout;
      mret [("local_emergency_numbers",
             match emergency_numbers with
             | Some numbers => JArr (map JStr numbers)
             | None => JNull
             end)]
  end.

(** ** models.py

    The pydantic models.  A value is validated without coercion: an optional
    string field takes [None] or a [str], a [Literal] field one of its
    strings, and a key that names no field is ignored. *)

Module Contact.
Record t : Type := {
  first_name : option string;
  last_name : option string;
  email : option string;
  phone : option string;
  zip : option string
}.
End Contact.

Module Entity.
Record t : Type := {
  type : string;
  value : string
}.
End Entity.

Module Enrichment.
Record t : Type := {
  local_emergency_numbers : option (list string);
  city_typo : option string;
  country_typo : option string;
  phone_number_typo : option string;
  zip_code_typo : option string
}.
End Enrichment.

Module NormalizeIn.
Record t : Type := {
  message_id : string;
  text : string
}.
End NormalizeIn.

Module NormalizeOut.
Record t : Type := {
  message_id : string;
  category : string;
  contact : option Contact.t;
  entities : option (list Entity.t);
  enrichment : option Enrichment.t
}.
End NormalizeOut.

(** [Optional[str]] *)
Definition optional_str (field : string) (j : json) : Res (option string) :=
  match j with
  | JNull => Ok None
  | JStr s => Ok (Some s)
  | _ => Raise (ValidationError field)
  end.

Fixpoint list_str (field : string) (items : list json) : Res (list string) :=
  match items with
  | [] => Ok []
  | JStr s :: items' => l ← list_str field items'; mret (s :: l)
  | _ => Raise (ValidationError field)
  end.

(** [Optional[List[str]]] *)
Definition optional_list_str (field : string) (j : json) : Res (option (list string)) :=
  match j with
  | JNull => Ok None
  | JArr items => l ← list_str field items; mret (Some l)
  | _ => Raise (ValidationError field)
  end.

(** [Contact] built from the keys of [contact_data] *)
Definition new_Contact (d : contact_dict) : Res Contact.t :=
  first_name ← optional_str "first_name" (first_name d);
  last_name ← optional_str "last_name" (last_name d);
  email ← optional_str "email" (email d);
  phone ← optional_str "phone" (phone d);
  zip ← optional_str "zip" (zip d);
  mret {| Contact.first_name := first_name; Contact.last_name := last_name;
          Contact.email := email; Contact.phone := phone; Contact.zip := zip |}.

(** [Entity] built from the keys of an entity dict *)
Definition new_Entity (e : entity) : Res Entity.t :=
  if Py.mem (type e) entity_types
  then Ok {| Entity.type := type e; Entity.value := value e |}
  else Raise (ValidationError "type").

Fixpoint new_Entities (es : list entity) : Res (list Entity.t) :=
  match es with
  | [] => Ok []
  | e :: es' => x ← new_Entity e; xs ← new_Entities es'; mret (x :: xs)
  end.

Definition field (d : list (string * json)) (k : string) : json :=
  match J.assoc k d with Some v => v | None => JNull end.

(** [Enrichment] built from the keys of [enrichment_data] *)
Definition new_Enrichment (d : list (string * json)) : Res Enrichment.t :=
  local_emergency_numbers ←
    optional_list_str "local_emergency_numbers" (field d "local_emergency_numbers");
  city_typo ← optional_str "city_typo" (field d "city_typo");
  country_typo ← optional_str "country_typo" (field d "country_typo");
  phone_number_typo ← optional_str "phone_number_typo" (field d "phone_number_typo");
  zip_code_typo ← optional_str "zip_code_typo" (field d "zip_code_typo");
  mret {| Enrichment.local_emergency_numbers := local_emergency_numbers;
          Enrichment.city_typo := city_typo;
          Enrichment.country_typo := country_typo;
          Enrichment.phone_number_typo := phone_number_typo;
          Enrichment.zip_code_typo := zip_code_typo |}.

(** [NormalizeOut(...)] *)
Definition new_NormalizeOut (message_id category : string) (contact : option Contact.t)
    (entities : option (list Entity.t)) (enrichment : option Enrichment.t)
    : Res NormalizeOut.t :=
  if Py.mem category categories
  then Ok {| NormalizeOut.message_id := message_id; NormalizeOut.category := category;
             NormalizeOut.contact := contact; NormalizeOut.entities := entities;
             NormalizeOut.enrichment := enrichment |}
  else Raise (ValidationError "category").

(** ** app.py *)

Record Response : Type := {
  status : Z;
  content : json
}.

(** A key of a dict that is not a string: a number or [None].  Python
    compares such keys by value, [True] being 1 and [False] 0. *)
Inductive other_key : Type :=
| KNum (q : Q)
| KNone.

Definition other_key_eqb (k k' : other_key) : bool :=
  match k, k' with
  | KNum q, KNum q' => Qeq_bool q q'
  | KNone, KNone => true
  | _, _ => false
  end.

(** A value used as a key; a list or a dict is unhashable. *)
Definition as_key (j : json) : Res (string + other_key) :=
  match j with
  | JStr s => Ok (inl s)
  | JNum q => Ok (inr (KNum q))
  | JBool b => Ok (inr (KNum (if b then 1 else 0)))
  | JNull => Ok (inr KNone)
  | JArr _ | JObj _ => Raise TypeError
  end.

(** One element of an iterable handed to [dict.update]: a key and a value. *)
Definition update_item (item : json) : Res ((string + other_key) * json) :=
  match item with
  | JArr [k; v] => k ← as_key k; mret (k, v)
  | JArr _ => Raise (ValueError "dictionary update sequence element")
  | JStr (String a (String b EmptyString)) =>
      Ok (inl (String a EmptyString), JStr (String b EmptyString))
  | JStr _ => Raise (ValueError "dictionary update sequence element")
  | JObj [(k1, _); (k2, _)] => Ok (inl k1, JStr k2)
  | JObj _ => Raise (ValueError "dictionary update sequence element")
  | _ => Raise TypeError
  end.

Fixpoint update_items (items : list json) : Res (list ((string + other_key) * json)) :=
  match items with
  | [] => Ok []
  | item :: items' => kv ← update_item item; kvs ← update_items items'; mret (kv :: kvs)
  end.

Definition set_all (d kvs : list (string * json)) : list (string * json) :=
  foldl (fun d kv => dict_set d kv.1 kv.2) d kvs.

Fixpoint set_other (d : list (other_key * json)) (k : other_key) (v : json)
    : list (other_key * json) :=
  match d with
  | [] => [(k, v)]
  | (k', v') :: d' =>
      if other_key_eqb k k' then (k', v) :: d' else (k', v') :: set_other d' k v
  end.

(** A dict whose keys need not all be strings: the entries under string
    keys, in order, and the entries under the other keys. *)
Notation any_dict := (list (string * json) * list (other_key * json))%type.

Definition set_any (d : any_dict) (kv : (string + other_key) * json) : any_dict :=
  match kv.1 with
  | inl k => (dict_set d.1 k kv.2, d.2)
  | inr k => (d.1, set_other d.2 k kv.2)
  end.

(** [d.update(other)] where [other] is any decoded JSON value. *)
Definition dict_update (d : list (string * json)) (other : json) : Res any_dict :=
  match other with
  | JObj fields => Ok (set_all d fields, [])
  | JArr _ | JStr _ =>
      items ← J.iter other;
      kvs ← update_items items;
      mret (foldl set_any (d, []) kvs)
  | _ => Raise TypeError
  end.

(** [any(d.values())] *)
Definition any_contact_value (d : contact_dict) : bool :=
  existsb J.truthy [first_name d; last_name d; email d; phone d; zip d].

Definition any_value (d : list (string * json)) : bool :=
  existsb J.truthy (map snd d).

Definition any_other_value (d : list (other_key * json)) : bool :=
  existsb J.truthy (map snd d).

(** [Enrichment] built from the dict spread into keywords: every keyword
    must be a string. *)
Definition new_Enrichment_of (d : any_dict) : Res Enrichment.t :=
  match d.2 with
  | [] => new_Enrichment d.1
  | _ => Raise TypeError
  end.

Definition error_body (error detail : string) : json :=
  JObj [("error", JStr error); ("detail", JStr detail)].

Definition normalize_message (w : World) (request : NormalizeIn.t) : M NormalizeOut.t :=
  let text := NormalizeIn.text request in
  try_except
    (contact_data ← extract_contact w text;
     contact ← (if any_contact_value contact_data
                then c ← lift (new_Contact contact_data); mret (Some c)
                else mret None);
     '(entities_data, country_map, typo_data) ←
       extract_entities w text (HTTP_TIMEOUT_SECONDS w);
     entities ← (match entities_data with
                 | [] => mret None
                 | _ => es ← lift (new_Entities entities_data); mret (Some es)
                 end);
     category ← categorize w text;
     enrichment_data ← enrich w entities_data country_map (HTTP_TIMEOUT_SECONDS w);
     enrichment_data ← lift (dict_update enrichment_data typo_data);
     enrichment ← (if any_value enrichment_data.1 || any_other_value enrichment_data.2
                   then e ← lift (new_Enrichment_of enrichment_data); mret (Some e)
                   else mret None);
     lift (new_NormalizeOut (NormalizeIn.message_id request) category
                            contact entities enrichment))
    (fun _ =>
       raise (HTTPException 500 (error_body "InternalError" "An internal error occurred"))).

(** The three registered exception handlers. *)
Definition validation_exception_handler (exc : string) : Response :=
  {| status := 400; content := error_body "BadRequest" exc |}.

Definition http_exception_handler (status_code : Z) (detail : json) : Response :=
  {| status := status_code; content := detail |}.

Definition general_exception_handler : Response :=
  {| status := 500; content := error_body "InternalError" "An unexpected error occurred" |}.

(** The handler fastapi itself installs for [RequestValidationError];
    app.py registers none for this class, so it stays in place. *)
Definition request_validation_exception_handler (errors : list json) : Response :=
  {| status := 422; content := JObj [("detail", JArr errors)] |}.

(** The handler the framework picks for an exception: the one registered
    for its class, else the one for [Exception]. *)
Definition handle_exception (exc : exn) : Response :=
  match exc with
  | ValidationError msg => validation_exception_handler msg
  | RequestValidationError errors => request_validation_exception_handler errors
  | HTTPException status_code detail => http_exception_handler status_code detail
  | _ => general_exception_handler
  end.

Definition json_opt {A : Type} (f : A -> json) (o : option A) : json :=
  match o with Some a => f a | None => JNull end.

Definition Contact_json (c : Contact.t) : json :=
  JObj [("first_name", J.opt_str (Contact.first_name c));
        ("last_name", J.opt_str (Contact.last_name c));
        ("email", J.opt_str (Contact.email c));
        ("phone", J.opt_str (Contact.phone c));
        ("zip", J.opt_str (Contact.zip c))].

Definition Entity_json (e : Entity.t) : json :=
  JObj [("type", JStr (Entity.type e)); ("value", JStr (Entity.value e))].

Definition Enrichment_json (e : Enrichment.t) : json :=
  JObj [("local_emergency_numbers",
         json_opt (fun l => JArr (map JStr l)) (Enrichment.local_emergency_numbers e));
        ("city_typo", J.opt_str (Enrichment.city_typo e));
        ("country_typo", J.opt_str (Enrichment.country_typo e));
        ("phone_number_typo", J.opt_str (Enrichment.phone_number_typo e));
        ("zip_code_typo", J.opt_str (Enrichment.zip_code_typo e))].

Definition NormalizeOut_json (r : NormalizeOut.t) : json :=
  JObj [("message_id", JStr (NormalizeOut.message_id r));
        ("category", JStr (NormalizeOut.category r));
        ("contact", json_opt Contact_json (NormalizeOut.contact r));
        ("entities", json_opt (fun l => JArr (map Entity_json l)) (NormalizeOut.entities r));
        ("enrichment", json_opt Enrichment_json (NormalizeOut.enrichment r))].

(** POST /normalize on a request body that passed validation. *)
Definition post_normalize (w : World) (request : NormalizeIn.t) : Response :=
  match fst (normalize_message w request) with
  | Ok response => {| status := 200; content := NormalizeOut_json response |}
  | Raise exc => handle_exception exc
  end.

(** POST /normalize from the decoded body on.  The parameter
    [request: NormalizeIn] makes fastapi validate the body before
    [normalize_message] is called, and raise [RequestValidationError] when
    it does not fit.  Two things are the framework's and stay parameters:
    what a [str] field makes of a value that is not a string (refused, or
    converted by a lax version), and the error list that is reported. *)
Section Endpoint.

Variable lax_str : json -> option string.
Variable validation_errors : json -> list json.

Definition str_field (v : json) : option string :=
  match v with
  | JStr s => Some s
  | _ => lax_str v
  end.

(** Both fields of [NormalizeIn] are required. *)
Definition parse_NormalizeIn (body : json) : Res NormalizeIn.t :=
  match body with
  | JObj fields =>
      match J.assoc "message_id" fields ≫= str_field,
            J.assoc "text" fields ≫= str_field with
      | Some message_id, Some text =>
          Ok {| NormalizeIn.message_id := message_id; NormalizeIn.text := text |}
      | _, _ => Raise (RequestValidationError (validation_errors body))
      end
  | _ => Raise (RequestValidationError (validation_errors body))
  end.

Definition normalize_endpoint (w : World) (body : json) : Response :=
  match parse_NormalizeIn body with
  | Ok request => post_normalize w request
  | Raise exc => handle_exception exc
  end.

End Endpoint.

(** GET /healthz *)
Definition health_check : Response :=
  {| status := 200; content := JObj [("ok", JBool true)] |}.

(** * Properties *)

#[global] Arguments Py.mem : simpl never.
#[global] Arguments Py.lower : simpl never.
#[global] Arguments Py.upper : simpl never.
#[global] Arguments Py.strip : simpl never.
#[global] Arguments Py.contains : simpl never.
#[global] Arguments categories : simpl never.
#[global] Arguments _fallback_categorize : simpl never.
#[global] Arguments _fallback_extract_contact : simpl never.
#[global] Arguments _fallback_extract_entities : simpl never.
#[global] Arguments strip_code_fence : simpl never.
#[global] Arguments llm_content : simpl never.

(** ** The effect monad *)

Ltac munfold :=
  unfold mbind, mret, M_bind, M_ret, Res_bind, Res_ret, lift, raise in *.

Lemma bind_ok {A B : Type} (m : M A) (f : A -> M B) (a : A) (t : list call) :
  m = (Ok a, t) -> m ≫= f = (fst (f a), (t ++ snd (f a))%list).
Proof. intros ->. munfold. destruct (f a); reflexivity. Qed.

Lemma bind_raise {A B : Type} (m : M A) (f : A -> M B) (e : exn) (t : list call) :
  m = (Raise e, t) -> m ≫= f = (Raise e, t).
Proof. intros ->. reflexivity. Qed.

Lemma llm_content_trace (w : World) (op : llm_op) (text : string) :
  snd (llm_content w op text) = [LLMCall op text LLM_TIMEOUT].
Proof.
  unfold llm_content, http. munfold.
  destruct (llm_post w op text); simpl; [reflexivity|].
  destruct (chat_content j); reflexivity.
Qed.

Lemma bind_ok_inv {A B : Type} (m : M A) (f : A -> M B) (b : B) :
  fst (m ≫= f) = Ok b -> exists a t, m = (Ok a, t) /\ fst (f a) = Ok b.
Proof.
  destruct m as [[a|e] t]; munfold; simpl.
  - destruct (f a) as [r t'] eqn:Hf. simpl. intros ->. exists a, t. now rewrite Hf.
  - discriminate.
Qed.

Lemma try_except_ok_inv {A : Type} (body : M A) (e0 : exn) (a : A) :
  fst (try_except body (fun _ => raise e0)) = Ok a -> fst body = Ok a.
Proof. destruct body as [[x|e] t]; simpl; [auto|discriminate]. Qed.

Lemma try_except_raise_inv {A : Type} (body : M A) (e0 e : exn) :
  fst (try_except body (fun _ => raise e0)) = Raise e -> e = e0.
Proof. destruct body as [[x|e1] t]; simpl; [discriminate|congruence]. Qed.

Lemma fst_lift {A : Type} (r : Res A) : fst (lift r) = r.
Proof. reflexivity. Qed.

(** ** Membership tests *)

Lemma mem_In (x : string) (xs : list string) : Py.mem x xs = true <-> In x xs.
Proof.
  unfold Py.mem. rewrite existsb_exists. split.
  - intros (y & Hy & Heq). apply String.eqb_eq in Heq. now subst.
  - intros H. exists x. split; [assumption|apply String.eqb_refl].
Qed.

(** ** The categorizer *)

Lemma fallback_categorize_in (text : string) :
  In (_fallback_categorize text) categories.
Proof.
  unfold _fallback_categorize, categories.
  repeat match goal with |- context [if ?b then _ else _] => destruct b end; simpl; auto.
Qed.

Lemma categorize_in (w : World) (text c : string) :
  fst (categorize w text) = Ok c -> In c categories.
Proof.
  unfold categorize. destruct (has_api_key w); simpl; [|discriminate].
  munfold. unfold try_except.
  destruct (llm_content w Categorize text) as [[content|e] t]; simpl.
  - destruct (Py.mem (Py.lower content) categories) eqn:Hm; simpl; intros [= ?]; subst.
    + now apply mem_In in Hm.
    + unfold categories; simpl; auto.
  - intros [= ?]; subst. apply fallback_categorize_in.
Qed.

(** ** C1: what an LLM failure falls back to *)

(** The reply of the chat-completion API whose message content is [s]. *)
Definition chat_reply (s : string) : http_reply :=
  HttpJson (JObj [("choices", JArr [JObj [("message", JObj [("content", JStr s)])]])]).

(** The LLM answers every prompt with the text "maybe"; nothing else responds. *)
Definition world_maybe : World :=
  {| OPENAI_API_KEY := Some "sk-test";
     HTTP_TIMEOUT_SECONDS := 1;
     json_loads := fun _ => None;
     llm_post := fun _ _ => chat_reply "maybe";
     geocoder_get := fun _ _ => HttpFailed;
     emergency_get := fun _ => HttpFailed |}.

(** The LLM reply cannot be used: the call failed, or its content is not
    JSON. *)
Definition llm_unusable (w : World) (op : llm_op) (text : string) : Prop :=
  (exists e, fst (llm_content w op text) = Raise e) \/
  (exists c, fst (llm_content w op text) = Ok c /\ json_loads w (strip_code_fence c) = None).

(** C1, as stated, fails for [categorize]: the LLM answers "maybe", which is
    no category name, and the result is "base" although the keyword fallback
    classifies the same text as "high_risk". *)
Lemma categorize_unparseable_is_not_fallback :
  fst (llm_content world_maybe Categorize "I lost passport") = Ok "maybe" /\
  Py.mem (Py.lower "maybe") categories = false /\
  fst (categorize world_maybe "I lost passport") = Ok "base" /\
  _fallback_categorize "I lost passport" = "high_risk" /\
  fst (categorize world_maybe "I lost passport")
    <> Ok (_fallback_categorize "I lost passport").
Proof. repeat split; try reflexivity. vm_compute. discriminate. Qed.

(** C1, amended: when the LLM call fails, each of the three operations
    returns what its fallback returns on the same text; so do
    [extract_contact] and [extract_entities] when the content of the reply is
    not JSON; [categorize] answers "base" when the content of the reply is
    not a category name. *)
Theorem llm_failure_uses_fallback (w : World) (text : string) (timeout : Q) :
  has_api_key w = true ->
  ((exists e, fst (llm_content w Categorize text) = Raise e) ->
   fst (categorize w text) = Ok (_fallback_categorize text)) /\
  (forall c, fst (llm_content w Categorize text) = Ok c ->
             Py.mem (Py.lower c) categories = false ->
             fst (categorize w text) = Ok "base") /\
  (llm_unusable w ExtractContact text ->
   fst (extract_contact w text) = Ok (_fallback_extract_contact text)) /\
  (llm_unusable w ExtractEntities text ->
   fst (extract_entities w text timeout) = fst (_fallback_extract_entities w text timeout)).
Proof.
  intros Hkey. repeat split.
  - intros [e He]. unfold categorize. rewrite Hkey. simpl. munfold. unfold try_except.
    destruct (llm_content w Categorize text) as [[c|e'] t]; simpl in *; [discriminate|reflexivity].
  - intros c Hc Hm. unfold categorize. rewrite Hkey. simpl. munfold. unfold try_except.
    destruct (llm_content w Categorize text) as [[c'|e'] t]; simpl in *; [|discriminate].
    injection Hc as ->. rewrite Hm. reflexivity.
  - intros H. unfold llm_unusable in H. unfold extract_contact. rewrite Hkey. simpl. munfold.
    unfold try_except, try_except_decode, loads.
    destruct (llm_content w ExtractContact text) as [[c|e'] t]; simpl in *.
    + destruct H as [[e He]|(c' & Hc & Hj)]; [discriminate|].
      injection Hc as ->. rewrite Hj. reflexivity.
    + reflexivity.
  - intros H. unfold llm_unusable in H. unfold extract_entities. rewrite Hkey. simpl. munfold.
    unfold try_except, try_except_decode, loads.
    destruct (llm_content w ExtractEntities text) as [[c|e'] t]; simpl in *.
    + destruct H as [[e He]|(c' & Hc & Hj)]; [discriminate|].
      injection Hc as ->. rewrite Hj. simpl.
      destruct (_fallback_extract_entities w text timeout) as [[r|e] t']; reflexivity.
    + destruct (_fallback_extract_entities w text timeout) as [r t']. reflexivity.
Qed.

(** A world in which every outbound call fails. *)
Definition world_offline : World :=
  {| OPENAI_API_KEY := Some "sk-test";
     HTTP_TIMEOUT_SECONDS := 1;
     json_loads := fun _ => None;
     llm_post := fun _ _ => HttpFailed;
     geocoder_get := fun _ _ => HttpFailed;
     emergency_get := fun _ => HttpFailed |}.

Lemma llm_failure_uses_fallback_witness :
  has_api_key world_offline = true /\
  fst (categorize world_offline "call me asap") = Ok (_fallback_categorize "call me asap").
Proof.
  split; [reflexivity|].
  apply (llm_failure_uses_fallback world_offline "call me asap" 1); [reflexivity|].
  exists HTTPError. reflexivity.
Defined.

(** ** C7 and C5: the responses of POST /normalize *)

Tactic Notation "bind_inv" hyp(H) "as" ident(a) ident(Ha) :=
  let t := fresh "t" in
  apply bind_ok_inv in H as (a & t & Ha & H); cbv beta in H.

(** C7: a successful request echoes the request's [message_id], carries the
    category the categorizer returned, which is one of "urgent", "high_risk"
    and "base", and each of [contact], [entities] and [enrichment] is present
    or omitted. *)
Theorem successful_response_shape (w : World) (request : NormalizeIn.t)
    (response : NormalizeOut.t) :
  fst (normalize_message w request) = Ok response ->
  NormalizeOut.message_id response = NormalizeIn.message_id request /\
  fst (categorize w (NormalizeIn.text request)) = Ok (NormalizeOut.category response) /\
  In (NormalizeOut.category response) ["urgent"; "high_risk"; "base"] /\
  (NormalizeOut.contact response = None \/ is_Some (NormalizeOut.contact response)) /\
  (NormalizeOut.entities response = None \/ is_Some (NormalizeOut.entities response)) /\
  (NormalizeOut.enrichment response = None \/ is_Some (NormalizeOut.enrichment response)).
Proof.
  intros H. unfold normalize_message in H. apply try_except_ok_inv in H.
  bind_inv H as contact_data Hcontact_data.
  bind_inv H as contact Hcontact.
  bind_inv H as extracted Hextracted.
  destruct extracted as [[entities_data country_map] typo_data].
  bind_inv H as entities Hentities.
  bind_inv H as category Hcategory.
  bind_inv H as enrichment_data Henrich.
  bind_inv H as enrichment_data' Hupdate.
  bind_inv H as enrichment Henrichment.
  rewrite fst_lift in H. unfold new_NormalizeOut in H.
  destruct (Py.mem category categories) eqn:Hm; [|discriminate].
  injection H as <-. simpl.
  assert (Hcat : fst (categorize w (NormalizeIn.text request)) = Ok category)
    by (now rewrite Hcategory).
  repeat split.
  - exact Hcat.
  - apply (categorize_in _ _ _ Hcat).
  - destruct contact; [right; eauto|left; reflexivity].
  - destruct entities; [right; eauto|left; reflexivity].
  - destruct enrichment; [right; eauto|left; reflexivity].
Qed.

Definition sample_request : NormalizeIn.t :=
  {| NormalizeIn.message_id := "msg-1";
     NormalizeIn.text := "Flying to Rome tomorrow" |}.

Lemma successful_response_shape_witness :
  exists response,
    fst (normalize_message world_offline sample_request) = Ok response /\
    NormalizeOut.message_id response = "msg-1" /\
    NormalizeOut.category response = "urgent".
Proof.
  eexists. split; [vm_compute; reflexivity|].
  split.
  - apply (successful_response_shape world_offline sample_request). vm_compute. reflexivity.
  - reflexivity.
Defined.

(** The body of an error response: [{"error": string, "detail": string}]. *)
Definition error_shape (r : Response) : Prop :=
  exists error detail, content r = JObj [("error", JStr error); ("detail", JStr detail)].

Lemma normalize_message_raises (w : World) (request : NormalizeIn.t) (exc : exn) :
  fst (normalize_message w request) = Raise exc ->
  exc = HTTPException 500 (error_body "InternalError" "An internal error occurred").
Proof. unfold normalize_message. apply try_except_raise_inv. Qed.

Lemma post_normalize_status (w : World) (request : NormalizeIn.t) :
  status (post_normalize w request) = 200%Z \/
  (status (post_normalize w request) = 500%Z /\ error_shape (post_normalize w request)).
Proof.
  unfold post_normalize.
  destruct (fst (normalize_message w request)) eqn:Hr; [left; reflexivity|right].
  apply normalize_message_raises in Hr. subst. unfold error_shape. simpl. eauto.
Qed.

(** The body [{"message_id": "m"}]: the field [text] is missing. *)
Definition body_without_text : json := JObj [("message_id", JStr "m")].

(** C5: a body without [text] is a validation failure, and it is answered
    422 with the body [{"detail": [...]}] of the framework's own handler:
    not 400, and not an object with the fields "error" and "detail".  No
    body at all is answered 400: a body that does not fit is answered 422,
    and one that fits 200 or, on an internal error, 500 with the body
    [{"error": string, "detail": string}].  The handler that answers 400
    with such a body is registered for pydantic's [ValidationError], which
    no request raises. *)
Theorem invalid_body_is_answered_422 :
  forall (lax_str : json -> option string) (validation_errors : json -> list json)
         (w : World),
    let endpoint := normalize_endpoint lax_str validation_errors w in
    (status (endpoint body_without_text) = 422%Z /\
     content (endpoint body_without_text)
       = JObj [("detail", JArr (validation_errors body_without_text))] /\
     ~ error_shape (endpoint body_without_text)) /\
    (forall body,
       (is_ok (parse_NormalizeIn lax_str validation_errors body) = false /\
        status (endpoint body) = 422%Z /\
        content (endpoint body) = JObj [("detail", JArr (validation_errors body))]) \/
       (is_ok (parse_NormalizeIn lax_str validation_errors body) = true /\
        (status (endpoint body) = 200%Z \/
         (status (endpoint body) = 500%Z /\ error_shape (endpoint body))))) /\
    (forall body, status (endpoint body) <> 400%Z) /\
    (forall msg,
       status (handle_exception (ValidationError msg)) = 400%Z /\
       error_shape (handle_exception (ValidationError msg))).
Proof.
  intros lax_str validation_errors w endpoint.
  assert (Hall : forall body,
     (is_ok (parse_NormalizeIn lax_str validation_errors body) = false /\
      status (endpoint body) = 422%Z /\
      content (endpoint body) = JObj [("detail", JArr (validation_errors body))]) \/
     (is_ok (parse_NormalizeIn lax_str validation_errors body) = true /\
      (status (endpoint body) = 200%Z \/
       (status (endpoint body) = 500%Z /\ error_shape (endpoint body))))).
  { intros body. subst endpoint. unfold normalize_endpoint.
    destruct (parse_NormalizeIn lax_str validation_errors body) as [request|exc] eqn:Hp.
    - right. split; [reflexivity|]. apply post_normalize_status.
    - left. split; [reflexivity|].
      assert (exc = RequestValidationError (validation_errors body)) as ->.
      { unfold parse_NormalizeIn in Hp. destruct body; try (now injection Hp as <-).
        destruct (_ ≫= _); [destruct (_ ≫= _)|]; congruence. }
      split; reflexivity. }
  split; [|split; [exact Hall|split]].
  - split; [reflexivity|]. split; [reflexivity|].
    intros (error & detail & H). discriminate.
  - intros body. destruct (Hall body) as [(_ & H & _)|(_ & [H|[H _]])]; rewrite H; discriminate.
  - intros msg. split; [reflexivity|]. unfold error_shape. simpl. eauto.
Qed.

(** A world without the API key: every LLM operation raises [ValueError]. *)
Definition world_no_key : World :=
  {| OPENAI_API_KEY := None;
     HTTP_TIMEOUT_SECONDS := 1;
     json_loads := fun _ => None;
     llm_post := fun _ _ => HttpFailed;
     geocoder_get := fun _ _ => HttpFailed;
     emergency_get := fun _ => HttpFailed |}.



(** ** Lower-case strings *)

Definition no_upper (s : string) : Prop :=
  Py.sforall (fun c => negb (Py.is_upper c)) s = true.

Lemma lower_char_not_upper (c : ascii) : Py.is_upper (Py.lower_char c) = false.
Proof. destruct c as [[] [] [] [] [] [] [] []]; reflexivity. Qed.

Lemma lower_no_upper (s : string) : no_upper (Py.lower s).
Proof.
  unfold no_upper, Py.lower. induction s as [|c s IH]; simpl; [reflexivity|].
  now rewrite lower_char_not_upper, IH.
Qed.

Lemma no_upper_lower (s : string) : no_upper s -> Py.lower s = s.
Proof.
  unfold no_upper, Py.lower. induction s as [|c s IH]; simpl; [reflexivity|].
  intros H. apply andb_true_iff in H as [Hc Hs]. rewrite (IH Hs).
  unfold Py.lower_char. apply negb_true_iff in Hc. now rewrite Hc.
Qed.

Lemma lower_idem (s : string) : Py.lower (Py.lower s) = Py.lower s.
Proof. apply no_upper_lower, lower_no_upper. Qed.

Lemma lstrip_no_upper (s : string) : no_upper s -> no_upper (Py.lstrip s).
Proof.
  unfold no_upper. induction s as [|c s IH]; simpl; [auto|].
  intros H. destruct (Py.is_space c); [|exact H].
  apply andb_true_iff in H as [_ Hs]. auto.
Qed.

Lemma rstrip_no_upper (s : string) : no_upper s -> no_upper (Py.rstrip s).
Proof.
  unfold no_upper. induction s as [|c s IH]; simpl; [auto|].
  intros H. apply andb_true_iff in H as [Hc Hs].
  destruct (_ && _); simpl; [reflexivity|]. now rewrite Hc, IH.
Qed.

Lemma strip_no_upper (s : string) : no_upper s -> no_upper (Py.strip s).
Proof. intros H. unfold Py.strip. now apply rstrip_no_upper, lstrip_no_upper. Qed.

Lemma lower_strip_lower (s : string) :
  Py.lower (Py.strip (Py.lower s)) = Py.strip (Py.lower s).
Proof. apply no_upper_lower, strip_no_upper, lower_no_upper. Qed.

(** ** The two paths of [extract_entities] *)

#[global] Arguments _extract_city_candidates_fallback : simpl never.
#[global] Arguments _extract_hotels_fallback : simpl never.
#[global] Arguments _extract_restaurants_fallback : simpl never.
#[global] Arguments _get_country_name_mappings : simpl never.
#[global] Arguments mappings : simpl never.
#[global] Arguments entity_types : simpl never.

(** Whatever [extract_entities] returns was returned by the LLM path on
    some parsed reply, or by the regex fallback. *)
Lemma extract_entities_cases (w : World) (text : string) (timeout : Q)
    (r : entities_result) :
  fst (extract_entities w text timeout) = Ok r ->
  (exists c parsed,
     fst (llm_content w ExtractEntities text) = Ok c /\
     json_loads w (strip_code_fence c) = Some parsed /\
     fst (entities_of_reply w parsed timeout) = Ok r) \/
  fst (_fallback_extract_entities w text timeout) = Ok r.
Proof.
  unfold extract_entities. destruct (has_api_key w); simpl; [|discriminate].
  munfold. unfold try_except, try_except_decode, loads.
  destruct (_fallback_extract_entities w text timeout) as [[rf|ef] tf] eqn:Hf;
    destruct (llm_content w ExtractEntities text) as [[c|e] t]; simpl;
    try discriminate; try (intros [= ->]; now right).
  - destruct (json_loads w (strip_code_fence c)) as [parsed|] eqn:Hj; simpl;
      [|intros [= ->]; now right].
    destruct (entities_of_reply w parsed timeout) as [[r'|e] t'] eqn:Hr; simpl.
    + intros [= ->]. left. exists c, parsed. now rewrite Hr.
    + destruct e; simpl; intros [= ->]; now right.
  - destruct (json_loads w (strip_code_fence c)) as [parsed|] eqn:Hj; simpl;
      [|discriminate].
    destruct (entities_of_reply w parsed timeout) as [[r'|e] t'] eqn:Hr; simpl.
    + intros [= ->]. left. exists c, parsed. now rewrite Hr.
    + destruct e; simpl; discriminate.
Qed.

(** ** Geocoding *)

(** What the [i]-th geocoding task makes of its reply. *)
Definition geo_hit_of (w : World) (i : nat) (city_name : string) : option geo_hit :=
  match geocoder_get w i city_name with
  | HttpJson data => match accept_place data with Ok hit => hit | Raise _ => None end
  | HttpFailed => None
  end.

Definition geo_code (w : World) (i : nat) (city_name : string) : option string :=
  country_code <$> geo_hit_of w i city_name.

Lemma geocode_city_eq (w : World) (i : nat) (city_name : string) (timeout : Q) :
  _geocode_city w i city_name timeout
  = (Ok (geo_hit_of w i city_name), [GeoCall city_name timeout]).
Proof.
  unfold _geocode_city, geo_hit_of, http, try_except. munfold.
  destruct (geocoder_get w i city_name) as [|data]; simpl; [reflexivity|].
  destruct (accept_place data); reflexivity.
Qed.

Lemma geocode_failed (w : World) (i : nat) (city_name : string) :
  geocoder_get w i city_name = HttpFailed -> geo_code w i city_name = None.
Proof. unfold geo_code, geo_hit_of. now intros ->. Qed.

Lemma gather_imap {A : Type} (f : nat -> string -> M A) (g : nat -> string -> Res A)
    (c : string -> call) (names : list string) :
  (forall i n, f i n = (g i n, [c n])) ->
  gather (imap f names) = (Ok (imap g names), map c names).
Proof.
  revert f g. induction names as [|n names IH]; intros f g H; [reflexivity|].
  specialize (IH (f ∘ S) (g ∘ S) (fun i n => H (S i) n)).
  unfold gather in *. simpl. rewrite H. simpl.
  injection IH as IH1 IH2. now rewrite IH1, IH2.
Qed.

Lemma gather_geocode (w : World) (timeout : Q) (names : list string) :
  gather (imap (fun i n => _geocode_city w i n timeout) names)
  = (Ok (imap (fun i n => Ok (geo_hit_of w i n)) names),
     map (fun n => GeoCall n timeout) names).
Proof. apply gather_imap. intros i n. apply geocode_city_eq. Qed.

(** The country map geocoding alone gives for [names]. *)
Definition geocoded_map (w : World) (names : list string) : gmap string string :=
  foldl (fun (country_map : gmap string string) '(city_name, result) =>
           match result with
           | Ok (Some hit) => <[Py.lower city_name := country_code hit]> country_map
           | _ => country_map
           end)
        ∅ (zip_with pair names (imap (fun i n => Ok (geo_hit_of w i n)) names)).

Lemma get_country_codes_eq (w : World) (names : list string) (timeout : Q) :
  _get_country_codes w names timeout
  = (Ok (geocoded_map w names), map (fun n => GeoCall n timeout) names).
Proof.
  unfold _get_country_codes. rewrite gather_geocode. munfold. simpl.
  now rewrite app_nil_r.
Qed.

(** ** The LLM path of entity extraction *)

Definition city_names (es : list entity) : list string :=
  map value (List.filter (fun e => String.eqb (type e) "city") es).

Definition country_names (es : list entity) : list string :=
  map value (List.filter (fun e => String.eqb (type e) "country") es).

(** The country map of the LLM path: geocoding, overridden by the static
    table for the cities, then by the static table for the countries. *)
Definition merged_map (w : World) (es : list entity) : gmap string string :=
  update (update (geocoded_map w (city_names es))
                 (_get_country_name_mappings (city_names es)))
         (_get_country_name_mappings (country_names es)).

Lemma name_mappings_nil : _get_country_name_mappings [] = ∅.
Proof. reflexivity. Qed.

Lemma update_empty (d : gmap string string) : update d ∅ = d.
Proof. unfold update. apply (left_id_L ∅ (∪)). Qed.

(** The entities and the typos a parsed reply holds. *)
Definition reply_parts (parsed_response : json) : Res (json * json) :=
  match parsed_response with
  | JArr _ => Ok (parsed_response, no_typos)
  | _ =>
      entities ← J.get parsed_response "entities" (JArr []);
      typos ← J.get parsed_response "typos" (JObj []);
      mret (entities, typos)
  end.

(** The LLM path in closed form. *)
Lemma entities_of_reply_eq (w : World) (parsed : json) (timeout : Q) :
  entities_of_reply w parsed timeout =
  match reply_parts parsed with
  | Raise e => (Raise e, [])
  | Ok (entities, typos) =>
      match J.iter entities with
      | Raise e => (Raise e, [])
      | Ok items =>
          let es := omap validate_entity items in
          (Ok (es, merged_map w es, typos),
           map (fun n => GeoCall n timeout) (city_names es))
      end
  end.
Proof.
  unfold entities_of_reply. fold (reply_parts parsed).
  destruct (reply_parts parsed) as [[entities typos]|e]; [|reflexivity].
  munfold. cbv beta iota.
  destruct (J.iter entities) as [items|e]; [|reflexivity].
  cbv beta iota zeta. unfold merged_map, city_names, country_names.
  generalize (omap validate_entity items). intros es.
  destruct (List.filter (fun e => String.eqb (type e) "city") es) as [|c0 cs];
    destruct (List.filter (fun e => String.eqb (type e) "country") es) as [|k0 ks];
    rewrite ?get_country_codes_eq; munfold; cbn [lift fst snd app map];
    rewrite ?name_mappings_nil, ?update_empty, ?app_nil_r; reflexivity.
Qed.

Lemma entities_of_reply_inv (w : World) (parsed : json) (timeout : Q)
    (es : list entity) (cm : gmap string string) (ty : json) :
  fst (entities_of_reply w parsed timeout) = Ok (es, cm, ty) ->
  (exists items, es = omap validate_entity items) /\
  cm = merged_map w es /\
  snd (entities_of_reply w parsed timeout)
    = map (fun n => GeoCall n timeout) (city_names es).
Proof.
  rewrite entities_of_reply_eq.
  destruct (reply_parts parsed) as [[entities typos]|e]; [|discriminate].
  destruct (J.iter entities) as [items|e]; [|discriminate].
  cbv zeta. simpl. intros [= <- <- <-]. eauto.
Qed.

(** ** The regex fallback of entity extraction *)

(** The dict [_validate_cities_fallback] builds from the replies. *)
Definition validated_cities (w : World) (candidates : gset string)
    : list (string * string) :=
  foldl (fun validated (result : Res (option geo_hit)) =>
           match result with
           | Ok (Some hit) => dict_set validated (city hit) (country_code hit)
           | _ => validated
           end)
        [] (imap (fun i n => Ok (geo_hit_of w i n)) (elements candidates)).

Lemma validate_cities_eq (w : World) (candidates : gset string) (timeout : Q) :
  _validate_cities_fallback w candidates timeout
  = (Ok (validated_cities w candidates),
     map (fun n => GeoCall n timeout) (elements candidates)).
Proof.
  unfold _validate_cities_fallback. rewrite gather_geocode. munfold. simpl.
  now rewrite app_nil_r.
Qed.

Definition city_entity (kv : string * string) : entity :=
  {| type := "city"; value := Py.lower kv.1 |}.

Definition fallback_entities (validated : list (string * string)) (text : string)
    : list entity :=
  (map city_entity validated
   ++ map (fun hotel => {| type := "hotel"; value := Py.lower hotel |})
          (_extract_hotels_fallback text)
   ++ map (fun restaurant => {| type := "restaurant"; value := Py.lower restaurant |})
          (_extract_restaurants_fallback text))%list.

Definition fallback_map (validated : list (string * string)) : gmap string string :=
  foldl (fun (country_map : gmap string string) kv => <[Py.lower kv.1 := kv.2]> country_map)
        ∅ validated.

(** The fallback in closed form. *)
Lemma fallback_extract_entities_eq (w : World) (text : string) (timeout : Q) :
  _fallback_extract_entities w text timeout =
  let validated := validated_cities w (_extract_city_candidates_fallback text) in
  (Ok (fallback_entities validated text, fallback_map validated, no_typos),
   map (fun n => GeoCall n timeout) (elements (_extract_city_candidates_fallback text))).
Proof.
  unfold _fallback_extract_entities. cbv zeta.
  generalize (_extract_city_candidates_fallback text). intros candidates.
  assert (Hmap : forall l : list (string * string),
            map (fun '(city, _) => {| type := "city"; value := Py.lower city |}) l
            = map city_entity l).
  { intros l. apply map_ext. now intros [a b]. }
  assert (Hfold : forall (l : list (string * string)) (m : gmap string string),
            foldl (fun (country_map : gmap string string) '(city, country_code) =>
                     <[Py.lower city := country_code]> country_map) m l
            = foldl (fun (country_map : gmap string string) kv =>
                       <[Py.lower kv.1 := kv.2]> country_map) m l).
  { induction l as [|[a b] l IH]; intros m; simpl; [reflexivity|apply IH]. }
  destruct (bool_decide (candidates ≠ ∅)) eqn:Hne.
  - rewrite validate_cities_eq. munfold. cbv beta iota.
    unfold fallback_entities, fallback_map. rewrite Hmap, Hfold.
    now rewrite !app_nil_r.
  - apply bool_decide_eq_false in Hne. apply dec_stable in Hne. subst candidates.
    unfold validated_cities. rewrite elements_empty. reflexivity.
Qed.

(** ** C8: the entities returned *)

Definition entity_ok (e : entity) : Prop :=
  Py.lower (value e) = value e /\ In (type e) ["city"; "country"; "hotel"; "restaurant"].

Lemma validate_entity_ok (item : json) (e : entity) :
  validate_entity item = Some e -> entity_ok e.
Proof.
  unfold validate_entity. destruct item as [| | | |?|fields]; try discriminate.
  destruct (J.assoc "type" fields) as [[| | |t| |]|]; try discriminate;
    destruct (J.assoc "value" fields) as [[| | |v| |]|]; try discriminate.
  destruct (Py.mem t entity_types) eqn:Hm; [|discriminate].
  intros [= <-]. split; simpl.
  - apply lower_strip_lower.
  - now apply mem_In in Hm.
Qed.

Lemma fallback_entities_ok (validated : list (string * string)) (text : string) (e : entity) :
  In e (fallback_entities validated text) -> entity_ok e.
Proof.
  unfold fallback_entities. rewrite !in_app_iff, !in_map_iff.
  intros [(kv & <- & _)|[(h & <- & _)|(r & <- & _)]]; split; simpl;
    auto using lower_idem.
  all: auto 6.
Qed.

(** C8: every entity [extract_entities] returns, through the LLM path or
    through the regex fallback, has a value that lower-casing leaves
    unchanged and a type among city, country, hotel and restaurant. *)
Theorem entities_lowercase_and_typed (w : World) (text : string) (timeout : Q)
    (es : list entity) (cm : gmap string string) (ty : json) (e : entity) :
  fst (extract_entities w text timeout) = Ok (es, cm, ty) ->
  In e es ->
  Py.lower (value e) = value e /\
  In (type e) ["city"; "country"; "hotel"; "restaurant"].
Proof.
  intros H Hin. apply extract_entities_cases in H as [(c & parsed & _ & _ & H)|H].
  - apply entities_of_reply_inv in H as ((items & ->) & _).
    apply list_elem_of_In, list_elem_of_omap in Hin as (item & _ & Hv).
    apply (validate_entity_ok _ _ Hv).
  - rewrite fallback_extract_entities_eq in H. cbv zeta in H. simpl in H.
    injection H as <- _ _. apply (fallback_entities_ok _ _ _ Hin).
Qed.

Lemma entities_lowercase_and_typed_witness :
  fst (extract_entities world_offline "staying at Chapter Roma" 1)
    = Ok ([{| type := "hotel"; value := "chapter roma" |}], ∅, no_typos) /\
  Py.lower "chapter roma" = "chapter roma" /\
  In "hotel" ["city"; "country"; "hotel"; "restaurant"].
Proof.
  assert (H : fst (extract_entities world_offline "staying at Chapter Roma" 1)
              = Ok ([{| type := "hotel"; value := "chapter roma" |}], ∅, no_typos))
    by (vm_compute; reflexivity).
  split; [exact H|].
  apply (entities_lowercase_and_typed _ _ _ _ _ _
           {| type := "hotel"; value := "chapter roma" |} H).
  left. reflexivity.
Defined.

(** ** C10: the numbers fetched for one country *)

#[global] Arguments nonempty : simpl never.

Definition nonblank (s : string) : Prop := Py.strip s <> EmptyString.

(** The reply marks the country as a member of the 112 group. *)
Definition marks_112 (api_response : json) : bool :=
  match api_response with
  | JObj fields =>
      match J.assoc "data" fields with
      | Some (JObj data) =>
          match J.assoc "member_112" data with
          | Some flag => J.truthy flag
          | None => false
          end
      | _ => false
      end
  | _ => false
  end.

(** What [_fetch_emergency_numbers] returns for a country. *)
Definition fetched_numbers (w : World) (country_code : string) : list string :=
  match emergency_get w country_code with
  | HttpJson api_response =>
      match numbers_of_reply api_response with Ok numbers => numbers | Raise _ => [] end
  | HttpFailed => []
  end.

Lemma fetch_emergency_numbers_eq (w : World) (country_code : string) (timeout : Q) :
  _fetch_emergency_numbers w country_code timeout
  = (Ok (fetched_numbers w country_code), [EmergencyCall country_code timeout]).
Proof.
  unfold _fetch_emergency_numbers, fetched_numbers, http, try_except. munfold.
  destruct (emergency_get w country_code) as [|j]; simpl; [reflexivity|].
  destruct (numbers_of_reply j); reflexivity.
Qed.

Lemma unique_from_spec (numbers : list string) (seen : gset string) :
  NoDup (unique_from seen numbers) /\
  (forall x, x ∈ unique_from seen numbers <-> x ∈ numbers /\ x ∉ seen).
Proof.
  revert seen. induction numbers as [|num numbers IH]; intros seen; simpl.
  - split; [constructor|]. intros x. rewrite elem_of_nil. tauto.
  - destruct (bool_decide (num ∈ seen)) eqn:Hd.
    + apply bool_decide_eq_true in Hd. destruct (IH seen) as [Hnd Hin].
      split; [exact Hnd|]. intros x. rewrite Hin, elem_of_cons.
      split; [tauto|]. intros [[->|Hx] Hs]; [contradiction|tauto].
    + apply bool_decide_eq_false in Hd. destruct (IH ({[num]} ∪ seen)) as [Hnd Hin].
      split.
      * constructor; [|exact Hnd]. rewrite Hin. set_solver.
      * intros x. rewrite !elem_of_cons, Hin.
        destruct (decide (x = num)) as [->|Hne]; set_solver.
Qed.

Lemma unique_from_head (num : string) (numbers : list string) :
  head (unique_from ∅ (num :: numbers)) = Some num.
Proof.
  simpl. rewrite bool_decide_eq_false_2 by set_solver. reflexivity.
Qed.

Lemma nonblank_numbers_ok (items : list json) (exclude nums : list string) :
  nonblank_numbers items exclude = Ok nums -> Forall nonblank nums.
Proof.
  revert nums. induction items as [|num items IH]; intros nums; simpl.
  - intros [= <-]. constructor.
  - munfold. destruct (J.as_str num) as [s|e]; simpl; [|discriminate].
    destruct (nonblank_numbers items exclude) as [rest|e]; simpl; [|discriminate].
    specialize (IH rest eq_refl).
    destruct (nonempty (Py.strip s)) eqn:Hne; simpl.
    + destruct (negb (Py.mem s exclude)); intros [= <-]; [|exact IH].
      constructor; [|exact IH]. unfold nonblank. unfold nonempty in Hne.
      intros Heq. rewrite Heq in Hne. discriminate.
    + intros [= <-]. exact IH.
Qed.

Lemma extend_numbers_inv (block : json) (numbers numbers' : list string) (b : bool) :
  extend_numbers block numbers b = Ok numbers' ->
  exists extra, numbers' = (numbers ++ extra)%list /\ Forall nonblank extra.
Proof.
  unfold extend_numbers.
  assert (Hsame : Ok numbers = Ok numbers' ->
                  exists extra, numbers' = (numbers ++ extra)%list /\ Forall nonblank extra).
  { intros [= <-]. exists []. split; [now rewrite app_nil_r|constructor]. }
  destruct block; munfold; simpl; try exact Hsame.
  destruct (J.truthy _); [|exact Hsame].
  destruct (J.iter _) as [items|e]; simpl; [|discriminate].
  destruct (nonblank_numbers items _) as [nums|e] eqn:Hn; simpl; [|discriminate].
  intros [= <-]. exists nums. split; [reflexivity|]. apply (nonblank_numbers_ok _ _ _ Hn).
Qed.

Lemma nonblank_112 : nonblank "112".
Proof. unfold nonblank. vm_compute. discriminate. Qed.

Lemma numbers_of_reply_inv (api_response : json) (numbers : list string) :
  numbers_of_reply api_response = Ok numbers ->
  exists raw, numbers = unique_from ∅ raw /\ Forall nonblank raw /\
              (marks_112 api_response = true -> exists rest, raw = "112" :: rest).
Proof.
  unfold numbers_of_reply, marks_112.
  assert (Hnil : Ok (unique_from ∅ []) = Ok numbers ->
            exists raw, numbers = unique_from ∅ raw /\ Forall nonblank raw /\
                        (false = true -> exists rest, raw = "112" :: rest)).
  { intros [= <-]. exists []. repeat split; [constructor|discriminate]. }
  destruct api_response as [| | | | |fields]; munfold; simpl; try exact Hnil.
  destruct (J.assoc "data" fields) as [data|]; simpl; [|exact Hnil].
  destruct data as [| | | | |dfields]; simpl; try discriminate.
  set (flag := match J.assoc "member_112" dfields with Some v => v | None => JBool false end).
  set (start := if J.truthy flag then ["112"] else []).
  destruct (extend_numbers _ start false) as [n1|e] eqn:H1; simpl; [|discriminate].
  destruct (extend_numbers _ n1 true) as [n2|e] eqn:H2; simpl; [|discriminate].
  intros [= <-].
  apply extend_numbers_inv in H1 as (x1 & -> & Hx1).
  apply extend_numbers_inv in H2 as (x2 & -> & Hx2).
  exists ((start ++ x1) ++ x2)%list. split; [reflexivity|]. split.
  - rewrite !Forall_app. repeat split; try assumption.
    subst start. destruct (J.truthy flag); repeat constructor. apply nonblank_112.
  - intros Hm. subst start flag.
    destruct (J.assoc "member_112" dfields) as [v|]; [|discriminate].
    rewrite Hm. simpl. eauto.
Qed.

(** C10, amended: for every country code, [_fetch_emergency_numbers]
    returns a list without duplicates and without blank entries; "112" is
    its first element when the reply marks the country as a member of the
    112 group and the whole reply is processed without an error; on any
    error, one raised while reading the number lists included, the list is
    empty. *)
Theorem fetch_emergency_numbers_spec (w : World) (country_code : string) (timeout : Q) :
  exists numbers,
    fst (_fetch_emergency_numbers w country_code timeout) = Ok numbers /\
    NoDup numbers /\
    (forall n, In n numbers -> Py.strip n <> EmptyString) /\
    (forall api_response,
       emergency_get w country_code = HttpJson api_response ->
       marks_112 api_response = true ->
       is_ok (numbers_of_reply api_response) = true ->
       head numbers = Some "112") /\
    (emergency_get w country_code = HttpFailed -> numbers = []) /\
    (forall api_response e,
       emergency_get w country_code = HttpJson api_response ->
       numbers_of_reply api_response = Raise e -> numbers = []).
Proof.
  exists (fetched_numbers w country_code).
  rewrite fetch_emergency_numbers_eq. split; [reflexivity|].
  unfold fetched_numbers.
  destruct (emergency_get w country_code) as [|j] eqn:Hget.
  - repeat split; try constructor; try discriminate. intros n [].
  - destruct (numbers_of_reply j) as [numbers|e] eqn:Hn.
    + pose proof Hn as Hok.
      apply numbers_of_reply_inv in Hn as (raw & -> & Hraw & Hm).
      destruct (unique_from_spec raw ∅) as [Hnd Hin]. repeat split.
      * exact Hnd.
      * intros n Hn. apply list_elem_of_In, Hin in Hn as [Hn _].
        rewrite Forall_forall in Hraw. apply (Hraw n Hn).
      * intros j' [= <-] Hmark _. destruct (Hm Hmark) as [rest ->].
        apply unique_from_head.
      * discriminate.
      * intros j' e [= <-]. rewrite Hok. discriminate.
    + repeat split; try constructor; try discriminate.
      * intros n [].
      * intros j' [= <-] _ Hok. rewrite Hn in Hok. discriminate.
Qed.

(** A reply of the emergency-number API for a member of the 112 group. *)
Definition reply_112 : http_reply :=
  HttpJson (JObj [("data", JObj [("member_112", JBool true);
                                 ("dispatch", JObj [("all", JArr [JStr "112"; JStr ""])]);
                                 ("police", JObj [("all", JArr [JStr "17"; JStr "112"])])])]).

(** The LLM is down, the geocoder knows Paris and the emergency-number API
    answers for France. *)
Definition world_paris : World :=
  {| OPENAI_API_KEY := Some "sk-test";
     HTTP_TIMEOUT_SECONDS := 1;
     json_loads := fun _ => None;
     llm_post := fun _ _ => HttpFailed;
     geocoder_get := fun _ q =>
       if String.eqb q "Paris" then
         HttpJson (JArr [JObj [("class", JStr "place"); ("type", JStr "city");
                               ("display_name", JStr "Paris, France");
                               ("address", JObj [("country_code", JStr "fr")])]])
       else HttpFailed;
     emergency_get := fun c => if String.eqb c "FR" then reply_112 else HttpFailed |}.

Lemma fetch_emergency_numbers_spec_witness :
  exists numbers,
    fst (_fetch_emergency_numbers world_paris "FR" 1) = Ok numbers /\
    head numbers = Some "112" /\
    fst (_fetch_emergency_numbers world_paris "DE" 1) = Ok [].
Proof.
  destruct (fetch_emergency_numbers_spec world_paris "FR" 1)
    as (numbers & Hfst & _ & _ & H112 & _).
  exists numbers. split; [exact Hfst|]. split.
  - apply (H112 (JObj [("data", JObj [("member_112", JBool true);
                                      ("dispatch", JObj [("all", JArr [JStr "112"; JStr ""])]);
                                      ("police", JObj [("all", JArr [JStr "17"; JStr "112"])])])]));
      reflexivity.
  - destruct (fetch_emergency_numbers_spec world_paris "DE" 1)
      as (none & Hfst' & _ & _ & _ & Hfail & _).
    rewrite Hfst'. f_equal. apply Hfail. reflexivity.
Defined.

(** A reply that marks the country as a member of the 112 group and whose
    dispatch list holds a number where a string is expected:
    [{"data": {"member_112": true, "dispatch": {"all": [911]}}}]. *)
Definition reply_911 : json :=
  JObj [("data", JObj [("member_112", JBool true);
                       ("dispatch", JObj [("all", JArr [JNum 911])])])].

Definition world_911 : World :=
  {| OPENAI_API_KEY := Some "sk-test";
     HTTP_TIMEOUT_SECONDS := 1;
     json_loads := fun _ => None;
     llm_post := fun _ _ => HttpFailed;
     geocoder_get := fun _ _ => HttpFailed;
     emergency_get := fun _ => HttpJson reply_911 |}.

(** C10, as stated, fails: the reply marks the country as a member of the
    112 group, "112" is appended, then [num.strip()] raises on the number
    911 and the [except] clause returns the empty list, so "112" is not the
    first element of what is returned. *)
Lemma member_112_reply_without_112 :
  emergency_get world_911 "US" = HttpJson reply_911 /\
  marks_112 reply_911 = true /\
  fst (_fetch_emergency_numbers world_911 "US" 1) = Ok [] /\
  head (fetched_numbers world_911 "US") <> Some "112".
Proof.
  split; [reflexivity|]. split; [reflexivity|].
  split; [vm_compute; reflexivity|]. vm_compute. discriminate.
Qed.

(** ** C9: the phone field of the contact *)

(** A string of exactly ten digit characters. *)
Definition ten_digits (s : string) : Prop :=
  String.length s = 10%nat /\ Py.sforall Py.is_digit s = true.

Definition phone_ok (j : json) : Prop :=
  j = JNull \/ exists s, j = JStr s /\ ten_digits s.

(** The quotation mark. *)
Definition dq : string := String "034" EmptyString.

(** The text [{"first_name": "Alex", "phone": ""}]. *)
Definition empty_phone_content : string :=
  "{" ++ dq ++ "first_name" ++ dq ++ ": " ++ dq ++ "Alex" ++ dq ++ ", "
      ++ dq ++ "phone" ++ dq ++ ": " ++ dq ++ dq ++ "}".

(** The LLM answers the contact prompt with an empty phone; [json.loads]
    decodes that text as Python does. *)
Definition world_empty_phone : World :=
  {| OPENAI_API_KEY := Some "sk-test";
     HTTP_TIMEOUT_SECONDS := 1;
     json_loads := fun s =>
       if String.eqb s empty_phone_content
       then Some (JObj [("first_name", JStr "Alex"); ("phone", JStr "")])
       else None;
     llm_post := fun op _ =>
       match op with
       | ExtractContact => chat_reply empty_phone_content
       | _ => HttpFailed
       end;
     geocoder_get := fun _ _ => HttpFailed;
     emergency_get := fun _ => HttpFailed |}.

(** C9 does not hold of the code: when the LLM reports the phone as the
    empty string, the truthiness test skips the digit clean-up and the
    contact dict keeps a phone that is neither null nor ten digits; the
    response of the request carries it. *)
Theorem empty_phone_survives_llm_path :
  fst (extract_contact world_empty_phone "Hi, Alex here")
    = Ok {| first_name := JStr "Alex"; last_name := JNull; email := JNull;
            phone := JStr EmptyString; zip := JNull |} /\
  ~ phone_ok (JStr "") /\
  (exists response,
     fst (normalize_message world_empty_phone
            {| NormalizeIn.message_id := "m"; NormalizeIn.text := "Hi, Alex here" |})
       = Ok response /\
     Contact.phone <$> NormalizeOut.contact response = Some (Some "")).
Proof.
  split; [vm_compute; reflexivity|]. split.
  - intros [H|(s & [= <-] & Hlen & _)]; [discriminate|]. simpl in Hlen. discriminate.
  - eexists. split; vm_compute; reflexivity.
Qed.

(** ** Closed forms of the effectful operations *)

#[global] Arguments entities_of_reply : simpl never.
#[global] Arguments _get_country_codes : simpl never.
#[global] Arguments _validate_cities_fallback : simpl never.
#[global] Arguments _fetch_emergency_numbers : simpl never.

(** The entities and typos of the LLM path, when the reply can be used. *)
Definition llm_entities (w : World) (text : string) : option (list entity * json) :=
  match fst (llm_content w ExtractEntities text) with
  | Ok c =>
      match json_loads w (strip_code_fence c) with
      | Some parsed =>
          match reply_parts parsed with
          | Ok (entities, typos) =>
              match J.iter entities with
              | Ok items => Some (omap validate_entity items, typos)
              | Raise _ => None
              end
          | Raise _ => None
          end
      | None => None
      end
  | Raise _ => None
  end.

Definition geo_calls (timeout : Q) (names : list string) : list call :=
  map (fun n => GeoCall n timeout) names.

Lemma llm_content_pair (w : World) (op : llm_op) (text : string) :
  llm_content w op text = (fst (llm_content w op text), [LLMCall op text LLM_TIMEOUT]).
Proof. rewrite <- (llm_content_trace w op text). now destruct (llm_content w op text). Qed.

Lemma extract_entities_eq (w : World) (text : string) (timeout : Q) :
  has_api_key w = true ->
  extract_entities w text timeout =
  match llm_entities w text with
  | Some (es, typos) =>
      (Ok (es, merged_map w es, typos),
       LLMCall ExtractEntities text LLM_TIMEOUT :: geo_calls timeout (city_names es))
  | None =>
      let validated := validated_cities w (_extract_city_candidates_fallback text) in
      (Ok (fallback_entities validated text, fallback_map validated, no_typos),
       LLMCall ExtractEntities text LLM_TIMEOUT
         :: geo_calls timeout (elements (_extract_city_candidates_fallback text)))
  end.
Proof.
  intros Hkey. unfold extract_entities, llm_entities. rewrite Hkey. cbn [negb].
  rewrite (llm_content_pair w ExtractEntities text).
  rewrite fallback_extract_entities_eq. cbv zeta.
  unfold try_except, try_except_decode, loads. munfold. cbn [fst snd].
  destruct (fst (llm_content w ExtractEntities text)) as [c|e]; [|reflexivity].
  destruct (json_loads w (strip_code_fence c)) as [parsed|]; [|reflexivity].
  cbv beta iota. rewrite entities_of_reply_eq.
  destruct (reply_parts parsed) as [[entities typos]|e]; [|destruct e; reflexivity].
  destruct (J.iter entities) as [items|e]; [|destruct e; reflexivity].
  reflexivity.
Qed.

Lemma extract_entities_no_key (w : World) (text : string) (timeout : Q) :
  has_api_key w = false ->
  extract_entities w text timeout
  = (Raise (ValueError "OPENAI_API_KEY environment variable not set"), []).
Proof. intros H. unfold extract_entities. now rewrite H. Qed.

Lemma categorize_trace (w : World) (text : string) :
  snd (categorize w text)
  = if has_api_key w then [LLMCall Categorize text LLM_TIMEOUT] else [].
Proof.
  unfold categorize. destruct (has_api_key w); [|reflexivity]. cbn [negb].
  rewrite (llm_content_pair w Categorize text). unfold try_except. munfold.
  destruct (fst (llm_content w Categorize text)) as [c|e]; [|reflexivity].
  destruct (Py.mem (Py.lower c) categories); reflexivity.
Qed.

Lemma extract_contact_trace (w : World) (text : string) :
  snd (extract_contact w text)
  = if has_api_key w then [LLMCall ExtractContact text LLM_TIMEOUT] else [].
Proof.
  unfold extract_contact. destruct (has_api_key w); [|reflexivity]. cbn [negb].
  rewrite (llm_content_pair w ExtractContact text).
  unfold try_except, try_except_decode, loads. munfold.
  destruct (fst (llm_content w ExtractContact text)) as [c|e]; [|reflexivity].
  destruct (json_loads w (strip_code_fence c)) as [parsed|]; [|reflexivity].
  cbv beta iota. destruct (clean_contact parsed) as [d|e]; [reflexivity|].
  destruct e; reflexivity.
Qed.

Lemma extract_contact_no_key (w : World) (text : string) :
  has_api_key w = false ->
  extract_contact w text
  = (Raise (ValueError "OPENAI_API_KEY environment variable not set"), []).
Proof. intros H. unfold extract_contact. now rewrite H. Qed.

(** *** Enrichment *)

Definition emergency_calls (timeout : Q) (codes : list string) : list call :=
  map (fun c => EmergencyCall c timeout) codes.

Lemma gather_fetch (w : World) (timeout : Q) (codes : list string) :
  gather (map (fun c => _fetch_emergency_numbers w c timeout) codes)
  = (Ok (map (fun c => Ok (fetched_numbers w c)) codes), emergency_calls timeout codes).
Proof.
  unfold gather, emergency_calls. rewrite !map_map.
  f_equal; [f_equal|].
  - apply map_ext. intros c. now rewrite fetch_emergency_numbers_eq.
  - induction codes as [|c codes IH]; simpl; [reflexivity|].
    now rewrite fetch_emergency_numbers_eq, IH.
Qed.

(** The union of the numbers fetched for [codes]. *)
Definition numbers_union (w : World) (codes : list string) : gset string :=
  foldl (fun (acc : gset string) (result : Res (list string)) =>
           match result with
           | Ok numbers => acc ∪ list_to_set numbers
           | Raise _ => acc
           end)
        ∅ (map (fun c => Ok (fetched_numbers w c)) codes).

Definition country_codes (country_map : gmap string string) : list string :=
  elements (map_img country_map : gset string).

(** What [_get_emergency_numbers] returns for a country map. *)
Definition emergency_numbers_of (w : World) (country_map : gmap string string)
    : option (list string) :=
  let emergency_numbers := numbers_union w (country_codes country_map) in
  if bool_decide (emergency_numbers ≠ ∅) then Some (elements emergency_numbers)
  else None.

Lemma get_emergency_numbers_eq (w : World) (cities : list string)
    (country_map : gmap string string) (timeout : Q) :
  _get_emergency_numbers w cities country_map timeout
  = (Ok (emergency_numbers_of w country_map),
     emergency_calls timeout (country_codes country_map)).
Proof.
  unfold _get_emergency_numbers. cbv zeta. rewrite gather_fetch. munfold.
  cbn [fst snd]. now rewrite app_nil_r.
Qed.

#[global] Arguments _get_emergency_numbers : simpl never.

Definition locations (entities : list entity) : list string :=
  map value (List.filter (fun e => Py.mem (type e) ["city"; "country"]) entities).

Definition numbers_json (o : option (list string)) : json :=
  match o with
  | Some numbers => JArr (map JStr numbers)
  | None => JNull
  end.

Lemma enrich_eq (w : World) (entities : list entity) (country_map : gmap string string)
    (timeout : Q) :
  enrich w entities country_map timeout =
  match locations entities with
  | [] => (Ok [("local_emergency_numbers", JNull)], [])
  | _ =>
      (Ok [("local_emergency_numbers", numbers_json (emergency_numbers_of w country_map))],
       emergency_calls timeout (country_codes country_map))
  end.
Proof.
  unfold enrich. cbv zeta. fold (locations entities).
  destruct (locations entities) as [|l ls]; [reflexivity|].
  rewrite get_emergency_numbers_eq. munfold. cbn [fst snd].
  rewrite app_nil_r. now destruct (emergency_numbers_of w country_map).
Qed.

(** ** C4: one emergency-number lookup per country code *)

Lemma country_codes_spec (country_map : gmap string string) :
  NoDup (country_codes country_map) /\
  (forall c, In c (country_codes country_map) <-> exists k, country_map !! k = Some c) /\
  length (country_codes country_map) = size (map_img country_map : gset string).
Proof.
  unfold country_codes. repeat split.
  - apply NoDup_elements.
  - intros H. apply list_elem_of_In, elem_of_elements, elem_of_map_img in H. exact H.
  - intros H. apply list_elem_of_In, elem_of_elements, elem_of_map_img. exact H.
Qed.

Lemma filter_nil_weaken {A : Type} (p q : A -> bool) (l : list A) :
  (forall x, q x = true -> p x = true) ->
  List.filter p l = [] -> List.filter q l = [].
Proof.
  intros Hpq. induction l as [|x l IH]; simpl; [reflexivity|].
  destruct (p x) eqn:Hp; [discriminate|].
  destruct (q x) eqn:Hq; [|exact IH].
  apply Hpq in Hq. congruence.
Qed.

Lemma locations_nil_names (es : list entity) :
  locations es = [] -> city_names es = [] /\ country_names es = [].
Proof.
  unfold locations, city_names, country_names. intros H.
  apply map_eq_nil in H.
  split; (erewrite filter_nil_weaken; [reflexivity| |exact H]);
    intros e He; apply String.eqb_eq in He; cbv beta in *; rewrite He; reflexivity.
Qed.

Lemma merged_map_no_names (w : World) (es : list entity) :
  city_names es = [] -> country_names es = [] -> merged_map w es = ∅.
Proof.
  intros Hc Hk. unfold merged_map. rewrite Hc, Hk, name_mappings_nil.
  rewrite !update_empty. reflexivity.
Qed.

Lemma fallback_locations_nil (validated : list (string * string)) (text : string) :
  locations (fallback_entities validated text) = [] -> validated = [].
Proof.
  destruct validated as [|kv validated]; [reflexivity|].
  unfold locations, fallback_entities. simpl. discriminate.
Qed.

(** A request without city or country entities has an empty country map. *)
Lemma no_location_no_country (w : World) (text : string) (timeout : Q)
    (es : list entity) (cm : gmap string string) (ty : json) :
  fst (extract_entities w text timeout) = Ok (es, cm, ty) ->
  locations es = [] -> cm = ∅.
Proof.
  destruct (has_api_key w) eqn:Hkey.
  - rewrite (extract_entities_eq _ _ _ Hkey).
    destruct (llm_entities w text) as [[es' typos]|]; cbv zeta; cbn [fst].
    + intros [= <- <- <-] Hl. apply locations_nil_names in Hl as [Hc Hk].
      now apply merged_map_no_names.
    + intros [= <- <- <-] Hl. apply fallback_locations_nil in Hl. now rewrite Hl.
  - rewrite (extract_entities_no_key _ _ _ Hkey). discriminate.
Qed.

(** C4: [_get_emergency_numbers] issues exactly one lookup for each
    distinct country code of the country map, so their number is the number
    of distinct codes; and these are the lookups [enrich] issues for the
    entities and country map of a request. *)
Theorem one_lookup_per_country_code :
  (forall (w : World) (cities : list string) (country_map : gmap string string)
          (timeout : Q),
     exists codes,
       snd (_get_emergency_numbers w cities country_map timeout)
         = map (fun c => EmergencyCall c timeout) codes /\
       NoDup codes /\
       (forall c, In c codes <-> exists k, country_map !! k = Some c) /\
       length (snd (_get_emergency_numbers w cities country_map timeout))
         = size (map_img country_map : gset string)) /\
  (forall (w : World) (text : string) (timeout timeout' : Q) (es : list entity)
          (country_map : gmap string string) (ty : json),
     fst (extract_entities w text timeout) = Ok (es, country_map, ty) ->
     snd (enrich w es country_map timeout')
       = snd (_get_emergency_numbers w (locations es) country_map timeout')).
Proof.
  split.
  - intros w cities cm timeout. exists (country_codes cm).
    rewrite get_emergency_numbers_eq. cbn [snd].
    destruct (country_codes_spec cm) as (Hnd & Hin & Hlen).
    repeat split; try assumption; try apply Hin.
    unfold emergency_calls. now rewrite length_map.
  - intros w text timeout timeout' es cm ty H.
    rewrite enrich_eq, get_emergency_numbers_eq. cbn [snd].
    destruct (locations es) as [|l ls] eqn:Hl; [|reflexivity].
    rewrite (no_location_no_country _ _ _ _ _ _ H Hl).
    reflexivity.
Qed.

Lemma one_lookup_per_country_code_witness :
  fst (extract_entities world_paris "We fly to Paris" 1)
    = Ok ([{| type := "city"; value := "paris" |}], {["paris" := "FR"]}, no_typos) /\
  snd (enrich world_paris [{| type := "city"; value := "paris" |}] {["paris" := "FR"]} 1)
    = [EmergencyCall "FR" 1].
Proof.
  assert (H : fst (extract_entities world_paris "We fly to Paris" 1)
              = Ok ([{| type := "city"; value := "paris" |}], {["paris" := "FR"]}, no_typos))
    by (vm_compute; reflexivity).
  split; [exact H|].
  destruct one_lookup_per_country_code as [_ Henrich].
  rewrite (Henrich _ _ _ 1%Q _ _ _ H). vm_compute. reflexivity.
Defined.

(** ** C2: a failing call is absorbed *)

Lemma geocoded_map_snoc (w : World) (names : list string) (x : string) :
  geocoded_map w (names ++ [x])
  = match geo_hit_of w (length names) x with
    | Some hit => <[Py.lower x := country_code hit]> (geocoded_map w names)
    | None => geocoded_map w names
    end.
Proof.
  unfold geocoded_map. rewrite imap_app.
  rewrite zip_with_app by (now rewrite length_imap).
  rewrite foldl_app. simpl. rewrite Nat.add_0_r.
  destruct (geo_hit_of w (length names) x); reflexivity.
Qed.

(** The entry of a key is the code of the last task for that key whose
    reply was accepted. *)
Lemma geocoded_map_lookup (w : World) (names : list string) (k c : string) :
  geocoded_map w names !! k = Some c <->
  exists i n,
    names !! i = Some n /\ Py.lower n = k /\ geo_code w i n = Some c /\
    forall j n', (i < j)%nat -> names !! j = Some n' -> Py.lower n' = k ->
                 geo_code w j n' = None.
Proof.
  induction names as [|x names IH] using rev_ind.
  - unfold geocoded_map. simpl. rewrite lookup_empty. split; [discriminate|].
    intros (i & n & H & _). rewrite lookup_nil in H. discriminate.
  - rewrite geocoded_map_snoc. split.
    + intros H.
      assert (Hold : geocoded_map w names !! k = Some c ->
                     (Py.lower x = k -> geo_code w (length names) x = None) ->
                     exists i n,
                       ((names ++ [x])%list) !! i = Some n /\ Py.lower n = k /\
                       geo_code w i n = Some c /\
                       forall j n', (i < j)%nat -> ((names ++ [x])%list) !! j = Some n' ->
                                    Py.lower n' = k -> geo_code w j n' = None).
      { intros Hl Hx. apply IH in Hl as (i & n & Hi & Hk & Hc & Hlast).
        exists i, n. split; [|split; [exact Hk|split; [exact Hc|]]].
        - apply lookup_snoc_Some. left. split; [|exact Hi].
          now apply lookup_lt_Some in Hi.
        - intros j n' Hij Hj Hk'. apply lookup_snoc_Some in Hj as [[Hlt Hj]|[-> <-]].
          + now apply (Hlast j n').
          + now apply Hx. }
      unfold geo_code in *.
      destruct (geo_hit_of w (length names) x) as [hit|] eqn:Hhit.
      * destruct (decide (Py.lower x = k)) as [<-|Hne].
        -- rewrite lookup_insert_eq in H. injection H as <-.
           exists (length names), x. repeat split.
           ++ apply lookup_snoc_Some. right. auto.
           ++ now rewrite Hhit.
           ++ intros j n' Hij Hj. apply lookup_lt_Some in Hj.
              rewrite length_app in Hj. simpl in Hj. lia.
        -- rewrite lookup_insert_ne in H by exact Hne. apply Hold; [exact H|].
           intros Hk. contradiction.
      * apply Hold; [exact H|]. intros _. reflexivity.
    + intros (i & n & Hi & Hk & Hc & Hlast).
      apply lookup_snoc_Some in Hi as [[Hlt Hi]|[-> <-]].
      * assert (Hl : geocoded_map w names !! k = Some c).
        { apply IH. exists i, n. repeat split; try assumption.
          intros j n' Hij Hj Hk'. apply (Hlast j n'); try assumption.
          apply lookup_snoc_Some. left. split; [|exact Hj].
          now apply lookup_lt_Some in Hj. }
        destruct (geo_hit_of w (length names) x) as [hit|] eqn:Hhit; [|exact Hl].
        destruct (decide (Py.lower x = k)) as [Hx|Hne].
        -- assert (Hnone : geo_code w (length names) x = None).
           { apply Hlast; [exact Hlt| |exact Hx].
             apply lookup_snoc_Some. right. auto. }
           unfold geo_code in Hnone. rewrite Hhit in Hnone. discriminate.
        -- now rewrite lookup_insert_ne.
      * unfold geo_code in Hc.
        destruct (geo_hit_of w (length names) x) as [hit|]; [|discriminate].
        simpl in Hc. injection Hc as <-. rewrite Hk. apply lookup_insert_eq.
Qed.

Lemma numbers_union_spec (w : World) (codes : list string) (x : string) :
  x ∈ numbers_union w codes <-> exists c, c ∈ codes /\ x ∈ fetched_numbers w c.
Proof.
  unfold numbers_union.
  assert (H : forall (acc : gset string),
            x ∈ foldl (fun (acc : gset string) (result : Res (list string)) =>
                         match result with
                         | Ok numbers => acc ∪ list_to_set numbers
                         | Raise _ => acc
                         end)
                      acc (map (fun c => Ok (fetched_numbers w c)) codes)
            <-> x ∈ acc \/ exists c, c ∈ codes /\ x ∈ fetched_numbers w c).
  { induction codes as [|c codes IH]; intros acc; simpl.
    - split; [auto|]. intros [H|(c & Hc & _)]; [exact H|].
      now apply elem_of_nil in Hc.
    - rewrite IH, elem_of_union, elem_of_list_to_set. split.
      + intros [[H|H]|(c' & Hc' & Hx)]; [now left| |].
        * right. exists c. split; [apply elem_of_cons; now left|exact H].
        * right. exists c'. split; [apply elem_of_cons; now right|exact Hx].
      + intros [H|(c' & Hc' & Hx)]; [now left; left|].
        apply elem_of_cons in Hc' as [->|Hc']; [left; now right|].
        right. exists c'. auto. }
  rewrite H. rewrite elem_of_empty. split; [intros [[]|H']; exact H'|auto].
Qed.

Lemma emergency_numbers_of_spec (w : World) (country_map : gmap string string) (x : string) :
  In x (default [] (emergency_numbers_of w country_map)) <->
  exists c k, country_map !! k = Some c /\ In x (fetched_numbers w c).
Proof.
  unfold emergency_numbers_of. cbv zeta.
  assert (Hset : x ∈ numbers_union w (country_codes country_map) <->
                 exists c k, country_map !! k = Some c /\ In x (fetched_numbers w c)).
  { rewrite numbers_union_spec. split.
    - intros (c & Hc & Hx). apply list_elem_of_In in Hc, Hx.
      apply (proj1 (proj2 (country_codes_spec country_map))) in Hc as [k Hk]. eauto.
    - intros (c & k & Hk & Hx). exists c. split; apply list_elem_of_In; [|exact Hx].
      apply (proj1 (proj2 (country_codes_spec country_map))). eauto. }
  destruct (bool_decide _) eqn:Hd; simpl.
  - rewrite <- Hset, <- list_elem_of_In. apply elem_of_elements.
  - apply bool_decide_eq_false in Hd. apply dec_stable in Hd.
    rewrite <- Hset, Hd. rewrite elem_of_empty. tauto.
Qed.

Lemma fetched_failed (w : World) (c : string) :
  emergency_get w c = HttpFailed -> fetched_numbers w c = [].
Proof. unfold fetched_numbers. now intros ->. Qed.

(** *** The request as a whole *)

(** The world [w] with other geocoder and emergency-number replies. *)
Definition with_apis (w : World) (geocoder : nat -> string -> http_reply)
    (emergency : string -> http_reply) : World :=
  {| OPENAI_API_KEY := OPENAI_API_KEY w;
     HTTP_TIMEOUT_SECONDS := HTTP_TIMEOUT_SECONDS w;
     json_loads := json_loads w;
     llm_post := llm_post w;
     geocoder_get := geocoder;
     emergency_get := emergency |}.

(** The typos [extract_entities] returns; they come from the LLM alone. *)
Definition typos_of (w : World) (text : string) : json :=
  match llm_entities w text with
  | Some (_, typos) => typos
  | None => no_typos
  end.

Definition valid_optional_str (v : json) : Prop := v = JNull \/ exists s, v = JStr s.

Definition typo_keys : list string :=
  ["city_typo"; "country_typo"; "phone_number_typo"; "zip_code_typo"].

(** The typos are a dict that gives each typo field a string or null, and
    that does not carry the emergency numbers. *)
Definition typos_valid (typos : json) : Prop :=
  exists fields,
    typos = JObj fields /\
    forall k v, In (k, v) fields ->
                k <> "local_emergency_numbers" /\ (In k typo_keys -> valid_optional_str v).

(** The contact the LLM or the fallback extracted passes [Contact]. *)
Definition contact_valid (w : World) (text : string) : Prop :=
  exists contact_data,
    fst (extract_contact w text) = Ok contact_data /\
    (any_contact_value contact_data = true -> is_ok (new_Contact contact_data) = true).

Lemma bind_is_ok {A B : Type} (m : M A) (f : A -> M B) (a : A) :
  fst m = Ok a -> is_ok (fst (f a)) = true -> is_ok (fst (m ≫= f)) = true.
Proof.
  destruct m as [[a'|e] t]; simpl; [|discriminate]. intros [= ->]. munfold.
  now destruct (f a).
Qed.

Lemma try_except_is_ok {A : Type} (body : M A) (handler : exn -> M A) :
  is_ok (fst body) = true -> is_ok (fst (try_except body handler)) = true.
Proof. destruct body as [[a|e] t]; simpl; [auto|discriminate]. Qed.

Lemma assoc_In (k : string) (fields : list (string * json)) (v : json) :
  J.assoc k fields = Some v -> In (k, v) fields.
Proof.
  induction fields as [|[k' v'] fields IH]; simpl; [discriminate|].
  destruct (String.eqb k k') eqn:Hk.
  - apply String.eqb_eq in Hk. intros [= ->]. left. now subst.
  - intros H. right. now apply IH.
Qed.

Lemma assoc_dict_set (d : list (string * json)) (k k' : string) (v' : json) :
  J.assoc k (dict_set d k' v') = if String.eqb k k' then Some v' else J.assoc k d.
Proof.
  induction d as [|[k0 v0] d IH]; simpl.
  - reflexivity.
  - destruct (String.eqb k' k0) eqn:H0; simpl.
    + apply String.eqb_eq in H0. subst k0. now destruct (String.eqb k k').
    + rewrite IH. destruct (String.eqb k k') eqn:Hk; [|reflexivity].
      apply String.eqb_eq in Hk. subst k'. now rewrite H0.
Qed.

(** After [d.update(kvs)] a key holds a value of [kvs] or its old value. *)
Lemma assoc_set_all (kvs d : list (string * json)) (k : string) :
  (exists v, J.assoc k (set_all d kvs) = Some v /\ In (k, v) kvs) \/
  J.assoc k (set_all d kvs) = J.assoc k d.
Proof.
  unfold set_all. revert d. induction kvs as [|[k' v'] kvs IH]; intros d; simpl.
  - now right.
  - destruct (IH (dict_set d k' v')) as [(v & Hv & Hin)|Heq].
    + left. exists v. auto.
    + rewrite Heq, assoc_dict_set. destruct (String.eqb k k') eqn:Hk.
      * apply String.eqb_eq in Hk. subst k'. left. exists v'. auto.
      * now right.
Qed.

Lemma field_after_update (fields : list (string * json)) (numbers : json) (k : string) :
  (forall k v, In (k, v) fields ->
               k <> "local_emergency_numbers" /\ (In k typo_keys -> valid_optional_str v)) ->
  (k = "local_emergency_numbers" ->
   field (set_all [("local_emergency_numbers", numbers)] fields) k = numbers) /\
  (In k typo_keys ->
   valid_optional_str (field (set_all [("local_emergency_numbers", numbers)] fields) k)).
Proof.
  intros Hvalid. unfold field.
  destruct (assoc_set_all fields [("local_emergency_numbers", numbers)] k)
    as [(v & Hv & Hin)|Heq].
  - rewrite Hv. destruct (Hvalid _ _ Hin) as [Hne Hok]. split; [contradiction|exact Hok].
  - rewrite Heq. simpl. split.
    + intros ->. reflexivity.
    + intros Hk. destruct (String.eqb k "local_emergency_numbers") eqn:E.
      * apply String.eqb_eq in E. subst k. simpl in Hk.
        repeat (destruct Hk as [Hk|Hk]; [discriminate|]). contradiction.
      * now left.
Qed.

Lemma optional_str_ok (name : string) (v : json) :
  valid_optional_str v -> is_ok (optional_str name v) = true.
Proof. intros [->|[s ->]]; reflexivity. Qed.

Lemma list_str_ok (name : string) (numbers : list string) :
  list_str name (map JStr numbers) = Ok numbers.
Proof.
  induction numbers as [|n numbers IH]; simpl; [reflexivity|]. now rewrite IH.
Qed.

Lemma numbers_json_ok (name : string) (o : option (list string)) :
  is_ok (optional_list_str name (numbers_json o)) = true.
Proof. destruct o as [numbers|]; simpl; [|reflexivity]. now rewrite list_str_ok. Qed.

Lemma new_Enrichment_ok (d : list (string * json)) :
  is_ok (optional_list_str "local_emergency_numbers" (field d "local_emergency_numbers"))
    = true ->
  (forall k, In k typo_keys -> valid_optional_str (field d k)) ->
  is_ok (new_Enrichment d) = true.
Proof.
  intros Hn Ht. unfold new_Enrichment. munfold.
  destruct (optional_list_str _ _); [|discriminate].
  pose proof (optional_str_ok "city_typo" _ (Ht "city_typo" ltac:(simpl; auto))) as H1.
  pose proof (optional_str_ok "country_typo" _ (Ht "country_typo" ltac:(simpl; auto))) as H2.
  pose proof (optional_str_ok "phone_number_typo" _
                (Ht "phone_number_typo" ltac:(simpl; auto))) as H3.
  pose proof (optional_str_ok "zip_code_typo" _ (Ht "zip_code_typo" ltac:(simpl; auto))) as H4.
  destruct (optional_str "city_typo" _); [|discriminate].
  destruct (optional_str "country_typo" _); [|discriminate].
  destruct (optional_str "phone_number_typo" _); [|discriminate].
  destruct (optional_str "zip_code_typo" _); [|discriminate].
  reflexivity.
Qed.

Lemma new_Entities_ok (es : list entity) :
  Forall entity_ok es -> is_ok (new_Entities es) = true.
Proof.
  induction 1 as [|e es [_ Hty] _ IH]; simpl; [reflexivity|]. munfold.
  unfold new_Entity. apply mem_In in Hty. unfold entity_types. rewrite Hty.
  now destruct (new_Entities es).
Qed.

Lemma extracted_entities_ok (w : World) (text : string) (timeout : Q)
    (es : list entity) (cm : gmap string string) (ty : json) :
  fst (extract_entities w text timeout) = Ok (es, cm, ty) -> Forall entity_ok es.
Proof.
  intros H. apply Forall_forall. intros e Hin.
  apply extract_entities_cases in H as [(c & parsed & _ & _ & H)|H].
  - apply entities_of_reply_inv in H as ((items & ->) & _).
    apply list_elem_of_omap in Hin as (item & _ & Hv).
    apply (validate_entity_ok _ _ Hv).
  - rewrite fallback_extract_entities_eq in H. cbv zeta in H. simpl in H.
    injection H as <- _ _. apply list_elem_of_In in Hin.
    apply (fallback_entities_ok _ _ _ Hin).
Qed.

Lemma categorize_ok (w : World) (text : string) :
  has_api_key w = true ->
  exists c, fst (categorize w text) = Ok c /\ In c categories.
Proof.
  intros Hkey. unfold categorize. rewrite Hkey. cbn [negb]. unfold try_except. munfold.
  destruct (llm_content w Categorize text) as [[content|e] t].
  - destruct (Py.mem (Py.lower content) categories) eqn:Hm; cbn [fst].
    + eexists. split; [reflexivity|]. now apply mem_In.
    + eexists. split; [reflexivity|]. unfold categories. simpl. auto.
  - eexists. split; [reflexivity|]. apply fallback_categorize_in.
Qed.

#[global] Arguments extract_contact : simpl never.
#[global] Arguments extract_entities : simpl never.
#[global] Arguments categorize : simpl never.
#[global] Arguments enrich : simpl never.
#[global] Arguments new_Contact : simpl never.
#[global] Arguments new_Enrichment : simpl never.
#[global] Arguments new_Entities : simpl never.
#[global] Arguments any_value : simpl never.
#[global] Arguments any_contact_value : simpl never.

(** With the API key set, a valid contact and valid typos, the request
    succeeds whatever the geocoder and the emergency-number API answer. *)
Lemma request_succeeds (w : World) (request : NormalizeIn.t)
    (geocoder : nat -> string -> http_reply) (emergency : string -> http_reply) :
  has_api_key w = true ->
  contact_valid w (NormalizeIn.text request) ->
  typos_valid (typos_of w (NormalizeIn.text request)) ->
  is_ok (fst (normalize_message (with_apis w geocoder emergency) request)) = true.
Proof.
  intros Hkey (cd & Hcd & Hcontact) (fields & Hty & Hfields).
  unfold normalize_message. cbv zeta. apply try_except_is_ok.
  set (w' := with_apis w geocoder emergency).
  set (text := NormalizeIn.text request) in *.
  assert (Hkey' : has_api_key w' = true) by exact Hkey.
  eapply bind_is_ok; [exact Hcd|].
  eapply (bind_is_ok _ _ (if any_contact_value cd
                          then match new_Contact cd with Ok c => Some c | Raise _ => None end
                          else None)).
  { destruct (any_contact_value cd); [|reflexivity].
    specialize (Hcontact eq_refl). munfold.
    destruct (new_Contact cd); [reflexivity|discriminate]. }
  destruct (fst (extract_entities w' text (HTTP_TIMEOUT_SECONDS w')))
    as [[[es cm] ty]|e0] eqn:Hext.
  2:{ rewrite (extract_entities_eq _ _ _ Hkey') in Hext.
      destruct (llm_entities w' text) as [[? ?]|]; discriminate. }
  assert (Htypos : ty = JObj fields).
  { rewrite <- Hty. unfold typos_of. change (llm_entities w text) with (llm_entities w' text).
    rewrite (extract_entities_eq _ _ _ Hkey') in Hext.
    destruct (llm_entities w' text) as [[? ?]|]; cbv zeta in Hext; cbn [fst] in Hext;
      now injection Hext as _ _ <-. }
  pose proof (extracted_entities_ok _ _ _ _ _ _ Hext) as Hes.
  eapply bind_is_ok; [exact Hext|]. cbv beta iota.
  eapply (bind_is_ok _ _ (match es with
                          | [] => None
                          | _ => match new_Entities es with
                                 | Ok l => Some l
                                 | Raise _ => None
                                 end
                          end)).
  { destruct es as [|e1 es']; [reflexivity|].
    pose proof (new_Entities_ok _ Hes) as Hok. munfold.
    destruct (new_Entities (e1 :: es')); [reflexivity|discriminate]. }
  destruct (categorize_ok w' text Hkey') as (category & Hcat & Hin).
  eapply bind_is_ok; [exact Hcat|].
  rewrite enrich_eq.
  set (numbers := match locations es with
                  | [] => JNull
                  | _ => numbers_json (emergency_numbers_of w' cm)
                  end).
  eapply (bind_is_ok _ _ [("local_emergency_numbers", numbers)]).
  { subst numbers. now destruct (locations es). }
  subst ty.
  eapply (bind_is_ok _ _ (set_all [("local_emergency_numbers", numbers)] fields, []));
    [reflexivity|].
  assert (Henr : is_ok (new_Enrichment (set_all [("local_emergency_numbers", numbers)] fields))
                 = true).
  { apply new_Enrichment_ok.
    - rewrite (proj1 (field_after_update fields numbers _ Hfields) eq_refl).
      subst numbers. destruct (locations es); [reflexivity|apply numbers_json_ok].
    - intros k Hk. now apply (field_after_update fields numbers k Hfields). }
  cbn [fst snd any_other_value map existsb]. rewrite orb_false_r.
  unfold new_Enrichment_of. cbn [fst snd].
  eapply (bind_is_ok _ _
            (if any_value (set_all [("local_emergency_numbers", numbers)] fields)
             then match new_Enrichment (set_all [("local_emergency_numbers", numbers)] fields)
                  with Ok x => Some x | Raise _ => None end
             else None)).
  { destruct (any_value _); [|reflexivity]. munfold.
    destruct (new_Enrichment _); [reflexivity|discriminate]. }
  rewrite fst_lift. unfold new_NormalizeOut. apply mem_In in Hin. now rewrite Hin.
Qed.

(** The [i]-th geocoding task, for the city [n], yields the country code [c]. *)
Definition task_code (w : World) (i : nat) (n : string) (timeout : Q) (c : string) : Prop :=
  exists hit, fst (_geocode_city w i n timeout) = Ok (Some hit) /\ country_code hit = c.

(** The [i]-th geocoding task yields nothing: the call failed or the place
    was not accepted. *)
Definition task_empty (w : World) (i : nat) (n : string) (timeout : Q) : Prop :=
  fst (_geocode_city w i n timeout) = Ok None.

Lemma task_code_iff (w : World) (i : nat) (n : string) (timeout : Q) (c : string) :
  task_code w i n timeout c <-> geo_code w i n = Some c.
Proof.
  unfold task_code, geo_code. rewrite geocode_city_eq. cbn [fst]. split.
  - intros (hit & [= ->] & <-). reflexivity.
  - destruct (geo_hit_of w i n) as [hit|]; [|discriminate].
    intros [= <-]. eauto.
Qed.

Lemma task_empty_iff (w : World) (i : nat) (n : string) (timeout : Q) :
  task_empty w i n timeout <-> geo_code w i n = None.
Proof.
  unfold task_empty, geo_code. rewrite geocode_city_eq. cbn [fst].
  destruct (geo_hit_of w i n); simpl; split; congruence.
Qed.

Lemma dict_set_In {V : Type} (d : list (string * V)) (k : string) (v : V) (a : string) (b : V) :
  In (a, b) (dict_set d k v) -> (a, b) = (k, v) \/ In (a, b) d.
Proof.
  induction d as [|[k' v'] d IH]; simpl.
  - intros [H|[]]. now left.
  - destruct (String.eqb k k'); simpl.
    + intros [H|H]; [now left|right; now right].
    + intros [H|H]; [right; now left|]. apply IH in H as [H|H]; [now left|right; now right].
Qed.

Lemma new_Entities_map (es : list entity) (l : list Entity.t) :
  new_Entities es = Ok l ->
  l = map (fun e => {| Entity.type := type e; Entity.value := value e |}) es.
Proof.
  revert l. induction es as [|e es IH]; intros l.
  - now intros [= <-].
  - change (new_Entities (e :: es))
      with (x ← new_Entity e; xs ← new_Entities es; mret (x :: xs)). munfold. unfold new_Entity. destruct (Py.mem (type e) entity_types); [|discriminate].
    destruct (new_Entities es) as [l'|]; [|discriminate].
    intros [= ?]; subst l. now rewrite (IH l' eq_refl).
Qed.

(** *** The gatherer of the regex fallback *)

Lemma dict_set_key {V : Type} (d : list (string * V)) (k : string) (v : V) :
  In (k, v) (dict_set d k v).
Proof.
  induction d as [|[k' v'] d IH]; simpl; [now left|].
  destruct (String.eqb k k'); [now left|now right].
Qed.

Lemma dict_set_keeps {V : Type} (d : list (string * V)) (k : string) (v : V)
    (a : string) (b : V) :
  In (a, b) d -> exists b', In (a, b') (dict_set d k v).
Proof.
  induction d as [|[k' v'] d IH]; simpl; [intros []|].
  destruct (String.eqb k k') eqn:Hk.
  - apply String.eqb_eq in Hk. subst k'.
    intros [[= <- <-]|H]; [exists v; now left|exists b; now right].
  - intros [[= <- <-]|H]; [exists v'; now left|].
    destruct (IH H) as (b' & Hb). exists b'. now right.
Qed.

(** One step of the loop over the gathered results. *)
Definition validated_step (validated : list (string * string))
    (result : Res (option geo_hit)) : list (string * string) :=
  match result with
  | Ok (Some hit) => dict_set validated (city hit) (country_code hit)
  | _ => validated
  end.

Lemma validated_fold_spec (results : list (Res (option geo_hit))) :
  forall acc : list (string * string),
    (forall k c, In (k, c) (foldl validated_step acc results) ->
                 In (k, c) acc \/
                 exists i hit, results !! i = Some (Ok (Some hit)) /\
                               city hit = k /\ country_code hit = c) /\
    (forall i hit, results !! i = Some (Ok (Some hit)) ->
                   exists c, In (city hit, c) (foldl validated_step acc results)) /\
    (forall k c, In (k, c) acc -> exists c', In (k, c') (foldl validated_step acc results)).
Proof.
  induction results as [|r rs IH]; intros acc.
  - repeat split; [now left| |eauto]. intros i hit H. discriminate.
  - destruct (IH (validated_step acc r)) as (IH1 & IH2 & IH3). cbn [foldl]. repeat split.
    + intros k c H. apply IH1 in H as [H|(i & hit & Hi & Hk & Hc)].
      * destruct r as [[hit|]|e]; cbn [validated_step] in H; try (now left).
        apply dict_set_In in H as [[= -> ->]|H]; [|now left].
        right. exists 0%nat, hit. auto.
      * right. exists (S i), hit. auto.
    + intros [|i] hit H.
      * injection H as ->. apply (IH3 (city hit) (country_code hit)).
        apply dict_set_key.
      * apply (IH2 i hit H).
    + intros k c H.
      assert (exists c', In (k, c') (validated_step acc r)) as (c' & Hc').
      { destruct r as [[hit|]|e]; cbn [validated_step]; eauto using dict_set_keeps. }
      apply (IH3 k c' Hc').
Qed.

(** What [_validate_cities_fallback] keeps: every entry is the city and
    the code of a place some task accepted, and the city of every accepted
    place has an entry, whatever the other tasks met. *)
Lemma validated_cities_spec (w : World) (candidates : gset string) :
  (forall k c,
     In (k, c) (validated_cities w candidates) ->
     exists i n hit, elements candidates !! i = Some n /\
                     geo_hit_of w i n = Some hit /\ city hit = k /\ country_code hit = c) /\
  (forall i n hit,
     elements candidates !! i = Some n -> geo_hit_of w i n = Some hit ->
     exists c, In (city hit, c) (validated_cities w candidates)).
Proof.
  unfold validated_cities.
  destruct (validated_fold_spec
              (imap (fun i n => Ok (geo_hit_of w i n)) (elements candidates)) [])
    as (H1 & H2 & _).
  split.
  - intros k c H. apply H1 in H as [[]|(i & hit & Hi & Hk & Hc)].
    rewrite list_lookup_imap in Hi.
    destruct (elements candidates !! i) as [n|] eqn:Hn; [|discriminate].
    injection Hi as Hi. eauto 8.
  - intros i n hit Hn Hh. apply (H2 i hit).
    rewrite list_lookup_imap, Hn. cbn. now rewrite Hh.
Qed.

Lemma fallback_map_key (validated : list (string * string)) (k c : string) :
  In (k, c) validated -> is_Some (fallback_map validated !! Py.lower k).
Proof.
  unfold fallback_map.
  assert (H : forall acc : gmap string string,
            In (k, c) validated \/ is_Some (acc !! Py.lower k) ->
            is_Some (foldl (fun (m : gmap string string) kv => <[Py.lower kv.1 := kv.2]> m)
                           acc validated !! Py.lower k)).
  { induction validated as [|[a b] l IH]; intros acc; cbn [foldl].
    - intros [[]|H]. exact H.
    - intros [[[= -> ->]|H]|H]; apply IH.
      + right. cbn. rewrite lookup_insert_eq. eauto.
      + now left.
      + right. cbn. destruct (decide (Py.lower a = Py.lower k)) as [->|Hne].
        * rewrite lookup_insert_eq. eauto.
        * now rewrite lookup_insert_ne. }
  intros Hin. apply H. now left.
Qed.

(** *** The response of a request *)

Lemma fst_bind {A B : Type} (m : M A) (f : A -> M B) (a : A) :
  fst m = Ok a -> fst (m ≫= f) = fst (f a).
Proof.
  destruct m as [[a'|e] t]; simpl; [|discriminate]. intros [= ->]. munfold.
  now destruct (f a).
Qed.

Lemma try_except_fst_ok {A : Type} (body : M A) (handler : exn -> M A) (a : A) :
  fst body = Ok a -> fst (try_except body handler) = Ok a.
Proof. destruct body as [[x|e] t]; simpl; [auto|discriminate]. Qed.

Lemma emergency_numbers_nonempty (w : World) (country_map : gmap string string)
    (numbers : list string) :
  emergency_numbers_of w country_map = Some numbers -> numbers <> [].
Proof.
  unfold emergency_numbers_of. cbv zeta.
  destruct (bool_decide _) eqn:Hd; [|discriminate].
  apply bool_decide_eq_true in Hd. intros [= <-] He. apply Hd.
  apply leibniz_equiv. now apply elements_empty_inv.
Qed.

Lemma any_value_field (d : list (string * json)) (k : string) :
  J.truthy (field d k) = true -> any_value d = true.
Proof.
  unfold field, any_value. destruct (J.assoc k d) as [v|] eqn:Hk; [|discriminate].
  intros Hv. apply assoc_In in Hk. apply existsb_exists. exists v. split; [|exact Hv].
  apply in_map_iff. now exists (k, v).
Qed.

Lemma new_Enrichment_numbers (d : list (string * json)) (x : Enrichment.t) :
  new_Enrichment d = Ok x ->
  optional_list_str "local_emergency_numbers" (field d "local_emergency_numbers")
  = Ok (Enrichment.local_emergency_numbers x).
Proof.
  unfold new_Enrichment. munfold.
  destruct (optional_list_str _ _) as [l|]; [|discriminate].
  destruct (optional_str "city_typo" _); [|discriminate].
  destruct (optional_str "country_typo" _); [|discriminate].
  destruct (optional_str "phone_number_typo" _); [|discriminate].
  destruct (optional_str "zip_code_typo" _); [|discriminate].
  now intros [= <-].
Qed.

Definition Entity_of (e : entity) : Entity.t :=
  {| Entity.type := type e; Entity.value := value e |}.

(** With the API key set, a valid contact and valid typos, the request
    succeeds whatever the geocoder and the emergency-number API answer, and
    the response holds what the calls that did answer gave: the entities
    extracted, and the emergency numbers gathered for the country map. *)
Lemma request_response (w : World) (request : NormalizeIn.t)
    (geocoder : nat -> string -> http_reply) (emergency : string -> http_reply) :
  has_api_key w = true ->
  contact_valid w (NormalizeIn.text request) ->
  typos_valid (typos_of w (NormalizeIn.text request)) ->
  let w' := with_apis w geocoder emergency in
  let text := NormalizeIn.text request in
  let timeout := HTTP_TIMEOUT_SECONDS w' in
  exists response es cm ty,
    fst (normalize_message w' request) = Ok response /\
    fst (extract_entities w' text timeout) = Ok (es, cm, ty) /\
    NormalizeOut.entities response
      = match es with [] => None | _ => Some (map Entity_of es) end /\
    forall numbers,
      locations es <> [] ->
      fst (_get_emergency_numbers w' (locations es) cm timeout) = Ok (Some numbers) ->
      exists enrichment,
        NormalizeOut.enrichment response = Some enrichment /\
        Enrichment.local_emergency_numbers enrichment = Some numbers.
Proof.
  intros Hkey (cd & Hcd & Hcontact) (fields & Hty & Hfields) w' text timeout.
  fold text in Hcd, Hty.
  assert (Hkey' : has_api_key w' = true) by exact Hkey.
  destruct (fst (extract_entities w' text timeout)) as [[[es cm] ty]|e0] eqn:Hext.
  2:{ unfold timeout in Hext. rewrite (extract_entities_eq _ _ _ Hkey') in Hext.
      destruct (llm_entities w' text) as [[? ?]|]; discriminate. }
  assert (Htypos : ty = JObj fields).
  { rewrite <- Hty. unfold typos_of. change (llm_entities w text) with (llm_entities w' text).
    unfold timeout in Hext. rewrite (extract_entities_eq _ _ _ Hkey') in Hext.
    destruct (llm_entities w' text) as [[? ?]|]; cbv zeta in Hext; cbn [fst] in Hext;
      now injection Hext as _ _ <-. }
  subst ty.
  pose proof (extracted_entities_ok _ _ _ _ _ _ Hext) as Hes.
  destruct (categorize_ok w' text Hkey') as (category & Hcat & Hin).
  set (contact := if any_contact_value cd
                  then match new_Contact cd with Ok c => Some c | Raise _ => None end
                  else None).
  set (entities := match es with
                   | [] => None
                   | _ => match new_Entities es with Ok l => Some l | Raise _ => None end
                   end).
  set (numbers := match locations es with
                  | [] => JNull
                  | _ => numbers_json (emergency_numbers_of w' cm)
                  end).
  set (d := set_all [("local_emergency_numbers", numbers)] fields).
  set (enrichment := if any_value d
                     then match new_Enrichment d with Ok x => Some x | Raise _ => None end
                     else None).
  assert (Hfield : field d "local_emergency_numbers" = numbers).
  { apply (field_after_update fields numbers _ Hfields). reflexivity. }
  assert (Henr : is_ok (new_Enrichment d) = true).
  { apply new_Enrichment_ok.
    - rewrite Hfield. subst numbers.
      destruct (locations es); [reflexivity|apply numbers_json_ok].
    - intros k Hk. now apply (field_after_update fields numbers k Hfields). }
  exists {| NormalizeOut.message_id := NormalizeIn.message_id request;
            NormalizeOut.category := category;
            NormalizeOut.contact := contact;
            NormalizeOut.entities := entities;
            NormalizeOut.enrichment := enrichment |}, es, cm, (JObj fields).
  split; [|split; [reflexivity|split]].
  - unfold normalize_message. cbv zeta. apply try_except_fst_ok.
    fold w' text. rewrite (fst_bind _ _ cd Hcd).
    rewrite (fst_bind _ _ contact).
    2:{ subst contact. destruct (any_contact_value cd); [|reflexivity].
        specialize (Hcontact eq_refl). munfold.
        destruct (new_Contact cd); [reflexivity|discriminate]. }
    fold timeout. rewrite (fst_bind _ _ _ Hext). cbv beta iota.
    rewrite (fst_bind _ _ entities).
    2:{ subst entities. destruct es as [|e1 es']; [reflexivity|].
        pose proof (new_Entities_ok _ Hes) as Hok. munfold.
        destruct (new_Entities (e1 :: es')); [reflexivity|discriminate]. }
    rewrite (fst_bind _ _ _ Hcat).
    rewrite (fst_bind _ _ [("local_emergency_numbers", numbers)]).
    2:{ rewrite enrich_eq. subst numbers. now destruct (locations es). }
    rewrite (fst_bind _ _ (d, [])) by reflexivity.
    cbn [fst snd any_other_value map existsb]. rewrite orb_false_r.
    unfold new_Enrichment_of. cbn [fst snd].
    rewrite (fst_bind _ _ enrichment).
    2:{ subst enrichment. destruct (any_value d); [|reflexivity]. munfold.
        destruct (new_Enrichment d); [reflexivity|discriminate]. }
    rewrite fst_lift. unfold new_NormalizeOut. apply mem_In in Hin. now rewrite Hin.
  - cbn [NormalizeOut.entities]. subst entities. destruct es as [|e1 es']; [reflexivity|].
    pose proof (new_Entities_ok _ Hes) as Hok.
    destruct (new_Entities (e1 :: es')) as [l|] eqn:Hl; [|discriminate].
    now rewrite (new_Entities_map _ _ Hl).
  - intros l Hloc Hl. cbn [NormalizeOut.enrichment].
    rewrite get_emergency_numbers_eq in Hl. cbn [fst] in Hl. injection Hl as Hl.
    assert (Hnum : numbers = JArr (map JStr l)).
    { subst numbers. destruct (locations es); [contradiction|]. now rewrite Hl. }
    assert (Hany : any_value d = true).
    { apply (any_value_field d "local_emergency_numbers"). rewrite Hfield, Hnum.
      apply emergency_numbers_nonempty in Hl. destruct l; [contradiction|reflexivity]. }
    subst enrichment. rewrite Hany.
    destruct (new_Enrichment d) as [x|] eqn:Hx; [|discriminate].
    exists x. split; [reflexivity|].
    apply new_Enrichment_numbers in Hx. rewrite Hfield, Hnum in Hx.
    cbn [optional_list_str] in Hx. rewrite list_str_ok in Hx.
    munfold. now injection Hx as <-.
Qed.

(** C2: a geocoding or emergency-number call that fails yields nothing and
    raises nothing, and what the other calls gave is kept.  The country map
    of [_get_country_codes] holds, for every key, the code of the last task
    for it that yielded one.  The dict of [_validate_cities_fallback] holds
    the city of every place a task accepted, and nothing else; the regex
    fallback turns each into a city entity and an entry of the country map.
    The emergency numbers are those fetched for the codes of the country
    map.  A request whose LLM-derived data are valid succeeds whatever the
    two services do, and its response holds the extracted entities and the
    numbers the answering calls gave. *)
Theorem failing_calls_are_absorbed :
  (forall (w : World) (names : list string) (timeout : Q),
     exists country_map,
       fst (_get_country_codes w names timeout) = Ok country_map /\
       forall k c,
         country_map !! k = Some c <->
         exists i n,
           names !! i = Some n /\ Py.lower n = k /\ task_code w i n timeout c /\
           forall j n', (i < j)%nat -> names !! j = Some n' -> Py.lower n' = k ->
                        task_empty w j n' timeout) /\
  (forall (w : World) (i : nat) (n : string) (timeout : Q),
     geocoder_get w i n = HttpFailed -> task_empty w i n timeout) /\
  (forall (w : World) (candidates : gset string) (timeout : Q),
     exists validated,
       fst (_validate_cities_fallback w candidates timeout) = Ok validated /\
       (forall k c,
          In (k, c) validated ->
          exists i n hit,
            elements candidates !! i = Some n /\
            fst (_geocode_city w i n timeout) = Ok (Some hit) /\
            city hit = k /\ country_code hit = c) /\
       (forall i n hit,
          elements candidates !! i = Some n ->
          fst (_geocode_city w i n timeout) = Ok (Some hit) ->
          exists c, In (city hit, c) validated)) /\
  (forall (w : World) (text : string) (timeout : Q),
     exists es cm,
       fst (_fallback_extract_entities w text timeout) = Ok (es, cm, no_typos) /\
       forall i n hit,
         elements (_extract_city_candidates_fallback text) !! i = Some n ->
         fst (_geocode_city w i n timeout) = Ok (Some hit) ->
         In {| type := "city"; value := Py.lower (city hit) |} es /\
         is_Some (cm !! Py.lower (city hit))) /\
  (forall (w : World) (cities : list string) (country_map : gmap string string)
          (timeout : Q),
     exists numbers,
       fst (_get_emergency_numbers w cities country_map timeout) = Ok numbers /\
       forall x,
         In x (default [] numbers) <->
         exists c k fetched,
           country_map !! k = Some c /\
           fst (_fetch_emergency_numbers w c timeout) = Ok fetched /\ In x fetched) /\
  (forall (w : World) (c : string) (timeout : Q),
     emergency_get w c = HttpFailed ->
     fst (_fetch_emergency_numbers w c timeout) = Ok []) /\
  (forall (w : World) (request : NormalizeIn.t)
          (geocoder : nat -> string -> http_reply) (emergency : string -> http_reply),
     has_api_key w = true ->
     contact_valid w (NormalizeIn.text request) ->
     typos_valid (typos_of w (NormalizeIn.text request)) ->
     let w' := with_apis w geocoder emergency in
     let text := NormalizeIn.text request in
     let timeout := HTTP_TIMEOUT_SECONDS w' in
     exists response es cm ty,
       fst (normalize_message w' request) = Ok response /\
       fst (extract_entities w' text timeout) = Ok (es, cm, ty) /\
       NormalizeOut.entities response
         = match es with [] => None | _ => Some (map Entity_of es) end /\
       forall numbers,
         locations es <> [] ->
         fst (_get_emergency_numbers w' (locations es) cm timeout) = Ok (Some numbers) ->
         exists enrichment,
           NormalizeOut.enrichment response = Some enrichment /\
           Enrichment.local_emergency_numbers enrichment = Some numbers).
Proof.
  repeat apply conj.
  - intros w names timeout. exists (geocoded_map w names).
    rewrite get_country_codes_eq. split; [reflexivity|].
    intros k c. rewrite geocoded_map_lookup.
    split; intros (i & n & Hi & Hk & Hc & Hlast); exists i, n;
      (split; [exact Hi|split; [exact Hk|split;
         [apply (task_code_iff w i n timeout c); exact Hc|]]]);
      intros j n' Hij Hj Hk'; apply (task_empty_iff w j n' timeout); eapply Hlast; eauto.
  - intros w i n timeout H. apply task_empty_iff. now apply geocode_failed.
  - intros w candidates timeout. exists (validated_cities w candidates).
    rewrite validate_cities_eq. split; [reflexivity|].
    destruct (validated_cities_spec w candidates) as [H1 H2]. split.
    + intros k c H. apply H1 in H as (i & n & hit & Hn & Hh & Hk & Hc).
      exists i, n, hit. rewrite geocode_city_eq. cbn [fst]. now rewrite Hh.
    + intros i n hit Hn Hh. rewrite geocode_city_eq in Hh. cbn [fst] in Hh.
      injection Hh as Hh. apply (H2 i n hit Hn Hh).
  - intros w text timeout. rewrite fallback_extract_entities_eq. cbv zeta. cbn [fst].
    eexists _, _. split; [reflexivity|].
    intros i n hit Hn Hh. rewrite geocode_city_eq in Hh. cbn [fst] in Hh.
    injection Hh as Hh.
    destruct (validated_cities_spec w (_extract_city_candidates_fallback text)) as [_ H2].
    destruct (H2 i n hit Hn Hh) as (c & Hc). split.
    + unfold fallback_entities. apply in_or_app. left.
      apply in_map_iff. exists (city hit, c). split; [reflexivity|exact Hc].
    + apply (fallback_map_key _ _ _ Hc).
  - intros w cities cm timeout. exists (emergency_numbers_of w cm).
    rewrite get_emergency_numbers_eq. split; [reflexivity|].
    intros x. rewrite emergency_numbers_of_spec. split.
    + intros (c & k & Hk & Hx). exists c, k, (fetched_numbers w c).
      now rewrite fetch_emergency_numbers_eq.
    + intros (c & k & fetched & Hk & Hf & Hx). exists c, k. split; [exact Hk|].
      rewrite fetch_emergency_numbers_eq in Hf. now injection Hf as ->.
  - intros w c timeout H. rewrite fetch_emergency_numbers_eq. cbn [fst].
    now rewrite fetched_failed.
  - apply request_response.
Qed.

(** A reply of the geocoder: the city [name] of the country [cc]. *)
Definition place_reply (name cc : string) : http_reply :=
  HttpJson (JArr [JObj [("class", JStr "place"); ("type", JStr "city");
                        ("display_name", JStr name);
                        ("address", JObj [("country_code", JStr cc)])]]).

(** The LLM is down; the geocoder knows Paris and Rome and fails for every
    other query; the emergency-number API answers for France and fails for
    every other country. *)
Definition world_partial : World :=
  {| OPENAI_API_KEY := Some "sk-test";
     HTTP_TIMEOUT_SECONDS := 1;
     json_loads := fun _ => None;
     llm_post := fun _ _ => HttpFailed;
     geocoder_get := fun _ q =>
       if String.eqb q "Paris" then place_reply "Paris, France" "fr"
       else if String.eqb q "Rome" then place_reply "Roma, Lazio, Italia" "it"
       else HttpFailed;
     emergency_get := fun c => if String.eqb c "FR" then reply_112 else HttpFailed |}.

Definition partial_request : NormalizeIn.t :=
  {| NormalizeIn.message_id := "msg-2";
     NormalizeIn.text := "We fly to Paris, Rome and London" |}.

(** The request of [world_partial]: the geocoding call for London and the
    lookup for Italy fail; Paris and Rome are still entities of the
    response, and the numbers of France are still in it. *)
Lemma failing_calls_are_absorbed_witness :
  geocoder_get world_partial 0 "London" = HttpFailed /\
  emergency_get world_partial "IT" = HttpFailed /\
  exists response entities enrichment numbers,
    fst (normalize_message world_partial partial_request) = Ok response /\
    NormalizeOut.entities response = Some entities /\
    In {| Entity.type := "city"; Entity.value := "paris" |} entities /\
    In {| Entity.type := "city"; Entity.value := "roma" |} entities /\
    NormalizeOut.enrichment response = Some enrichment /\
    Enrichment.local_emergency_numbers enrichment = Some numbers /\
    In "112" numbers /\ In "17" numbers.
Proof.
  split; [reflexivity|]. split; [reflexivity|].
  destruct failing_calls_are_absorbed as (_ & _ & _ & _ & _ & _ & Hrequest).
  destruct (Hrequest world_partial partial_request
              (geocoder_get world_partial) (emergency_get world_partial))
    as (response & es & cm & ty & Hr & Hext & Hes & Hnum).
  - reflexivity.
  - eexists. split; [vm_compute; reflexivity|]. intros _. vm_compute. reflexivity.
  - eexists. split; [vm_compute; reflexivity|].
    intros k v Hin. simpl in Hin.
    repeat (destruct Hin as [[= <- <-]|Hin];
            [split; [discriminate|intros _; now left]|]).
    contradiction.
  - change (with_apis world_partial (geocoder_get world_partial) (emergency_get world_partial))
      with world_partial in *.
    vm_compute in Hext. injection Hext as <- <- <-.
    edestruct Hnum as (enrichment & Henr & Hl);
      [discriminate|vm_compute; reflexivity|].
    exists response. eexists. exists enrichment. eexists.
    split; [exact Hr|]. split; [exact Hes|].
    split; [cbn; auto|]. split; [cbn; auto|].
    split; [exact Henr|]. split; [exact Hl|]. split; cbn; auto.
Defined.


(** ** C3: merging the geocoder with the static table *)

(** Copying the entries of a table for a list of names. *)
Lemma table_fold_lookup (tbl : gmap string string) (names : list string) (k : string) :
  foldl (fun (result : gmap string string) city_name =>
           match tbl !! city_name with
           | Some iso => <[city_name := iso]> result
           | None => result
           end)
        ∅ names !! k
  = if bool_decide (k ∈ names) then tbl !! k else None.
Proof.
  induction names as [|x names IH] using rev_ind.
  - cbn [foldl]. rewrite lookup_empty. reflexivity.
  - rewrite foldl_app. cbn [foldl].
    destruct (decide (k = x)) as [->|Hne].
    + rewrite (bool_decide_eq_true_2 (x ∈ (names ++ [x])%list))
        by (apply elem_of_app; right; apply list_elem_of_singleton; reflexivity).
      destruct (tbl !! x) as [iso|] eqn:Hx.
      * apply lookup_insert_eq.
      * rewrite IH. now destruct (bool_decide (x ∈ names)).
    + replace (bool_decide (k ∈ (names ++ [x])%list)) with (bool_decide (k ∈ names)).
      * rewrite <- IH.
        destruct (tbl !! x); [now rewrite lookup_insert_ne|reflexivity].
      * apply bool_decide_ext. rewrite elem_of_app, list_elem_of_singleton. tauto.
Qed.

Lemma name_mappings_lookup (names : list string) (k : string) :
  _get_country_name_mappings names !! k
  = if bool_decide (k ∈ names) then mappings !! k else None.
Proof. unfold _get_country_name_mappings. apply table_fold_lookup. Qed.

Lemma geocoded_map_absent (w : World) (names : list string) (k : string) :
  k ∉ map Py.lower names -> geocoded_map w names !! k = None.
Proof.
  intros Hk. destruct (geocoded_map w names !! k) as [c|] eqn:Hl; [|reflexivity].
  apply geocoded_map_lookup in Hl as (i & n & Hi & Hn & _).
  exfalso. apply Hk. subst k. apply list_elem_of_In, in_map, list_elem_of_In.
  eapply list_elem_of_lookup_2. exact Hi.
Qed.

Lemma city_names_in (es : list entity) (e : entity) :
  In e es -> type e = "city" -> value e ∈ city_names es.
Proof.
  intros Hin Hty. unfold city_names. apply list_elem_of_In, in_map, filter_In.
  split; [exact Hin|]. rewrite Hty. reflexivity.
Qed.

Lemma country_names_in (es : list entity) (e : entity) :
  In e es -> type e = "country" -> value e ∈ country_names es.
Proof.
  intros Hin Hty. unfold country_names. apply list_elem_of_In, in_map, filter_In.
  split; [exact Hin|]. rewrite Hty. reflexivity.
Qed.

Lemma city_names_lower (es : list entity) :
  Forall entity_ok es -> map Py.lower (city_names es) = city_names es.
Proof.
  intros H. unfold city_names. rewrite map_map. apply map_ext_in.
  intros e He. apply filter_In in He as [He _].
  rewrite Forall_forall in H. apply list_elem_of_In in He. now destruct (H e He).
Qed.

(** The lookups of the merged map. *)
Lemma merged_map_lookup (w : World) (es : list entity) (k : string) :
  merged_map w es !! k
  = if bool_decide (k ∈ country_names es) && bool_decide (is_Some (mappings !! k))
    then mappings !! k
    else if bool_decide (k ∈ city_names es) && bool_decide (is_Some (mappings !! k))
    then mappings !! k
    else geocoded_map w (city_names es) !! k.
Proof.
  unfold merged_map, update.
  destruct (mappings !! k) as [iso|] eqn:Hm.
  - rewrite (bool_decide_eq_true_2 (is_Some (Some iso))) by eauto.
    rewrite !andb_true_r.
    destruct (bool_decide (k ∈ country_names es)) eqn:Hk.
    + apply lookup_union_Some_l. now rewrite name_mappings_lookup, Hk.
    + rewrite lookup_union_r by (now rewrite name_mappings_lookup, Hk).
      destruct (bool_decide (k ∈ city_names es)) eqn:Hc.
      * apply lookup_union_Some_l. now rewrite name_mappings_lookup, Hc.
      * apply lookup_union_r. now rewrite name_mappings_lookup, Hc.
  - rewrite (bool_decide_eq_false_2 (is_Some None)) by (intros [? ?]; discriminate).
    rewrite !andb_false_r.
    rewrite !lookup_union_r; [reflexivity| |];
      rewrite name_mappings_lookup, Hm; now destruct (bool_decide _).
Qed.

(** The LLM is down and the geocoder places Paris in the United States. *)
Definition world_paris_texas : World :=
  {| OPENAI_API_KEY := Some "sk-test";
     HTTP_TIMEOUT_SECONDS := 1;
     json_loads := fun _ => None;
     llm_post := fun _ _ => HttpFailed;
     geocoder_get := fun _ q =>
       if String.eqb q "Paris" then
         HttpJson (JArr [JObj [("class", JStr "place"); ("type", JStr "city");
                               ("display_name", JStr "Paris, Lamar County, Texas");
                               ("address", JObj [("country_code", JStr "us")])]])
       else HttpFailed;
     emergency_get := fun _ => HttpFailed |}.

(** The quoted text [s], as it stands in a JSON document. *)
Definition quoted (s : string) : string := dq ++ s ++ dq.

(** The LLM answers the entity prompt with [content], which [json.loads]
    decodes to [parsed]; the geocoder answers as [geocoder] says. *)
Definition world_llm (content : string) (parsed : json)
    (geocoder : string -> http_reply) : World :=
  {| OPENAI_API_KEY := Some "sk-test";
     HTTP_TIMEOUT_SECONDS := 1;
     json_loads := fun s => if String.eqb s content then Some parsed else None;
     llm_post := fun op _ =>
       match op with
       | ExtractEntities => chat_reply content
       | _ => HttpFailed
       end;
     geocoder_get := fun _ q => geocoder q;
     emergency_get := fun _ => HttpFailed |}.

Definition entity_text (ty v : string) : string :=
  "{" ++ quoted "type" ++ ": " ++ quoted ty ++ ", " ++ quoted "value" ++ ": " ++ quoted v ++ "}".

Definition entity_json (ty v : string) : json :=
  JObj [("type", JStr ty); ("value", JStr v)].

(** The LLM names the city and the country Georgia; the geocoder places
    the city in the United States. *)
Definition world_georgia : World :=
  world_llm ("[" ++ entity_text "city" "Georgia" ++ ", " ++ entity_text "country" "Georgia" ++ "]")
            (JArr [entity_json "city" "Georgia"; entity_json "country" "Georgia"])
            (fun q => if String.eqb q "georgia"
                      then place_reply "Georgia, Vermont, United States" "us"
                      else HttpFailed).

(** C3, as stated, fails twice.  On the regex fallback path the static
    table is never consulted: the city entity "paris" is in the table with
    "FR", yet the final country map gives it the geocoder's "US".  On the
    LLM path the map is keyed by name: the country entity "georgia" is not
    in the table, yet the map gives its name a code, the one the geocoder
    gave the city entity of the same name. *)
Lemma country_resolution_fails :
  (exists es cm ty,
     fst (extract_entities world_paris_texas "A week in Paris" 1) = Ok (es, cm, ty) /\
     In {| type := "city"; value := "paris" |} es /\
     mappings !! "paris" = Some "FR" /\
     cm !! "paris" = Some "US") /\
  (exists es cm ty,
     fst (extract_entities world_georgia "Georgia" 1) = Ok (es, cm, ty) /\
     In {| type := "country"; value := "georgia" |} es /\
     mappings !! "georgia" = None /\
     cm !! "georgia" = Some "US").
Proof.
  split.
  - eexists _, _, _. split; [vm_compute; reflexivity|].
    split; [now left|]. split; vm_compute; reflexivity.
  - eexists _, _, _. split; [vm_compute; reflexivity|].
    split; [right; now left|]. split; vm_compute; reflexivity.
Qed.

(** C3, amended: on the LLM path (the reply is used), the final country map
    gives every city entity found in the static table the table's code,
    whatever the geocoder said; a city absent from the table keeps the
    geocoder's entry; only the cities are geocoded, so a country entity
    found in the table gets the table's code, and for one absent from the
    table the map holds what the geocoder gave a city entity of the same
    name, that is nothing when no city entity has its name. *)
Theorem llm_path_merges_geocoder_and_table (w : World) (text : string) (timeout : Q)
    (es : list entity) (typos : json) :
  has_api_key w = true ->
  llm_entities w text = Some (es, typos) ->
  exists country_map geocoded,
    fst (extract_entities w text timeout) = Ok (es, country_map, typos) /\
    fst (_get_country_codes w (city_names es) timeout) = Ok geocoded /\
    snd (extract_entities w text timeout)
      = LLMCall ExtractEntities text LLM_TIMEOUT
          :: map (fun n => GeoCall n timeout) (city_names es) /\
    (forall e iso, In e es -> type e = "city" ->
                   mappings !! value e = Some iso -> country_map !! value e = Some iso) /\
    (forall e, In e es -> type e = "city" ->
               mappings !! value e = None ->
               country_map !! value e = geocoded !! value e) /\
    (forall e iso, In e es -> type e = "country" ->
                   mappings !! value e = Some iso -> country_map !! value e = Some iso) /\
    (forall e, In e es -> type e = "country" ->
               mappings !! value e = None ->
               country_map !! value e = geocoded !! value e /\
               (value e ∉ city_names es -> country_map !! value e = None)).
Proof.
  intros Hkey Hllm. exists (merged_map w es), (geocoded_map w (city_names es)).
  pose proof (extract_entities_eq w text timeout Hkey) as Heq.
  rewrite Hllm in Heq. rewrite Heq, get_country_codes_eq. cbn [fst snd].
  assert (Hok : Forall entity_ok es).
  { apply (extracted_entities_ok w text timeout es (merged_map w es) typos).
    now rewrite Heq. }
  assert (Habsent : forall k, mappings !! k = None ->
                              merged_map w es !! k = geocoded_map w (city_names es) !! k).
  { intros k Hm. rewrite merged_map_lookup, Hm.
    rewrite (bool_decide_eq_false_2 (is_Some None)) by (intros [? ?]; discriminate).
    now rewrite !andb_false_r. }
  split; [reflexivity|]. split; [reflexivity|]. split; [reflexivity|].
  split; [|split; [|split]].
  - intros e iso Hin Hty Hm. rewrite merged_map_lookup, Hm.
    rewrite (bool_decide_eq_true_2 (value e ∈ city_names es))
      by (now apply city_names_in).
    rewrite (bool_decide_eq_true_2 (is_Some (Some iso))) by eauto.
    now destruct (bool_decide (value e ∈ country_names es)).
  - intros e Hin Hty Hm. now apply Habsent.
  - intros e iso Hin Hty Hm. rewrite merged_map_lookup, Hm.
    rewrite (bool_decide_eq_true_2 (value e ∈ country_names es))
      by (now apply country_names_in).
    now rewrite (bool_decide_eq_true_2 (is_Some (Some iso))) by eauto.
  - intros e Hin Hty Hm. split; [now apply Habsent|].
    intros Hnc. rewrite (Habsent _ Hm). apply geocoded_map_absent.
    now rewrite (city_names_lower es Hok).
Qed.

(** The LLM names the cities Paris and Lyon and the country France; the
    geocoder places Paris in the United States and Lyon in France. *)
Definition world_merge : World :=
  world_llm ("[" ++ entity_text "city" "Paris" ++ ", " ++ entity_text "city" "Lyon" ++ ", "
                 ++ entity_text "country" "France" ++ "]")
            (JArr [entity_json "city" "Paris"; entity_json "city" "Lyon";
                   entity_json "country" "France"])
            (fun q => if String.eqb q "paris"
                      then place_reply "Paris, Lamar County, Texas" "us"
                      else if String.eqb q "lyon"
                      then place_reply "Lyon, France" "fr"
                      else HttpFailed).

Definition merge_entities : list entity :=
  [{| type := "city"; value := "paris" |}; {| type := "city"; value := "lyon" |};
   {| type := "country"; value := "france" |}].

(** The table's "FR" replaces the geocoder's "US" for Paris, Lyon keeps
    the geocoder's "FR", and France gets the table's "FR". *)
Lemma llm_path_merges_geocoder_and_table_witness :
  exists country_map geocoded,
    fst (extract_entities world_merge "Paris, Lyon, France" 1)
      = Ok (merge_entities, country_map, no_typos) /\
    fst (_get_country_codes world_merge ["paris"; "lyon"] 1) = Ok geocoded /\
    geocoded !! "paris" = Some "US" /\ country_map !! "paris" = Some "FR" /\
    mappings !! "lyon" = None /\
    geocoded !! "lyon" = Some "FR" /\ country_map !! "lyon" = Some "FR" /\
    country_map !! "france" = Some "FR".
Proof.
  destruct (llm_path_merges_geocoder_and_table world_merge "Paris, Lyon, France" 1
              merge_entities no_typos)
    as (cm & geocoded & Hext & Hgeo & _ & Hcity & Hkeep & Hcountry & _).
  - reflexivity.
  - vm_compute. reflexivity.
  - exists cm, geocoded. split; [exact Hext|]. split; [exact Hgeo|].
    assert (Hg : geocoded !! "paris" = Some "US" /\ geocoded !! "lyon" = Some "FR").
    { change (city_names merge_entities) with ["paris"; "lyon"] in Hgeo.
      rewrite get_country_codes_eq in Hgeo. injection Hgeo as <-.
      split; vm_compute; reflexivity. }
    destruct Hg as [Hparis Hlyon].
    split; [exact Hparis|]. split.
    { apply (Hcity {| type := "city"; value := "paris" |}); [now left|reflexivity|].
      vm_compute. reflexivity. }
    split; [vm_compute; reflexivity|]. split; [exact Hlyon|]. split.
    { rewrite <- Hlyon.
      apply (Hkeep {| type := "city"; value := "lyon" |});
        [right; now left|reflexivity|vm_compute; reflexivity]. }
    apply (Hcountry {| type := "country"; value := "france" |});
      [right; right; now left|reflexivity|vm_compute; reflexivity].
Defined.

(** ** C6: the calls a request issues *)

Lemma snd_bind {A B : Type} (m : M A) (f : A -> M B) :
  snd (m ≫= f)
  = (snd m ++ match fst m with Ok a => snd (f a) | Raise _ => [] end)%list.
Proof.
  destruct m as [[a|e] t]; munfold; simpl.
  - now destruct (f a).
  - now rewrite app_nil_r.
Qed.

Lemma snd_try_except_raise {A : Type} (body : M A) (e0 : exn) :
  snd (try_except body (fun _ => raise e0)) = snd body.
Proof. destruct body as [[a|e] t]; simpl; [reflexivity|now rewrite app_nil_r]. Qed.

Lemma snd_lift {A : Type} (r : Res A) : snd (lift r) = [].
Proof. reflexivity. Qed.

(** The geocoding queries of a request: the city names of the LLM path, or
    the candidates of the fallback.  They do not depend on any geocoder
    reply. *)
Definition geocode_queries (w : World) (text : string) : list string :=
  match llm_entities w text with
  | Some (es, _) => city_names es
  | None => elements (_extract_city_candidates_fallback text)
  end.

Lemma extract_entities_trace (w : World) (text : string) (timeout : Q) :
  snd (extract_entities w text timeout)
  = if has_api_key w
    then LLMCall ExtractEntities text LLM_TIMEOUT
           :: geo_calls timeout (geocode_queries w text)
    else [].
Proof.
  destruct (has_api_key w) eqn:Hkey.
  - rewrite (extract_entities_eq _ _ _ Hkey). unfold geocode_queries.
    now destruct (llm_entities w text) as [[es typos]|].
  - now rewrite (extract_entities_no_key _ _ _ Hkey).
Qed.

(** The calls of a whole request, when none of its steps stops it. *)
Definition full_trace (w : World) (text : string) (codes : list string) : list call :=
  ([LLMCall ExtractContact text LLM_TIMEOUT;
    LLMCall ExtractEntities text LLM_TIMEOUT]
   ++ geo_calls (HTTP_TIMEOUT_SECONDS w) (geocode_queries w text)
   ++ [LLMCall Categorize text LLM_TIMEOUT]
   ++ emergency_calls (HTTP_TIMEOUT_SECONDS w) codes)%list.

(** A step that issues no call. *)
Ltac no_calls :=
  repeat first
    [ reflexivity
    | rewrite snd_lift
    | rewrite snd_bind
    | match goal with
      | |- context [if ?b then _ else _] => destruct b
      | |- context [match fst ?m with Ok _ => _ | Raise _ => _ end] => destruct (fst m)
      | |- context [match ?x with [] => _ | _ :: _ => _ end] => destruct x
      end ].

(** Pass the next step of a chain of binds when it issues no call. *)
Ltac pure_step :=
  rewrite snd_bind;
  match goal with
  | |- context [(snd ?m ++ match fst ?m with Ok _ => _ | Raise _ => _ end)%list] =>
      let H := fresh "Hpure" in
      assert (H : snd m = []) by no_calls;
      rewrite H; clear H; cbn [app]; destruct (fst m)
  end.

(** The country codes of the country map of a request. *)
Definition request_codes (w : World) (text : string) : list string :=
  match fst (extract_entities w text (HTTP_TIMEOUT_SECONDS w)) with
  | Ok (_, country_map, _) => country_codes country_map
  | Raise _ => []
  end.

Lemma request_codes_NoDup (w : World) (text : string) : NoDup (request_codes w text).
Proof.
  unfold request_codes.
  destruct (fst (extract_entities w text (HTTP_TIMEOUT_SECONDS w))) as [[[es cm] ty]|e].
  - apply (country_codes_spec cm).
  - constructor.
Qed.

(** The calls of a request are an initial segment of [full_trace]. *)
Lemma normalize_message_trace (w : World) (request : NormalizeIn.t) :
  snd (normalize_message w request)
    `prefix_of` full_trace w (NormalizeIn.text request)
                  (request_codes w (NormalizeIn.text request)).
Proof.
  unfold normalize_message. cbv zeta. rewrite snd_try_except_raise.
  set (text := NormalizeIn.text request).
  generalize (request_codes_NoDup w text). unfold request_codes.
  rewrite snd_bind, extract_contact_trace.
  destruct (has_api_key w) eqn:Hkey.
  2:{ rewrite (extract_contact_no_key _ _ Hkey). intros _. apply prefix_nil. }
  assert (Hstop1 : forall codes,
            [LLMCall ExtractContact text LLM_TIMEOUT] `prefix_of` full_trace w text codes).
  { intros codes. unfold full_trace. simpl. apply prefix_cons, prefix_nil. }
  assert (Hstop2 : forall codes,
            (LLMCall ExtractContact text LLM_TIMEOUT
             :: LLMCall ExtractEntities text LLM_TIMEOUT
             :: geo_calls (HTTP_TIMEOUT_SECONDS w) (geocode_queries w text))
            `prefix_of` full_trace w text codes).
  { intros codes. unfold full_trace. simpl.
    do 2 apply prefix_cons. apply prefix_app_r. reflexivity. }
  destruct (fst (extract_contact w text)) as [cd|e];
    [|intros _; rewrite ?app_nil_r; apply Hstop1].
  pure_step; [|intros _; rewrite ?app_nil_r; apply Hstop1].
  rewrite snd_bind, extract_entities_trace, Hkey.
  change (list entity * gmap string string * json)%type with entities_result.
  destruct (fst (extract_entities w text (HTTP_TIMEOUT_SECONDS w)))
    as [[[es cm] ty]|e] eqn:Hext;
    [|intros _; rewrite ?app_nil_r; apply Hstop2].
  intros Hnd.
  pure_step; [|rewrite ?app_nil_r; apply Hstop2].
  rewrite snd_bind, categorize_trace, Hkey.
  destruct (fst (categorize w text)) as [category|e].
  2:{ unfold full_trace. simpl.
      do 2 apply prefix_cons. rewrite ?app_nil_r. apply prefix_app, prefix_cons, prefix_nil. }
  rewrite snd_bind, enrich_eq.
  assert (Htail : forall tail : list call,
            tail `prefix_of` emergency_calls (HTTP_TIMEOUT_SECONDS w) (country_codes cm) ->
            ([LLMCall ExtractContact text LLM_TIMEOUT]
             ++ (LLMCall ExtractEntities text LLM_TIMEOUT
                 :: geo_calls (HTTP_TIMEOUT_SECONDS w) (geocode_queries w text))
             ++ [LLMCall Categorize text LLM_TIMEOUT] ++ tail)%list
            `prefix_of` full_trace w text (country_codes cm)).
  { intros tail Ht. unfold full_trace. simpl. do 2 apply prefix_cons.
    apply prefix_app, prefix_cons, Ht. }
  destruct (locations es); cbn [fst snd].
  - apply Htail. pure_step; [pure_step|]; rewrite ?snd_lift; apply prefix_nil.
  - apply Htail.
    pure_step; [pure_step|]; rewrite ?snd_lift, ?app_nil_r; reflexivity.
Qed.

(** C6: each LLM operation sends exactly one request, with the 10 second
    timeout, whatever the reply; entity extraction then sends one geocoding
    request per query, with the timeout it was given, and the queries do
    not depend on any geocoder reply; the emergency-number API is asked
    once per distinct country code, whatever it answers.  So the calls of a
    request are an initial segment of: contact prompt, entities prompt,
    geocoding queries, category prompt, emergency lookups; none is sent
    twice. *)
Theorem no_call_is_repeated :
  (forall (w : World) (text : string),
     has_api_key w = true ->
     snd (categorize w text) = [LLMCall Categorize text 10] /\
     snd (extract_contact w text) = [LLMCall ExtractContact text 10]) /\
  (forall (w : World) (text : string) (timeout : Q),
     has_api_key w = true ->
     snd (extract_entities w text timeout)
       = LLMCall ExtractEntities text 10
           :: map (fun q => GeoCall q timeout) (geocode_queries w text)) /\
  (forall (w : World) (text : string)
          (geocoder : nat -> string -> http_reply) (emergency : string -> http_reply),
     geocode_queries (with_apis w geocoder emergency) text = geocode_queries w text) /\
  (forall (w : World) (cities : list string) (country_map : gmap string string)
          (timeout : Q),
     snd (_get_emergency_numbers w cities country_map timeout)
       = map (fun c => EmergencyCall c timeout) (country_codes country_map) /\
     NoDup (country_codes country_map)) /\
  (forall (w : World) (request : NormalizeIn.t),
     snd (normalize_message w request)
       `prefix_of` full_trace w (NormalizeIn.text request)
                     (request_codes w (NormalizeIn.text request)) /\
     NoDup (request_codes w (NormalizeIn.text request))).
Proof.
  repeat apply conj.
  - intros w text Hkey. rewrite categorize_trace, extract_contact_trace, Hkey. auto.
  - intros w text timeout Hkey. rewrite extract_entities_trace, Hkey. reflexivity.
  - reflexivity.
  - intros w cities cm timeout. rewrite get_emergency_numbers_eq. split; [reflexivity|].
    apply (country_codes_spec cm).
  - intros w request. split; [apply normalize_message_trace|apply request_codes_NoDup].
Qed.

Lemma no_call_is_repeated_witness :
  snd (categorize world_paris "We fly to Paris") = [LLMCall Categorize "We fly to Paris" 10] /\
  snd (extract_entities world_paris "We fly to Paris" 1)
    = [LLMCall ExtractEntities "We fly to Paris" 10; GeoCall "Paris" 1].
Proof.
  destruct no_call_is_repeated as (Hllm & Hentities & _).
  split.
  - apply (Hllm world_paris "We fly to Paris"). reflexivity.
  - rewrite (Hentities world_paris "We fly to Paris" 1%Q eq_refl). vm_compute. reflexivity.
Defined.


(** * Further properties of the code *)

(** ** What a successful run of the matcher means *)

Module ReSpec.

Import Re.

(** A position of the matcher: the character before, the input left and the
    groups captured so far. *)
Definition pos : Type := (option ascii * string * caps)%type.

(** [Matches r a b]: the pattern [r] can take the matcher from [a] to [b]. *)
Inductive Matches : re -> pos -> pos -> Prop :=
| M_Eps a : Matches Eps a a
| M_Cls p prev c s cs : p c = true -> Matches (Cls p) (prev, String c s, cs) (Some c, s, cs)
| M_Cat r1 r2 a b c : Matches r1 a b -> Matches r2 b c -> Matches (Cat r1 r2) a c
| M_AltL r1 r2 a b : Matches r1 a b -> Matches (Alt r1 r2) a b
| M_AltR r1 r2 a b : Matches r2 a b -> Matches (Alt r1 r2) a b
| M_Star0 r a : Matches (Star r) a a
| M_StarS r a b c : Matches r a b -> Matches (Star r) b c -> Matches (Star r) a c
| M_Grp i r prev s cs prev' s' cs' :
    Matches r (prev, s, cs) (prev', s', cs') ->
    Matches (Grp i r) (prev, s, cs) (prev', s', (i, consumed s s') :: cs')
| M_WordB prev s cs :
    xorb (is_word_opt prev) (is_word_opt (next_char s)) = true ->
    Matches WordB (prev, s, cs) (prev, s, cs)
| M_Bos s cs : Matches Bos (None, s, cs) (None, s, cs)
| M_Eos prev s cs :
    s = EmptyString \/ s = String "010" EmptyString ->
    Matches Eos (prev, s, cs) (prev, s, cs).

(** Whenever [run] succeeds, the pattern matched up to the position at
    which the continuation succeeded. *)
Lemma run_sound {A : Type} (r : re) :
  forall prev s cs (k : option ascii -> string -> caps -> option A) (a : A),
    run r prev s cs k = Some a ->
    exists prev' s' cs',
      Matches r (prev, s, cs) (prev', s', cs') /\ k prev' s' cs' = Some a.
Proof.
  induction r as [|p|r1 IH1 r2 IH2|r1 IH1 r2 IH2|r IH|i r IH| | |];
    intros prev s cs k a H; simpl in H.
  - eauto 10 using Matches.
  - destruct s as [|c s]; [discriminate|]. destruct (p c) eqn:Hp; [|discriminate].
    eauto 10 using Matches.
  - apply IH1 in H as (p1 & s1 & c1 & Hm1 & H).
    apply IH2 in H as (p2 & s2 & c2 & Hm2 & H). eauto 10 using Matches.
  - destruct (run r1 prev s cs k) eqn:H1.
    + injection H as ->. apply IH1 in H1 as (p1 & s1 & c1 & Hm & Hk). eauto 10 using Matches.
    + apply IH2 in H as (p1 & s1 & c1 & Hm & Hk). eauto 10 using Matches.
  - remember (String.length s) as n eqn:Hn in H. clear Hn.
    revert prev s cs H.
    induction n as [|n IHn]; intros prev s cs H.
    + eauto 10 using Matches.
    + match type of H with
      | match ?x with Some _ => _ | None => _ end = _ => destruct x eqn:Hx
      end.
      * injection H as ->. apply IH in Hx as (p1 & s1 & c1 & Hm & Hk).
        destruct (String.length s1 <? String.length s)%nat; [|discriminate].
        apply IHn in Hk as (p2 & s2 & c2 & Hm2 & Hk). eauto 10 using Matches.
      * eauto 10 using Matches.
  - apply IH in H as (p1 & s1 & c1 & Hm & Hk). eauto 10 using Matches.
  - destruct (xorb _ _) eqn:Hx; [|discriminate]. eauto 10 using Matches.
  - destruct prev; [discriminate|]. eauto 10 using Matches.
  - destruct (_ || _) eqn:Hx; [|discriminate]. apply orb_true_iff in Hx.
    do 3 eexists. split; [|exact H]. constructor.
    destruct Hx as [Hx|Hx]; apply String.eqb_eq in Hx; auto.
Qed.

Lemma append_cons (c : ascii) (s t : string) : String c s ++ t = String c (s ++ t).
Proof. reflexivity. Qed.

Lemma append_assoc (s t u : string) : (s ++ t) ++ u = s ++ (t ++ u).
Proof.
  induction s as [|c s IH]; [reflexivity|]. rewrite !append_cons. now f_equal.
Qed.

(** A match consumes a prefix of the input. *)
Lemma Matches_suffix (r : re) (a b : pos) :
  Matches r a b -> exists pre, a.1.2 = pre ++ b.1.2.
Proof.
  induction 1; simpl in *; try (exists EmptyString; reflexivity).
  - exists (String c EmptyString). reflexivity.
  - destruct IHMatches1 as [p1 H1], IHMatches2 as [p2 H2].
    exists (p1 ++ p2). rewrite H1, H2. now rewrite append_assoc.
  - assumption.
  - assumption.
  - destruct IHMatches1 as [p1 H1], IHMatches2 as [p2 H2].
    exists (p1 ++ p2). rewrite H1, H2. now rewrite append_assoc.
  - assumption.
Qed.

Lemma length_append (s t : string) :
  String.length (s ++ t) = (String.length s + String.length t)%nat.
Proof.
  induction s as [|c s IH]; [reflexivity|]. rewrite append_cons. simpl. now f_equal.
Qed.

Lemma substring_prefix (pre s : string) :
  substring 0 (String.length pre) (pre ++ s) = pre.
Proof.
  induction pre as [|c pre IH]; [now destruct s|]. rewrite append_cons. simpl. now f_equal.
Qed.

Lemma consumed_append (pre s : string) : consumed (pre ++ s) s = pre.
Proof.
  unfold consumed. rewrite length_append.
  replace (String.length pre + String.length s - String.length s)%nat
    with (String.length pre) by lia.
  apply substring_prefix.
Qed.

(** A pattern without groups captures nothing. *)
Lemma Matches_no_group (r : re) (a b : pos) :
  Matches r a b -> ngroups r = 0%nat -> b.2 = a.2.
Proof.
  induction 1; simpl; intros Hn; try reflexivity; try discriminate.
  - rewrite IHMatches2, IHMatches1 by lia. reflexivity.
  - apply IHMatches. lia.
  - apply IHMatches. lia.
  - rewrite IHMatches2, IHMatches1 by assumption. reflexivity.
Qed.

(** [n] characters of a class. *)
Lemma Matches_Rep_Cls (n : nat) (p : ascii -> bool) (a b : pos) :
  Matches (Rep n (Cls p)) a b ->
  b.2 = a.2 /\
  exists pre, a.1.2 = pre ++ b.1.2 /\ String.length pre = n /\ Py.sforall p pre = true.
Proof.
  revert a b. induction n as [|n IH]; intros a b H; simpl in H.
  - inversion H; subst. split; [reflexivity|]. exists EmptyString. auto.
  - inversion H as [| |? ? ? m ? H1 H2| | | | | | | |]; subst.
    inversion H1; subst. apply IH in H2 as (Hc & pre & Hs & Hl & Hp). simpl in *.
    split; [exact Hc|]. exists (String c pre). simpl. rewrite Hs, Hl, Hp.
    match goal with Hpc : p c = true |- _ => rewrite Hpc end. auto.
Qed.

(** A group of [n] characters of a class records them. *)
Lemma Matches_Grp_Rep (i n : nat) (p : ascii -> bool) (a b : pos) :
  Matches (Grp i (Rep n (Cls p))) a b ->
  exists pre, b.2 = (i, pre) :: a.2 /\ String.length pre = n /\ Py.sforall p pre = true.
Proof.
  intros H. inversion H; subst.
  match goal with Hm : Matches (Rep _ _) _ _ |- _ =>
    apply Matches_Rep_Cls in Hm as (Hc & pre & Hs & Hl & Hp) end.
  simpl in *. subst. exists pre. rewrite consumed_append. auto.
Qed.

Lemma match_here_sound (r : re) (prev : option ascii) (s : string) (m : rmatch) :
  match_here r prev s = Some m ->
  exists prev' s',
    Matches r (prev, s, []) (prev', s', groups m) /\
    matched m = consumed s s' /\ rest m = s'.
Proof.
  unfold match_here. intros H. apply run_sound in H as (p' & s' & cs' & Hm & [= <-]).
  simpl. eauto.
Qed.

Lemma search_from_sound (r : re) (s : string) :
  forall prev m,
    search_from r prev s = Some m ->
    exists prev0 s0, match_here r prev0 s0 = Some m.
Proof.
  induction s as [|c s IH]; intros prev m; simpl.
  - destruct (match_here r prev EmptyString) eqn:H; [|discriminate].
    intros [= <-]. eauto.
  - destruct (match_here r prev (String c s)) eqn:H.
    + intros [= <-]. eauto.
    + apply IH.
Qed.

Lemma search_sound (r : re) (s : string) (m : rmatch) :
  search r s = Some m ->
  exists prev0 s0 prev' s',
    Matches r (prev0, s0, []) (prev', s', groups m) /\ matched m = consumed s0 s'.
Proof.
  intros H. apply search_from_sound in H as (prev0 & s0 & H).
  apply match_here_sound in H as (prev' & s' & Hm & Hc & _). eauto 8.
Qed.

End ReSpec.

(** ** text_utils.py: the digits of a phone number *)

Fixpoint sfilter (p : ascii -> bool) (s : string) : string :=
  match s with
  | EmptyString => EmptyString
  | String c s' => if p c then String c (sfilter p s') else sfilter p s'
  end.

Lemma sforall_append (p : ascii -> bool) (s t : string) :
  Py.sforall p (s ++ t) = Py.sforall p s && Py.sforall p t.
Proof.
  induction s as [|c s IH]; [reflexivity|]. rewrite ReSpec.append_cons. simpl.
  rewrite IH. now rewrite andb_assoc.
Qed.

Lemma sfilter_all (p : ascii -> bool) (s : string) :
  Py.sforall p s = true -> sfilter p s = s.
Proof.
  induction s as [|c s IH]; simpl; [reflexivity|]. intros H.
  apply andb_true_iff in H as [Hc Hs]. now rewrite Hc, IH.
Qed.

Lemma sfilter_sforall (p : ascii -> bool) (s : string) :
  Py.sforall p (sfilter p s) = true.
Proof.
  induction s as [|c s IH]; simpl; [reflexivity|].
  destruct (p c) eqn:Hc; simpl; [now rewrite Hc|exact IH].
Qed.

Lemma match_here_Cls (p : ascii -> bool) (prev : option ascii) (c : ascii) (s : string) :
  Re.match_here (Re.Cls p) prev (String c s)
  = if p c
    then Some {| Re.matched := String c EmptyString; Re.groups := [];
                 Re.rest := s; Re.last := Some c |}
    else None.
Proof.
  unfold Re.match_here. simpl. destruct (p c); [|reflexivity].
  change (String c s) with (String c EmptyString ++ s).
  now rewrite ReSpec.consumed_append.
Qed.

Lemma sub_Cls_empty (p : ascii -> bool) (s : string) :
  forall prev, Re.sub_from (Re.Cls p) EmptyString prev s 0 = sfilter (fun c => negb (p c)) s.
Proof.
  induction s as [|c s IH]; intros prev; simpl; [reflexivity|].
  rewrite match_here_Cls. destruct (p c); simpl; [apply IH|now rewrite IH].
Qed.

Lemma extract_phone_digits_filter (phone : string) :
  extract_phone_digits phone = sfilter Py.is_digit phone.
Proof.
  unfold extract_phone_digits, Re.sub, Re.D. rewrite sub_Cls_empty.
  induction phone as [|c s IH]; simpl; [reflexivity|].
  rewrite negb_involutive. now rewrite IH.
Qed.

Lemma extract_phone_digits_digits (phone : string) :
  Py.sforall Py.is_digit (extract_phone_digits phone) = true.
Proof. rewrite extract_phone_digits_filter. apply sfilter_sforall. Qed.

(** X1: of an ASCII argument [extract_phone_digits] keeps exactly the
    characters 0 to 9, in order; so its result holds these digits only and
    applying it again changes nothing. *)
Theorem extract_phone_digits_keeps_digits (phone : string) :
  ascii_text phone ->
  extract_phone_digits phone = sfilter Py.is_digit phone /\
  Py.sforall Py.is_digit (extract_phone_digits phone) = true /\
  extract_phone_digits (extract_phone_digits phone) = extract_phone_digits phone.
Proof.
  intros _. split; [apply extract_phone_digits_filter|]. split.
  - apply extract_phone_digits_digits.
  - rewrite !extract_phone_digits_filter. apply sfilter_all, sfilter_sforall.
Qed.

Lemma extract_phone_digits_keeps_digits_witness :
  extract_phone_digits "(917) 555-1234" = "9175551234".
Proof.
  destruct (extract_phone_digits_keeps_digits "(917) 555-1234") as (H & _); [reflexivity|].
  rewrite H. reflexivity.
Defined.

Lemma extract_phone_digits_id (s : string) :
  Py.sforall Py.is_digit s = true -> extract_phone_digits s = s.
Proof.
  intros H. unfold extract_phone_digits, Re.sub, Re.D. rewrite sub_Cls_empty.
  rewrite <- (sfilter_all Py.is_digit s H) at 2.
  clear H. induction s as [|c s IH]; simpl; [reflexivity|].
  rewrite negb_involutive. now rewrite IH.
Qed.

(** ** extract_contact.py: what the regex fallback can return *)

Lemma first_search_Some (patterns : list Re.re) (text : string) (r : Re.re) (m : Re.rmatch) :
  first_search patterns text = Some (r, m) -> In r patterns /\ Re.search r text = Some m.
Proof.
  induction patterns as [|p patterns IH]; simpl; [discriminate|].
  destruct (Re.search p text) as [m'|] eqn:Hs.
  - intros [= <- <-]. auto.
  - intros H. apply IH in H as [Hin Hm]. auto.
Qed.

Lemma Matches_Cat (r1 r2 : Re.re) (a c : ReSpec.pos) :
  ReSpec.Matches (Re.Cat r1 r2) a c ->
  exists b, ReSpec.Matches r1 a b /\ ReSpec.Matches r2 b c.
Proof. intros H. inversion H; subst. eauto. Qed.

(** Split a match of a sequence into its parts and track the groups. *)
Ltac split_match H :=
  repeat match type of H with
  | ReSpec.Matches (Re.Cat _ _) _ _ =>
      let b := fresh "b" in
      let H1 := fresh "Hpart" in
      apply Matches_Cat in H as (b & H1 & H);
      first [ apply ReSpec.Matches_Grp_Rep in H1 as (? & ? & ? & ?)
            | apply ReSpec.Matches_no_group in H1; [|reflexivity] ]
  end;
  first [ apply ReSpec.Matches_Grp_Rep in H as (? & ? & ? & ?)
        | apply ReSpec.Matches_no_group in H; [|reflexivity] ].

Lemma ten_digits_3_3_4 (a b c : string) :
  String.length a = 3%nat -> String.length b = 3%nat -> String.length c = 4%nat ->
  Py.sforall Py.is_digit a = true -> Py.sforall Py.is_digit b = true ->
  Py.sforall Py.is_digit c = true ->
  ten_digits (extract_phone_digits (Py.join [a; b; c])).
Proof.
  intros La Lb Lc Da Db Dc.
  assert (Hd : Py.sforall Py.is_digit (Py.join [a; b; c]) = true).
  { unfold Py.join. simpl. rewrite !sforall_append, Da, Db, Dc. reflexivity. }
  rewrite (extract_phone_digits_id _ Hd). split; [|exact Hd].
  unfold Py.join. simpl. rewrite !ReSpec.length_append, La, Lb, Lc. reflexivity.
Qed.

(** Replace the groups of each intermediate position by their value. *)
Ltac chain_groups :=
  simpl in *;
  repeat match goal with
         | H : ?b.2 = _ |- _ => is_var b; rewrite H in *; clear H
         end;
  simpl in *.

Lemma phone_fallback_ten_digits (text p : string) :
  _extract_phone_fallback text = Some p -> ten_digits p.
Proof.
  unfold _extract_phone_fallback.
  destruct (first_search phone_patterns text) as [[pattern m]|] eqn:Hs; [|discriminate].
  apply first_search_Some in Hs as [Hin Hs].
  apply ReSpec.search_sound in Hs as (prev0 & s0 & prev' & s' & Hm & _).
  unfold phone_patterns in Hin. cbn [In] in Hin.
  destruct Hin as [<-|[<-|[<-|[<-|[]]]]];
    unfold Re.groups_of, Re.chr, Re.sp, Re.Opt, Re.Plus;
    cbn [Re.ngroups Nat.eqb Nat.add seq map];
    intros [= <-];
    split_match Hm; chain_groups;
    match goal with H : Re.groups m = _ |- _ => rewrite H end; simpl.
  - now apply ten_digits_3_3_4.
  - now apply ten_digits_3_3_4.
  - now apply ten_digits_3_3_4.
  - rewrite extract_phone_digits_id by assumption. split; assumption.
Qed.

(** X2: whatever the ASCII text, the regex fallback for the phone returns
    nothing or a string of exactly ten of the digits 0 to 9. *)
Theorem fallback_phone_is_ten_digits (text p : string) :
  ascii_text text ->
  _extract_phone_fallback text = Some p -> ten_digits p.
Proof. intros _. apply phone_fallback_ten_digits. Qed.

Lemma fallback_phone_is_ten_digits_witness :
  _extract_phone_fallback "call (917) 555-1234 today" = Some "9175551234" /\
  ten_digits "9175551234".
Proof.
  assert (H : _extract_phone_fallback "call (917) 555-1234 today" = Some "9175551234")
    by (vm_compute; reflexivity).
  split; [exact H|].
  apply (fallback_phone_is_ten_digits "call (917) 555-1234 today" _ eq_refl H).
Defined.

(** Exactly five digit characters. *)
Definition five_digits (s : string) : Prop :=
  String.length s = 5%nat /\ Py.sforall Py.is_digit s = true.

Lemma fallback_zip_five_digits (text z : string) :
  _extract_zip_fallback text = Some z -> five_digits z.
Proof.
  unfold _extract_zip_fallback.
  destruct (Re.search _ text) as [m|] eqn:Hs; [|discriminate].
  apply ReSpec.search_sound in Hs as (prev0 & s0 & prev' & s' & Hm & _).
  intros [= <-]. split_match Hm. chain_groups.
  match goal with H : Re.groups m = _ |- _ => rewrite H end. simpl. split; assumption.
Qed.

Lemma fallback_contact_phone_ok (text : string) :
  phone_ok (phone (_fallback_extract_contact text)).
Proof.
  unfold _fallback_extract_contact. cbn [phone].
  destruct (_extract_phone_fallback text) as [p|] eqn:Hp; [|now left].
  destruct (nonempty p); [|now left].
  right. exists p. split; [reflexivity|apply (phone_fallback_ten_digits _ _ Hp)].
Qed.

(** X3: the contact the regex fallback extracts from an ASCII text is
    clean: the phone is null or ten digits, the ZIP code is null or five
    digits, the email is null or passes [is_valid_email], and the first and
    last names are both present or both absent. *)
Theorem fallback_contact_is_clean (text : string) :
  ascii_text text ->
  let d := _fallback_extract_contact text in
  phone_ok (phone d) /\
  (zip d = JNull \/ exists z, zip d = JStr z /\ five_digits z) /\
  (email d = JNull \/ exists e, email d = JStr e /\ is_valid_email e = true) /\
  ((first_name d = JNull /\ last_name d = JNull) \/
   (exists a b, first_name d = JStr a /\ last_name d = JStr b)).
Proof.
  intros _.
  unfold _fallback_extract_contact. cbn [phone zip email first_name last_name].
  repeat apply conj.
  - destruct (_extract_phone_fallback text) as [p|] eqn:Hp; [|now left].
    destruct (nonempty p); [|now left].
    right. exists p. split; [reflexivity|apply (phone_fallback_ten_digits _ _ Hp)].
  - destruct (_extract_zip_fallback text) as [z|] eqn:Hz; [|now left].
    destruct (nonempty z && is_valid_zip z); [|now left].
    right. exists z. split; [reflexivity|apply (fallback_zip_five_digits _ _ Hz)].
  - destruct (_extract_email_fallback text) as [e|]; [|now left].
    destruct (nonempty e); simpl; [|now left].
    destruct (is_valid_email e) eqn:He; [|now left]. right. eauto.
  - unfold _extract_names_fallback.
    destruct (first_search name_patterns text) as [[r m]|]; [right; eauto|left; auto].
Qed.

Lemma fallback_contact_is_clean_witness :
  phone_ok (phone (_fallback_extract_contact "Alex Smith, 917-555-1234, zip 10001")) /\
  exists z, zip (_fallback_extract_contact "Alex Smith, 917-555-1234, zip 10001") = JStr z /\
            five_digits z.
Proof.
  pose proof (fallback_contact_is_clean "Alex Smith, 917-555-1234, zip 10001" eq_refl) as H.
  cbv zeta in H. destruct H as (Hphone & [Hzip|Hzip] & _).
  - vm_compute in Hzip. discriminate.
  - split; [exact Hphone|exact Hzip].
Defined.

Lemma clean_contact_phone (contact_data : json) (d : contact_dict) :
  clean_contact contact_data = Ok d ->
  phone_ok (phone d) \/ J.truthy (phone d) = false.
Proof.
  unfold clean_contact. munfold.
  destruct (J.get contact_data "first_name" JNull) as [fn|]; [|discriminate].
  destruct (J.get contact_data "last_name" JNull) as [ln|]; [|discriminate].
  destruct (J.get contact_data "email" JNull) as [em|]; [|discriminate].
  destruct (J.get contact_data "phone" JNull) as [ph|]; [|discriminate].
  destruct (J.get contact_data "zip" JNull) as [zp|]; [|discriminate].
  destruct (if J.truthy em then _ else _) as [em'|]; [|discriminate].
  destruct (J.truthy ph) eqn:Hph.
  - destruct (J.as_re_arg ph) as [s|]; [|discriminate]. cbn [Res_bind].
    destruct (if J.truthy zp then _ else _) as [zp'|]; [|discriminate].
    intros [= <-]. cbn [phone]. left.
    destruct (String.length (extract_phone_digits s) =? 10)%nat eqn:Hlen; simpl.
    + right. exists (extract_phone_digits s). split; [reflexivity|]. split.
      * now apply Nat.eqb_eq.
      * apply extract_phone_digits_digits.
    + now left.
  - destruct (if J.truthy zp then _ else _) as [zp'|]; [|discriminate].
    intros [= <-]. cbn [phone]. now right.
Qed.

(** The phone of the contact the LLM reports for [text], when it is a
    string, is ASCII. *)
Definition llm_phone_ascii (w : World) (text : string) : Prop :=
  forall content parsed s,
    fst (llm_content w ExtractContact text) = Ok content ->
    json_loads w (strip_code_fence content) = Some parsed ->
    J.get parsed "phone" JNull = Ok (JStr s) ->
    ascii_text s.

(** X4: when the text and the phone the LLM reports are ASCII, the phone of
    every contact [extract_contact] returns is null or a string of ten
    digits, or it is a falsy value (such as the empty string) that the LLM
    gave and that the truthiness test let through. *)
Theorem contact_phone_extent (w : World) (text : string) (d : contact_dict) :
  ascii_text text ->
  llm_phone_ascii w text ->
  fst (extract_contact w text) = Ok d ->
  phone_ok (phone d) \/ J.truthy (phone d) = false.
Proof.
  intros _ _.
  assert (Hfb : phone_ok (phone (_fallback_extract_contact text))).
  { apply fallback_contact_phone_ok. }
  unfold extract_contact. destruct (has_api_key w); cbn [negb]; [|discriminate].
  unfold try_except, try_except_decode, loads. munfold.
  destruct (llm_content w ExtractContact text) as [[c|e] t]; cbn [fst snd].
  - destruct (json_loads w (strip_code_fence c)) as [parsed|]; cbn [fst snd].
    + destruct (clean_contact parsed) as [d'|e] eqn:Hc; cbn [fst snd].
      * intros [= <-]. apply (clean_contact_phone _ _ Hc).
      * destruct e; cbn [fst]; intros [= <-]; now left.
    + intros [= <-]. now left.
  - intros [= <-]. now left.
Qed.

Lemma contact_phone_extent_witness :
  phone_ok (phone (_fallback_extract_contact "call 917-555-1234")) /\
  exists d, fst (extract_contact world_empty_phone "Hi, Alex here") = Ok d /\
            J.truthy (phone d) = false.
Proof.
  split.
  - destruct (contact_phone_extent world_offline "call 917-555-1234"
                (_fallback_extract_contact "call 917-555-1234")) as [H|H].
    + reflexivity.
    + intros content parsed s Hc. vm_compute in Hc. discriminate.
    + vm_compute. reflexivity.
    + exact H.
    + vm_compute in H. discriminate.
  - eexists. split; [vm_compute; reflexivity|].
    destruct (contact_phone_extent world_empty_phone "Hi, Alex here"
                {| first_name := JStr "Alex"; last_name := JNull; email := JNull;
                   phone := JStr EmptyString; zip := JNull |}) as [H|H].
    + reflexivity.
    + intros content parsed s Hc Hp. vm_compute in Hc. injection Hc as <-.
      vm_compute in Hp. injection Hp as <-. vm_compute. now intros [= <-].
    + vm_compute. reflexivity.
    + destruct H as [H|(s & H & Hlen & _)]; [discriminate|].
      injection H as <-. vm_compute in Hlen. discriminate.
    + exact H.
Defined.

(** ** text_utils.py: ZIP codes *)

Lemma Matches_Bos (a b : ReSpec.pos) : ReSpec.Matches Re.Bos a b -> b = a.
Proof. intros H. now inversion H. Qed.

Lemma Matches_Eos (a b : ReSpec.pos) :
  ReSpec.Matches Re.Eos a b ->
  b = a /\ (a.1.2 = EmptyString \/ a.1.2 = String "010" EmptyString).
Proof. intros H. inversion H; subst. auto. Qed.

Lemma five_digits_chars (s : string) :
  five_digits s ->
  exists c1 c2 c3 c4 c5,
    s = String c1 (String c2 (String c3 (String c4 (String c5 EmptyString)))) /\
    Py.is_digit c1 = true /\ Py.is_digit c2 = true /\ Py.is_digit c3 = true /\
    Py.is_digit c4 = true /\ Py.is_digit c5 = true.
Proof.
  intros [Hl Hd].
  destruct s as [|c1 [|c2 [|c3 [|c4 [|c5 [|c6 s]]]]]]; try discriminate.
  simpl in Hd. repeat (apply andb_true_iff in Hd as [? Hd]).
  exists c1, c2, c3, c4, c5. auto 10.
Qed.

(** X5: among ASCII strings [is_valid_zip] accepts exactly those made of
    five digits, optionally followed by one line feed (the [$] of the
    pattern also matches before a final newline). *)
Theorem is_valid_zip_spec (zip_code : string) :
  ascii_text zip_code ->
  is_valid_zip zip_code = true <->
  exists z, five_digits z /\
            (zip_code = z \/ zip_code = z ++ String "010" EmptyString).
Proof.
  intros _.
  unfold is_valid_zip. rewrite bool_decide_eq_true. split.
  - intros [m Hm]. apply ReSpec.match_here_sound in Hm as (prev' & s' & Hm & _).
    apply Matches_Cat in Hm as (b1 & H1 & Hm). apply Matches_Bos in H1. subst b1.
    apply Matches_Cat in Hm as (b2 & H2 & Hm).
    apply ReSpec.Matches_Rep_Cls in H2 as (_ & pre & Hs & Hl & Hd).
    apply Matches_Eos in Hm as (_ & He). simpl in Hs.
    exists pre. split; [split; assumption|].
    destruct He as [He|He]; rewrite He in Hs; [left|right; exact Hs].
    rewrite Hs. clear. induction pre as [|c pre IH]; [reflexivity|].
    rewrite ReSpec.append_cons. now f_equal.
  - intros (z & Hz & Hzip).
    apply five_digits_chars in Hz as (c1 & c2 & c3 & c4 & c5 & -> & H1 & H2 & H3 & H4 & H5).
    destruct Hzip as [->| ->]; unfold Re.match_, Re.match_here; simpl;
      rewrite H1, H2, H3, H4, H5; simpl; eauto.
Qed.

(** ** categorizer.py: the keyword fallback *)

Definition mentions (keywords : list string) (text : string) : bool :=
  existsb (fun keyword => Py.contains keyword (Py.lower text)) keywords.

(** X6: on an ASCII text the keyword fallback gives "high_risk" as soon
    as a high-risk keyword occurs, even beside an urgent one; "urgent" when
    only an urgent keyword occurs; "base" otherwise; and it ignores the
    case of the text. *)
Theorem fallback_categorize_precedence (text : string) :
  ascii_text text ->
  (mentions high_risk_keywords text = true -> _fallback_categorize text = "high_risk") /\
  (mentions high_risk_keywords text = false -> mentions urgent_keywords text = true ->
   _fallback_categorize text = "urgent") /\
  (mentions high_risk_keywords text = false -> mentions urgent_keywords text = false ->
   _fallback_categorize text = "base") /\
  _fallback_categorize (Py.lower text) = _fallback_categorize text /\
  _fallback_categorize (Py.upper text) = _fallback_categorize text.
Proof.
  intros _.
  unfold _fallback_categorize, mentions. cbv zeta.
  assert (Hup : Py.lower (Py.upper text) = Py.lower text).
  { unfold Py.lower, Py.upper. induction text as [|c s IH]; simpl; [reflexivity|].
    rewrite IH. f_equal. clear.
    destruct c as [[] [] [] [] [] [] [] []]; reflexivity. }
  repeat apply conj.
  - now intros ->.
  - now intros -> ->.
  - now intros -> ->.
  - now rewrite lower_idem.
  - now rewrite Hup.
Qed.

Lemma fallback_categorize_precedence_witness :
  _fallback_categorize "Lost passport, need help TODAY" = "high_risk" /\
  _fallback_categorize "need help TODAY" = "urgent".
Proof.
  split.
  - destruct (fallback_categorize_precedence "Lost passport, need help TODAY" eq_refl)
      as (H & _).
    apply H. reflexivity.
  - destruct (fallback_categorize_precedence "need help TODAY" eq_refl) as (_ & H & _).
    apply H; reflexivity.
Defined.

(** ** The API key *)

Definition missing_key : exn := ValueError "OPENAI_API_KEY environment variable not set".

(** X7: without the API key (unset or empty) each LLM operation raises
    [ValueError] before any request is sent, and the request is answered 500
    with the body of the handler, without a single outbound call. *)
Theorem missing_api_key (w : World) (text : string) (timeout : Q)
    (request : NormalizeIn.t) :
  has_api_key w = false ->
  categorize w text = (Raise missing_key, []) /\
  extract_contact w text = (Raise missing_key, []) /\
  extract_entities w text timeout = (Raise missing_key, []) /\
  snd (normalize_message w request) = [] /\
  post_normalize w request
    = {| status := 500;
         content := error_body "InternalError" "An internal error occurred" |}.
Proof.
  intros Hkey.
  assert (Hc : extract_contact w (NormalizeIn.text request) = (Raise missing_key, []))
    by (now apply extract_contact_no_key).
  repeat apply conj.
  - unfold categorize. now rewrite Hkey.
  - now apply extract_contact_no_key.
  - now apply extract_entities_no_key.
  - unfold normalize_message. cbv zeta. rewrite snd_try_except_raise, snd_bind, Hc.
    reflexivity.
  - unfold post_normalize, normalize_message. cbv zeta. rewrite Hc. reflexivity.
Qed.

Lemma missing_api_key_witness :
  has_api_key world_no_key = false /\
  status (post_normalize world_no_key sample_request) = 500%Z /\
  has_api_key (with_apis world_no_key (fun _ _ => HttpFailed) (fun _ => HttpFailed)) = false.
Proof.
  split; [reflexivity|]. split; [|reflexivity].
  destruct (missing_api_key world_no_key "" 1 sample_request eq_refl)
    as (_ & _ & _ & _ & ->).
  reflexivity.
Defined.

Lemma is_valid_zip_spec_witness :
  is_valid_zip "10001" = true /\
  is_valid_zip ("10001" ++ String "010" EmptyString) = true /\
  is_valid_zip "1000" = false.
Proof.
  split; [|split].
  - apply is_valid_zip_spec; [reflexivity|].
    exists "10001". split; [split; reflexivity|now left].
  - apply is_valid_zip_spec; [reflexivity|].
    exists "10001". split; [split; reflexivity|now right].
  - reflexivity.
Defined.

(** ** enrich.py: the early return and the list of numbers *)

(** X8: when no entity is a city or a country, [enrich] returns
    [{"local_emergency_numbers": None}] at once: no lookup is sent, even if
    the country map has entries. *)
Theorem enrich_without_location (w : World) (entities : list entity)
    (country_map : gmap string string) (timeout : Q) :
  (forall e, In e entities -> type e <> "city" /\ type e <> "country") ->
  enrich w entities country_map timeout = (Ok [("local_emergency_numbers", JNull)], []).
Proof.
  intros H. rewrite enrich_eq.
  assert (Hl : locations entities = []).
  { unfold locations. induction entities as [|e es IH]; [reflexivity|]. simpl.
    destruct (H e (or_introl eq_refl)) as [Hc Hk].
    assert (Hm : Py.mem (type e) ["city"; "country"] = false).
    { apply not_true_is_false. intros Hm. apply mem_In in Hm.
      destruct Hm as [Hm|[Hm|[]]]; congruence. }
    rewrite Hm. apply IH. intros e' He'. apply H. now right. }
  now rewrite Hl.
Qed.

Lemma enrich_without_location_witness :
  enrich world_paris [{| type := "hotel"; value := "chapter roma" |}] {["paris" := "FR"]} 1
  = (Ok [("local_emergency_numbers", JNull)], []).
Proof.
  apply enrich_without_location.
  intros e [<-|[]]. split; discriminate.
Defined.

Lemma fetched_numbers_ok (w : World) (c : string) :
  NoDup (fetched_numbers w c) /\ Forall nonblank (fetched_numbers w c).
Proof.
  unfold fetched_numbers.
  destruct (emergency_get w c) as [|j]; [split; constructor|].
  destruct (numbers_of_reply j) as [numbers|e] eqn:Hn; [|split; constructor].
  apply numbers_of_reply_inv in Hn as (raw & -> & Hraw & _).
  destruct (unique_from_spec raw ∅) as [Hnd Hin]. split; [exact Hnd|].
  apply Forall_forall. intros x Hx. apply Hin in Hx as [Hx _].
  rewrite Forall_forall in Hraw. now apply Hraw.
Qed.

(** X9: the list [_get_emergency_numbers] returns, when it returns one, is
    not empty, has no duplicates and no blank entries, across all the
    countries; it returns [None] exactly when no country gave a number. *)
Theorem emergency_numbers_list (w : World) (cities : list string)
    (country_map : gmap string string) (timeout : Q) :
  match fst (_get_emergency_numbers w cities country_map timeout) with
  | Ok (Some numbers) =>
      numbers <> [] /\ NoDup numbers /\
      forall n, In n numbers -> Py.strip n <> EmptyString
  | Ok None =>
      forall c k, country_map !! k = Some c ->
                  fst (_fetch_emergency_numbers w c timeout) = Ok []
  | Raise _ => False
  end.
Proof.
  rewrite get_emergency_numbers_eq. cbn [fst].
  pose proof (emergency_numbers_of_spec w country_map) as Hspec.
  unfold emergency_numbers_of in *. cbv zeta in *.
  destruct (bool_decide _) eqn:Hd.
  - apply bool_decide_eq_true in Hd. repeat split.
    + intros Hnil. apply Hd. apply leibniz_equiv. now apply elements_empty_inv.
    + apply NoDup_elements.
    + intros n Hn. simpl in Hspec. apply Hspec in Hn as (c & k & _ & Hn).
      destruct (fetched_numbers_ok w c) as [_ Hnb]. rewrite Forall_forall in Hnb.
      apply Hnb. now apply list_elem_of_In.
  - intros c k Hk. rewrite fetch_emergency_numbers_eq. cbn [fst]. f_equal.
    destruct (fetched_numbers w c) as [|x l] eqn:Hf; [reflexivity|].
    exfalso. assert (Hx : In x (default [] None)).
    { apply Hspec. exists c, k. split; [exact Hk|]. rewrite Hf. now left. }
    exact Hx.
Qed.

(** ** extract_entities.py: the static table *)

Lemma foldl_insert_lookup (items : list (string * string)) (acc : gmap string string)
    (k v : string) :
  foldl (fun (m : gmap string string) kv => <[kv.1 := kv.2]> m) acc items !! k = Some v ->
  In (k, v) items \/ acc !! k = Some v.
Proof.
  revert acc. induction items as [|[k' v'] items IH]; intros acc; simpl; [auto|].
  intros H. apply IH in H as [H|H]; [auto|].
  destruct (decide (k = k')) as [->|Hne].
  - rewrite lookup_insert_eq in H. injection H as ->. auto.
  - rewrite lookup_insert_ne in H by congruence. auto.
Qed.

(** A key of the table is lower-case and its code is two upper-case letters. *)
Definition table_entry_ok (kv : string * string) : bool :=
  String.eqb (Py.lower kv.1) kv.1 && (String.length kv.2 =? 2)%nat
  && Py.sforall Py.is_upper kv.2.

Lemma mappings_entry_ok (k iso : string) :
  mappings !! k = Some iso ->
  Py.lower k = k /\ String.length iso = 2%nat /\ Py.sforall Py.is_upper iso = true.
Proof.
  intros H. unfold mappings in H. apply foldl_insert_lookup in H as [H|H].
  - assert (Hall : forallb table_entry_ok mapping_items = true) by (vm_compute; reflexivity).
    rewrite forallb_forall in Hall. specialize (Hall _ H). unfold table_entry_ok in Hall.
    simpl in Hall. apply andb_true_iff in Hall as [Hall Hu].
    apply andb_true_iff in Hall as [Hl Hlen].
    apply String.eqb_eq in Hl. apply Nat.eqb_eq in Hlen. auto.
  - rewrite lookup_empty in H. discriminate.
Qed.

(** X10: [_get_country_name_mappings] maps exactly the given names that are
    keys of the static table, each to the table's code; the match is exact
    (the keys are lower-case, so a name with a capital finds nothing) and
    every code is two upper-case letters. *)
Theorem country_name_mappings_spec (names : list string) (k iso : string) :
  (_get_country_name_mappings names !! k = Some iso <->
   In k names /\ mappings !! k = Some iso) /\
  (_get_country_name_mappings names !! k = Some iso ->
   Py.lower k = k /\ String.length iso = 2%nat /\ Py.sforall Py.is_upper iso = true).
Proof.
  assert (Hiff : _get_country_name_mappings names !! k = Some iso <->
                 In k names /\ mappings !! k = Some iso).
  { rewrite name_mappings_lookup. case_bool_decide as Hin.
    - apply list_elem_of_In in Hin. tauto.
    - split; [discriminate|]. intros [Hk _]. apply list_elem_of_In in Hk. contradiction. }
  split; [exact Hiff|].
  intros H. apply Hiff in H as [_ H]. now apply mappings_entry_ok.
Qed.

Lemma country_name_mappings_spec_witness :
  _get_country_name_mappings ["paris"; "Paris"; "atlantis"] !! "paris" = Some "FR" /\
  _get_country_name_mappings ["paris"; "Paris"; "atlantis"] !! "Paris" = None.
Proof.
  split.
  - apply (country_name_mappings_spec ["paris"; "Paris"; "atlantis"] "paris" "FR").
    split; [now left|vm_compute; reflexivity].
  - vm_compute. reflexivity.
Defined.

(** ** extract_entities.py: what the geocoder contributes *)

Lemma upper_char_idem (c : ascii) : Py.upper_char (Py.upper_char c) = Py.upper_char c.
Proof. destruct c as [[] [] [] [] [] [] [] []]; reflexivity. Qed.

Lemma upper_idem (s : string) : Py.upper (Py.upper s) = Py.upper s.
Proof.
  unfold Py.upper. induction s as [|c s IH]; simpl; [reflexivity|].
  now rewrite upper_char_idem, IH.
Qed.

Lemma upper_of_upper_letters (s : string) :
  Py.sforall Py.is_upper s = true -> Py.upper s = s.
Proof.
  unfold Py.upper. induction s as [|c s IH]; simpl; [reflexivity|].
  intros H. apply andb_true_iff in H as [Hc Hs]. rewrite (IH Hs). f_equal.
  revert Hc. clear. destruct c as [[] [] [] [] [] [] [] []]; vm_compute; congruence.
Qed.

Definition no_comma (s : string) : Prop :=
  Py.sforall (fun c => negb (Ascii.eqb c ",")) s = true.

Lemma split_head_no_comma (s : string) : no_comma (Py.split_head "," s).
Proof.
  unfold no_comma. induction s as [|c s IH]; simpl; [reflexivity|].
  destruct (Ascii.eqb c ",") eqn:Hc; simpl; [reflexivity|]. now rewrite Hc, IH.
Qed.

Lemma accept_place_hit (data : json) (hit : geo_hit) :
  accept_place data = Ok (Some hit) ->
  Py.upper (country_code hit) = country_code hit /\ no_comma (city hit).
Proof.
  unfold accept_place. munfold.
  destruct (J.truthy data); [|discriminate].
  destruct (json_len data) as [n|]; [|discriminate]. cbn [Res_bind].
  destruct (0 <? n)%nat; [|discriminate].
  destruct (J.getitem0 data) as [place|]; [|discriminate]. cbn [Res_bind].
  destruct (J.get place "type" (JStr "")) as [ty|]; [|discriminate].
  destruct (J.get place "class" (JStr "")) as [cl|]; [|discriminate].
  destruct (J.get place "addresstype" (JStr "")) as [at_|]; [|discriminate].
  cbn [Res_bind].
  destruct (_ || _); [|discriminate].
  destruct (J.get place "address" (JObj [])) as [addr|]; [|discriminate].
  cbn [Res_bind].
  destruct (J.get addr "country_code" (JStr "")) as [cc|]; [|discriminate].
  cbn [Res_bind].
  destruct (J.as_str cc) as [cc_s|]; [|discriminate].
  destruct (J.get place "display_name" (JStr "")) as [dn|]; [|discriminate].
  cbn [Res_bind].
  destruct (J.as_str dn) as [dn_s|]; [|discriminate].
  intros [= <-]. cbn [country_code city]. split; [apply upper_idem|apply split_head_no_comma].
Qed.

Lemma geo_hit_of_shape (w : World) (i : nat) (n : string) (hit : geo_hit) :
  geo_hit_of w i n = Some hit ->
  Py.upper (country_code hit) = country_code hit /\ no_comma (city hit).
Proof.
  unfold geo_hit_of. destruct (geocoder_get w i n) as [|data]; [discriminate|].
  destruct (accept_place data) as [h|] eqn:Ha; [|discriminate].
  intros ->. now apply (accept_place_hit data).
Qed.

(** [s.split(",")[0]] is [s] itself, or what stands before its first comma. *)
Lemma split_head_spec (s : string) :
  s = Py.split_head "," s \/ exists rest, s = Py.split_head "," s ++ "," ++ rest.
Proof.
  induction s as [|c s IH]; [now left|]. cbn [Py.split_head].
  destruct (Ascii.eqb c ",") eqn:Hc.
  - apply Ascii.eqb_eq in Hc. subst c. right. now exists s.
  - destruct IH as [IH|(rest & IH)].
    + left. now f_equal.
    + right. exists rest. rewrite ReSpec.append_cons. now f_equal.
Qed.

(** The place [_geocode_city] read its result from. *)
Lemma accept_place_source (data : json) (hit : geo_hit) :
  accept_place data = Ok (Some hit) ->
  exists place display_name,
    J.getitem0 data = Ok place /\
    J.get place "display_name" (JStr "") = Ok (JStr display_name) /\
    city hit = Py.split_head "," display_name.
Proof.
  unfold accept_place. munfold.
  destruct (J.truthy data); [|discriminate].
  destruct (json_len data) as [n|]; [|discriminate]. cbn [Res_bind].
  destruct (0 <? n)%nat; [|discriminate].
  destruct (J.getitem0 data) as [place|]; [|discriminate]. cbn [Res_bind].
  destruct (J.get place "type" (JStr "")) as [ty|]; [|discriminate].
  destruct (J.get place "class" (JStr "")) as [cl|]; [|discriminate].
  destruct (J.get place "addresstype" (JStr "")) as [at_|]; [|discriminate].
  cbn [Res_bind].
  destruct (_ || _); [|discriminate].
  destruct (J.get place "address" (JObj [])) as [addr|]; [|discriminate].
  cbn [Res_bind].
  destruct (J.get addr "country_code" (JStr "")) as [cc|]; [|discriminate].
  cbn [Res_bind].
  destruct (J.as_str cc) as [cc_s|]; [|discriminate].
  destruct (J.get place "display_name" (JStr "")) as [dn|] eqn:Hdn; [|discriminate].
  cbn [Res_bind].
  destruct dn as [| | |dn_s| |]; try discriminate. cbn [J.as_str].
  intros [= <-]. cbn [city]. now exists place, dn_s.
Qed.

(** X11: [_geocode_city] never raises and sends exactly one request; when it
    accepts a place, the country code it returns is upper-case, and the city
    is the display name of the first place of the reply, cut before its
    first comma: the whole name when it has no comma. *)
Theorem geocode_city_result (w : World) (i : nat) (city_name : string) (timeout : Q) :
  is_ok (fst (_geocode_city w i city_name timeout)) = true /\
  snd (_geocode_city w i city_name timeout) = [GeoCall city_name timeout] /\
  forall hit,
    fst (_geocode_city w i city_name timeout) = Ok (Some hit) ->
    Py.upper (country_code hit) = country_code hit /\
    no_comma (city hit) /\
    exists data place display_name,
      geocoder_get w i city_name = HttpJson data /\
      J.getitem0 data = Ok place /\
      J.get place "display_name" (JStr "") = Ok (JStr display_name) /\
      (display_name = city hit \/ exists rest, display_name = city hit ++ "," ++ rest).
Proof.
  rewrite geocode_city_eq. cbn [fst snd].
  split; [reflexivity|]. split; [reflexivity|].
  intros hit [= H].
  destruct (geo_hit_of_shape w i city_name hit H) as [Hup Hcomma].
  split; [exact Hup|]. split; [exact Hcomma|].
  unfold geo_hit_of in H. destruct (geocoder_get w i city_name) as [|data]; [discriminate|].
  destruct (accept_place data) as [h|] eqn:Ha; [|discriminate]. subst h.
  apply accept_place_source in Ha as (place & display_name & Hp & Hd & ->).
  exists data, place, display_name. repeat split; try assumption.
  apply split_head_spec.
Qed.

Lemma geocode_city_result_witness :
  fst (_geocode_city world_paris_texas 0 "Paris" 1)
    = Ok (Some {| city := "Paris"; country_code := "US" |}) /\
  exists rest, "Paris, Lamar County, Texas" = "Paris" ++ "," ++ rest.
Proof.
  assert (H : fst (_geocode_city world_paris_texas 0 "Paris" 1)
              = Ok (Some {| city := "Paris"; country_code := "US" |}))
    by (vm_compute; reflexivity).
  split; [exact H|].
  destruct (geocode_city_result world_paris_texas 0 "Paris" 1) as (_ & _ & Hhit).
  destruct (Hhit _ H) as (_ & _ & data & place & display_name & Hd & Hp & Hn & Hc).
  vm_compute in Hd. injection Hd as <-. vm_compute in Hp. injection Hp as <-.
  vm_compute in Hn. injection Hn as <-.
  destruct Hc as [Hc|Hc]; [discriminate|exact Hc].
Defined.

(** ** extract_entities.py: the country map and the entities *)

Lemma validated_cities_In (w : World) (candidates : gset string) (a b : string) :
  In (a, b) (validated_cities w candidates) -> Py.upper b = b.
Proof.
  unfold validated_cities.
  generalize (elements candidates). intros names.
  assert (H : forall (f : nat -> string -> Res (option geo_hit)) (acc : list (string * string)),
            (forall i n hit, f i n = Ok (Some hit) ->
                             Py.upper (country_code hit) = country_code hit) ->
            (forall a b, In (a, b) acc -> Py.upper b = b) ->
            In (a, b)
               (foldl (fun validated (result : Res (option geo_hit)) =>
                         match result with
                         | Ok (Some hit) => dict_set validated (city hit) (country_code hit)
                         | _ => validated
                         end) acc (imap f names)) ->
            Py.upper b = b).
  { induction names as [|n names IH]; intros f acc Hf Hacc; simpl.
    - apply Hacc.
    - apply IH.
      + intros i n' hit. apply Hf.
      + intros a' b'. destruct (f 0%nat n) as [[hit|]|] eqn:H0; try apply Hacc.
        intros Hin. apply dict_set_In in Hin as [[= -> ->]|Hin]; [|now apply (Hacc a')].
        apply (Hf _ _ _ H0). }
  apply H.
  - intros i n hit [= Hh]. now apply (geo_hit_of_shape w i n hit).
  - intros ? ? [].
Qed.

Lemma fallback_map_lookup (validated : list (string * string)) (k c : string) :
  fallback_map validated !! k = Some c ->
  exists city, In (city, c) validated /\ Py.lower city = k.
Proof.
  unfold fallback_map.
  assert (H : forall (acc : gmap string string),
            foldl (fun (m : gmap string string) kv => <[Py.lower kv.1 := kv.2]> m)
                  acc validated !! k = Some c ->
            (exists city, In (city, c) validated /\ Py.lower city = k) \/ acc !! k = Some c).
  { induction validated as [|[a b] l IH]; intros acc; simpl; [auto|].
    intros H. apply IH in H as [(city & Hin & Hk)|H]; [left; eauto|].
    destruct (decide (Py.lower a = k)) as [<-|Hne].
    - rewrite lookup_insert_eq in H. injection H as ->. left. eauto.
    - rewrite lookup_insert_ne in H by exact Hne. auto. }
  intros Hl. apply H in Hl as [Hl|Hl]; [exact Hl|].
  rewrite lookup_empty in Hl. discriminate.
Qed.

Lemma names_in_inv (es : list entity) (ty k : string) :
  k ∈ map value (List.filter (fun e => String.eqb (type e) ty) es) ->
  exists e, In e es /\ value e = k /\ type e = ty.
Proof.
  intros H. apply list_elem_of_In, in_map_iff in H as (e & Hv & He).
  apply filter_In in He as [He Hty]. apply String.eqb_eq in Hty. eauto.
Qed.

(** X12: in whatever [extract_entities] returns, every key of the country
    map is the value of a city or country entity of the same result, and
    every country code is upper-case. *)
Theorem country_map_wellformed (w : World) (text : string) (timeout : Q)
    (es : list entity) (cm : gmap string string) (ty : json) (k c : string) :
  fst (extract_entities w text timeout) = Ok (es, cm, ty) ->
  cm !! k = Some c ->
  (exists e, In e es /\ value e = k /\ (type e = "city" \/ type e = "country")) /\
  Py.upper c = c.
Proof.
  intros Hext Hk. pose proof (extracted_entities_ok _ _ _ _ _ _ Hext) as Hok.
  destruct (has_api_key w) eqn:Hkey;
    [|rewrite (extract_entities_no_key _ _ _ Hkey) in Hext; discriminate].
  rewrite (extract_entities_eq _ _ _ Hkey) in Hext.
  destruct (llm_entities w text) as [[es' typos]|]; cbv zeta in Hext; cbn [fst] in Hext;
    injection Hext as <- <- <-.
  - rewrite merged_map_lookup in Hk.
    destruct (bool_decide (k ∈ country_names es')) eqn:Hcn;
      destruct (bool_decide (is_Some (mappings !! k))) eqn:Hs; cbn [andb] in Hk.
    + apply bool_decide_eq_true, names_in_inv in Hcn as (e & He & Hv & Ht).
      split; [eauto 6|]. apply mappings_entry_ok in Hk as (_ & _ & Hu).
      now apply upper_of_upper_letters.
    + rewrite andb_false_r in Hk. apply geocoded_map_lookup in Hk as (i & n & Hi & Hn & Hc & _).
      apply list_elem_of_lookup_2 in Hi. pose proof Hi as Hi'.
      apply names_in_inv in Hi as (e & He & Hv & Ht).
      assert (Hlow : Py.lower n = n).
      { rewrite Forall_forall in Hok. apply list_elem_of_In in He.
        destruct (Hok e He) as [Hl _]. now rewrite <- Hv. }
      split; [exists e; rewrite Hv, <- Hn, Hlow; auto|].
      unfold geo_code in Hc. destruct (geo_hit_of w i n) as [hit|] eqn:Hh; [|discriminate].
      injection Hc as <-. now apply (geo_hit_of_shape w i n hit).
    + destruct (bool_decide (k ∈ city_names es')) eqn:Hci; cbn [andb] in Hk.
      * apply bool_decide_eq_true, names_in_inv in Hci as (e & He & Hv & Ht).
        split; [eauto 6|]. apply mappings_entry_ok in Hk as (_ & _ & Hu).
        now apply upper_of_upper_letters.
      * apply geocoded_map_lookup in Hk as (i & n & Hi & Hn & Hc & _).
        apply list_elem_of_lookup_2 in Hi.
        apply bool_decide_eq_false in Hci. exfalso. apply Hci.
        apply names_in_inv in Hi as (e & He & Hv & Ht).
        assert (Hlow : Py.lower n = n).
        { rewrite Forall_forall in Hok. apply list_elem_of_In in He.
          destruct (Hok e He) as [Hl _]. now rewrite <- Hv. }
        rewrite <- Hn, Hlow, <- Hv. now apply city_names_in.
    + rewrite andb_false_r in Hk. apply geocoded_map_lookup in Hk as (i & n & Hi & Hn & Hc & _).
      apply list_elem_of_lookup_2 in Hi.
      apply names_in_inv in Hi as (e & He & Hv & Ht).
      assert (Hlow : Py.lower n = n).
      { rewrite Forall_forall in Hok. apply list_elem_of_In in He.
        destruct (Hok e He) as [Hl _]. now rewrite <- Hv. }
      split; [exists e; rewrite Hv, <- Hn, Hlow; auto|].
      unfold geo_code in Hc. destruct (geo_hit_of w i n) as [hit|] eqn:Hh; [|discriminate].
      injection Hc as <-. now apply (geo_hit_of_shape w i n hit).
  - apply fallback_map_lookup in Hk as (city & Hin & Hl). split.
    + exists (city_entity (city, c)). split; [|split; [exact Hl|now left]].
      unfold fallback_entities. apply in_app_iff. left. now apply in_map.
    + apply (validated_cities_In _ _ _ _ Hin).
Qed.

Lemma country_map_wellformed_witness :
  exists e, In e [{| type := "city"; value := "paris" |}] /\ value e = "paris".
Proof.
  destruct (country_map_wellformed world_paris "We fly to Paris" 1
              [{| type := "city"; value := "paris" |}] {["paris" := "FR"]} no_typos
              "paris" "FR") as [(e & He & Hv & _) _].
  - vm_compute. reflexivity.
  - vm_compute. reflexivity.
  - eauto.
Defined.

(** ** extract_entities.py: what the regex fallback can find *)

Lemma restaurants_fallback_nil (text : string) : _extract_restaurants_fallback text = [].
Proof.
  unfold _extract_restaurants_fallback. cbv zeta.
  induction restaurant_keywords as [|k l IH]; simpl; [reflexivity|].
  rewrite IH. now destruct (Py.contains k (normalize_text text)).
Qed.

Lemma hotels_fallback_eq (text : string) :
  _extract_hotels_fallback text
  = if Py.contains "chapter roma" (normalize_text text) then ["Chapter Roma"] else [].
Proof.
  unfold _extract_hotels_fallback, hotel_keywords. cbv zeta.
  generalize (normalize_text text). intros n. cbn [flat_map String.eqb Ascii.eqb Bool.eqb app].
  repeat match goal with
         | |- context [if Py.contains ?k n then [] else []] =>
             replace (if Py.contains k n then @nil string else []) with (@nil string)
               by (now destruct (Py.contains k n))
         end.
  cbn [app]. now destruct (Py.contains "chapter roma" n).
Qed.

(** X13: the regex fallback of entity extraction never raises; it returns
    only city entities and, when the normalized text contains "chapter
    roma", the one hotel entity "chapter roma"; never a country, a
    restaurant or another hotel; and its typos are all null. *)
Theorem fallback_entities_kinds (w : World) (text : string) (timeout : Q) :
  exists es cm,
    fst (_fallback_extract_entities w text timeout) = Ok (es, cm, no_typos) /\
    (forall e, In e es ->
               type e = "city" \/ e = {| type := "hotel"; value := "chapter roma" |}) /\
    (In {| type := "hotel"; value := "chapter roma" |} es <->
     Py.contains "chapter roma" (normalize_text text) = true) /\
    _extract_restaurants_fallback text = [].
Proof.
  rewrite fallback_extract_entities_eq. cbv zeta. cbn [fst].
  do 2 eexists. split; [reflexivity|].
  unfold fallback_entities. rewrite restaurants_fallback_nil, hotels_fallback_eq.
  cbn [map]. rewrite app_nil_r.
  repeat split.
  - intros e He. apply in_app_iff in He as [He|He].
    + apply in_map_iff in He as (kv & <- & _). now left.
    + destruct (Py.contains "chapter roma" (normalize_text text)); [|destruct He].
      destruct He as [<-|[]]. right. reflexivity.
  - intros He. apply in_app_iff in He as [He|He].
    + apply in_map_iff in He as (kv & Hkv & _). discriminate.
    + destruct (Py.contains "chapter roma" (normalize_text text)); [reflexivity|destruct He].
  - intros ->. apply in_app_iff. right. left. reflexivity.
Qed.

(** X14: both gatherers send one geocoding request per name they are given,
    in order and duplicates included, and never raise, whatever the
    replies. *)
Theorem one_geocoding_call_per_name (w : World) (names : list string)
    (candidates : gset string) (timeout : Q) :
  is_ok (fst (_get_country_codes w names timeout)) = true /\
  snd (_get_country_codes w names timeout) = map (fun n => GeoCall n timeout) names /\
  is_ok (fst (_validate_cities_fallback w candidates timeout)) = true /\
  snd (_validate_cities_fallback w candidates timeout)
    = map (fun n => GeoCall n timeout) (elements candidates) /\
  length (snd (_validate_cities_fallback w candidates timeout)) = size candidates.
Proof.
  rewrite get_country_codes_eq, validate_cities_eq. cbn [fst snd].
  repeat split. now rewrite length_map.
Qed.

(** ** extract_contact.py: the checks of the LLM path *)

(** X15: in every contact [extract_contact] returns, the email is falsy or
    passes [is_valid_email], and the ZIP code is falsy or passes
    [is_valid_zip]. *)
Theorem contact_email_zip_checked (w : World) (text : string) (d : contact_dict) :
  fst (extract_contact w text) = Ok d ->
  (J.truthy (email d) = false \/ exists e, email d = JStr e /\ is_valid_email e = true) /\
  (J.truthy (zip d) = false \/ exists z, zip d = JStr z /\ is_valid_zip z = true).
Proof.
  assert (Hfb : forall d', d' = _fallback_extract_contact text ->
            (J.truthy (email d') = false \/
             exists e, email d' = JStr e /\ is_valid_email e = true) /\
            (J.truthy (zip d') = false \/
             exists z, zip d' = JStr z /\ is_valid_zip z = true)).
  { intros d' ->. unfold _fallback_extract_contact. cbn [email zip]. split.
    - destruct (_extract_email_fallback text) as [e|]; [|now left].
      destruct (nonempty e); simpl; [|now left].
      destruct (is_valid_email e) eqn:He; [right; eauto|now left].
    - destruct (_extract_zip_fallback text) as [z|]; [|now left].
      destruct (nonempty z); simpl; [|now left].
      destruct (is_valid_zip z) eqn:Hz; [right; eauto|now left]. }
  unfold extract_contact. destruct (has_api_key w); cbn [negb]; [|discriminate].
  unfold try_except, try_except_decode, loads. munfold.
  destruct (llm_content w ExtractContact text) as [[c|e] t]; cbn [fst snd];
    [|intros [= <-]; now apply Hfb].
  destruct (json_loads w (strip_code_fence c)) as [parsed|]; cbn [fst snd];
    [|intros [= <-]; now apply Hfb].
  destruct (clean_contact parsed) as [d'|e] eqn:Hc; cbn [fst snd];
    [|destruct e; cbn [fst]; intros [= <-]; now apply Hfb].
  intros [= <-]. clear Hfb. revert Hc. unfold clean_contact. munfold.
  destruct (J.get parsed "first_name" JNull) as [fn|]; [|discriminate].
  destruct (J.get parsed "last_name" JNull) as [ln|]; [|discriminate].
  destruct (J.get parsed "email" JNull) as [em|]; [|discriminate].
  destruct (J.get parsed "phone" JNull) as [ph|]; [|discriminate].
  destruct (J.get parsed "zip" JNull) as [zp|]; [|discriminate].
  assert (Hem : forall em', (if J.truthy em
                             then match J.as_re_arg em with
                                  | Ok s => Ok (if negb (is_valid_email s) then JNull else em)
                                  | Raise e => Raise e
                                  end
                             else Ok em) = Ok em' ->
                J.truthy em' = false \/ exists e, em' = JStr e /\ is_valid_email e = true).
  { intros em'. destruct (J.truthy em) eqn:Ht; [|intros [= <-]; now left].
    destruct em; try discriminate. simpl.
    destruct (is_valid_email s) eqn:Hv; intros [= <-]; [right; eauto|now left]. }
  assert (Hzp : forall zp', (if J.truthy zp
                             then match J.as_re_arg zp with
                                  | Ok s => Ok (if negb (is_valid_zip s) then JNull else zp)
                                  | Raise e => Raise e
                                  end
                             else Ok zp) = Ok zp' ->
                J.truthy zp' = false \/ exists z, zp' = JStr z /\ is_valid_zip z = true).
  { intros zp'. destruct (J.truthy zp) eqn:Ht; [|intros [= <-]; now left].
    destruct zp; try discriminate. simpl.
    destruct (is_valid_zip s) eqn:Hv; intros [= <-]; [right; eauto|now left]. }
  destruct (if J.truthy em then _ else _) as [em'|] eqn:He; [|discriminate].
  destruct (if J.truthy ph then _ else _) as [ph'|]; [|discriminate].
  destruct (if J.truthy zp then _ else _) as [zp'|] eqn:Hz; [|discriminate].
  intros [= <-]. cbn [email zip]. split; [now apply Hem|now apply Hzp].
Qed.

Lemma contact_email_zip_checked_witness :
  J.truthy (email (_fallback_extract_contact "write to al@x.io, zip 10001")) = false \/
  exists e, email (_fallback_extract_contact "write to al@x.io, zip 10001") = JStr e /\
            is_valid_email e = true.
Proof.
  apply (contact_email_zip_checked world_offline "write to al@x.io, zip 10001").
  vm_compute. reflexivity.
Defined.

Ltac ok_bind H a Ha :=
  let t := fresh "t" in apply bind_ok_inv in H as (a & t & Ha & H).
(** ** app.py: the parts of a successful response *)

Definition filled (o : option string) : Prop := exists s, o = Some s /\ s <> EmptyString.

Lemma optional_str_filled (name : string) (j : json) (o : option string) :
  optional_str name j = Ok o -> J.truthy j = true -> filled o.
Proof.
  destruct j; simpl; try discriminate. intros [= ?] Ht; subst o. exists s. split; [reflexivity|].
  intros ->. discriminate.
Qed.

Lemma new_Contact_filled (d : contact_dict) (c : Contact.t) :
  new_Contact d = Ok c -> any_contact_value d = true ->
  filled (Contact.first_name c) \/ filled (Contact.last_name c) \/
  filled (Contact.email c) \/ filled (Contact.phone c) \/ filled (Contact.zip c).
Proof.
  unfold new_Contact, any_contact_value. munfold.
  destruct (optional_str "first_name" (first_name d)) as [fn|] eqn:H1; [|discriminate].
  destruct (optional_str "last_name" (last_name d)) as [ln|] eqn:H2; [|discriminate].
  destruct (optional_str "email" (email d)) as [em|] eqn:H3; [|discriminate].
  destruct (optional_str "phone" (phone d)) as [ph|] eqn:H4; [|discriminate].
  destruct (optional_str "zip" (zip d)) as [zp|] eqn:H5; [|discriminate].
  intros [= ?]; subst c. cbn [existsb Contact.first_name Contact.last_name Contact.email
                      Contact.phone Contact.zip].
  rewrite !orb_true_iff. intros [H|[H|[H|[H|[H|H]]]]]; try discriminate;
    eauto 6 using optional_str_filled.
Qed.

(** X16: a successful response leaves out what is empty: a contact that is
    present has at least one non-empty field, and an entity list that is
    present is not empty, holds the extracted entities in order, each with a
    lower-case value and one of the four types. *)
Theorem response_parts (w : World) (request : NormalizeIn.t) (response : NormalizeOut.t) :
  fst (normalize_message w request) = Ok response ->
  (forall c, NormalizeOut.contact response = Some c ->
             filled (Contact.first_name c) \/ filled (Contact.last_name c) \/
             filled (Contact.email c) \/ filled (Contact.phone c) \/
             filled (Contact.zip c)) /\
  (forall l, NormalizeOut.entities response = Some l ->
             l <> [] /\
             (exists es cm ty,
                fst (extract_entities w (NormalizeIn.text request) (HTTP_TIMEOUT_SECONDS w))
                  = Ok (es, cm, ty) /\
                l = map (fun e => {| Entity.type := type e; Entity.value := value e |}) es) /\
             forall e, In e l ->
                       Py.lower (Entity.value e) = Entity.value e /\
                       In (Entity.type e) ["city"; "country"; "hotel"; "restaurant"]).
Proof.
  intros H. unfold normalize_message in H. apply try_except_ok_inv in H.
  ok_bind H contact_data Hcontact_data.
  ok_bind H contact Hcontact.
  ok_bind H extracted Hextracted.
  destruct extracted as [[entities_data country_map] typo_data].
  ok_bind H entities Hentities.
  ok_bind H category Hcategory.
  ok_bind H enrichment_data Henrich.
  ok_bind H enrichment_data' Hupdate.
  ok_bind H enrichment Henrichment.
  rewrite fst_lift in H. unfold new_NormalizeOut in H.
  destruct (Py.mem category categories); [|discriminate].
  injection H as <-. cbn [NormalizeOut.contact NormalizeOut.entities].
  assert (Hext : fst (extract_entities w (NormalizeIn.text request) (HTTP_TIMEOUT_SECONDS w))
                 = Ok (entities_data, country_map, typo_data)) by (now rewrite Hextracted).
  split.
  - intros c Hc0. subst contact. destruct (any_contact_value contact_data) eqn:Hany.
    + revert Hcontact. munfold. unfold lift.
      destruct (new_Contact contact_data) as [c'|] eqn:Hc; [|discriminate].
        intros [= ? _]; subst c'. now apply (new_Contact_filled contact_data).
    + revert Hcontact. munfold. discriminate.
  - intros l Hl0. subst entities.
    destruct entities_data as [|e0 es0]; [revert Hentities; munfold; discriminate|].
    revert Hentities. munfold. unfold lift.
    destruct (new_Entities (e0 :: es0)) as [l'|] eqn:Hl; [|discriminate].
    intros [= ? _]; subst l. apply new_Entities_map in Hl. subst l'.
    split; [discriminate|]. split; [eauto 6|].
    intros E HE. apply in_map_iff in HE as (e & <- & He). cbn.
    pose proof (extracted_entities_ok _ _ _ _ _ _ Hext) as Hok.
    rewrite Forall_forall in Hok. apply Hok. now apply list_elem_of_In.
Qed.

Lemma response_parts_witness :
  exists response l,
    fst (normalize_message world_paris
           {| NormalizeIn.message_id := "m"; NormalizeIn.text := "We fly to Paris" |})
      = Ok response /\
    NormalizeOut.entities response = Some l /\ l <> [].
Proof.
  eexists. eexists. split; [vm_compute; reflexivity|]. split; [reflexivity|].
  eapply (response_parts world_paris
            {| NormalizeIn.message_id := "m"; NormalizeIn.text := "We fly to Paris" |}).
  - vm_compute. reflexivity.
  - reflexivity.
Defined.

(** ** app.py: an LLM outage *)

Lemma with_apis_same (w : World) : with_apis w (geocoder_get w) (emergency_get w) = w.
Proof. now destruct w. Qed.

Lemma fallback_contact_valid (text : string) :
  is_ok (new_Contact (_fallback_extract_contact text)) = true.
Proof.
  unfold new_Contact, _fallback_extract_contact.
  cbn [first_name last_name email phone zip]. munfold.
  destruct (_extract_names_fallback text) as [[|a [|b l]]|];
    destruct (_extract_email_fallback text) as [e|];
    destruct (_extract_phone_fallback text) as [p|];
    destruct (_extract_zip_fallback text) as [z|];
    repeat match goal with |- context [if ?b then _ else _] => destruct b end;
    reflexivity.
Qed.

(** X17: when the API key is set and every call to the LLM fails, the
    request still succeeds, whatever the geocoder and the emergency-number
    API do: its contact is the regex fallback's and its category the
    keyword fallback's. *)
Theorem llm_outage_still_succeeds (w : World) (request : NormalizeIn.t) :
  has_api_key w = true ->
  (forall op text, llm_post w op text = HttpFailed) ->
  exists response,
    fst (normalize_message w request) = Ok response /\
    NormalizeOut.category response = _fallback_categorize (NormalizeIn.text request) /\
    status (post_normalize w request) = 200%Z.
Proof.
  intros Hkey Hllm.
  assert (Hcontent : forall op text, fst (llm_content w op text) = Raise HTTPError).
  { intros op text. unfold llm_content, http. rewrite Hllm. reflexivity. }
  assert (Hok : is_ok (fst (normalize_message w request)) = true).
  { rewrite <- (with_apis_same w) at 1. apply request_succeeds.
    - exact Hkey.
    - exists (_fallback_extract_contact (NormalizeIn.text request)). split.
      + unfold extract_contact. rewrite Hkey. cbn [negb]. unfold try_except. munfold.
        specialize (Hcontent ExtractContact (NormalizeIn.text request)).
        destruct (llm_content w ExtractContact (NormalizeIn.text request)) as [[c|e] tr];
          [discriminate|reflexivity].
      + intros _. apply fallback_contact_valid.
    - unfold typos_of, llm_entities. rewrite Hcontent. exists
        [("city_typo", JNull); ("country_typo", JNull);
         ("phone_number_typo", JNull); ("zip_code_typo", JNull)].
      split; [reflexivity|]. intros k v Hin. simpl in Hin.
      repeat (destruct Hin as [[= <- <-]|Hin];
              [split; [discriminate|intros _; now left]|]).
      contradiction. }
  destruct (fst (normalize_message w request)) as [response|] eqn:Hr; [|discriminate].
  exists response. split; [reflexivity|]. split.
  - pose proof Hr as Hr'. unfold normalize_message in Hr'. apply try_except_ok_inv in Hr'.
    ok_bind Hr' contact_data Hcontact_data.
    ok_bind Hr' contact Hcontact.
    ok_bind Hr' extracted Hextracted.
    destruct extracted as [[entities_data country_map] typo_data].
    ok_bind Hr' entities Hentities.
    ok_bind Hr' category Hcategory.
    ok_bind Hr' enrichment_data Henrich.
    ok_bind Hr' enrichment_data' Hupdate.
    ok_bind Hr' enrichment Henrichment.
    rewrite fst_lift in Hr'. unfold new_NormalizeOut in Hr'.
    destruct (Py.mem category categories); [|discriminate].
    injection Hr' as <-. cbn [NormalizeOut.category].
    revert Hcategory. unfold categorize. rewrite Hkey. cbn [negb]. unfold try_except. munfold.
    specialize (Hcontent Categorize (NormalizeIn.text request)).
    destruct (llm_content w Categorize (NormalizeIn.text request)) as [[c|e] tr];
      [discriminate|]. intros [= ? _]; now subst category.
  - unfold post_normalize. now rewrite Hr.
Qed.

Lemma llm_outage_still_succeeds_witness :
  exists response,
    fst (normalize_message world_offline sample_request) = Ok response /\
    NormalizeOut.category response = "urgent".
Proof.
  destruct (llm_outage_still_succeeds world_offline sample_request)
    as (response & Hr & Hc & _); [reflexivity|reflexivity|].
  exists response. split; [exact Hr|]. rewrite Hc. reflexivity.
Defined.

(** ** text_utils.py: normalize_text *)

(** The leading whitespace of a string, and what follows it. *)
Fixpoint leading_space (s : string) : string :=
  match s with
  | String c s' => if Py.is_space c then String c (leading_space s') else EmptyString
  | EmptyString => EmptyString
  end.

Fixpoint after_space (s : string) : string :=
  match s with
  | String c s' => if Py.is_space c then after_space s' else s
  | EmptyString => EmptyString
  end.

(** Every run of whitespace becomes one space; [inside] tells that the
    run has begun before [s]. *)
Fixpoint collapse (inside : bool) (s : string) : string :=
  match s with
  | EmptyString => EmptyString
  | String c s' =>
      if Py.is_space c
      then if inside then collapse true s' else String " " (collapse true s')
      else String c (collapse false s')
  end.

Lemma leading_after (s : string) : leading_space s ++ after_space s = s.
Proof.
  induction s as [|c s IH]; [reflexivity|]. simpl.
  destruct (Py.is_space c); [|reflexivity]. rewrite ReSpec.append_cons. now f_equal.
Qed.

Lemma after_space_length (s : string) : (String.length (after_space s) <= String.length s)%nat.
Proof.
  induction s as [|c s IH]; [reflexivity|]. simpl.
  destruct (Py.is_space c); simpl; lia.
Qed.

(** [\s*] is greedy: before a continuation that accepts whatever is left,
    it takes all the leading whitespace. *)
Lemma star_space_greedy {A : Type} (k : option ascii -> string -> Re.caps -> option A)
    (prev : option ascii) (s : string) (cs : Re.caps) :
  (forall p s', is_Some (k p s' cs)) ->
  exists p, Re.run (Re.Star Re.sp) prev s cs k = k p (after_space s) cs.
Proof.
  intros Hk. cbn [Re.run].
  match goal with
  | |- context [?f (String.length s) prev s cs] => set (loop := f)
  end.
  assert (Hn : (String.length s <= String.length s)%nat) by lia. revert Hn.
  generalize (String.length s) at 2 3. intros n. revert prev s.
  induction n as [|n IH]; intros prev s Hn.
  - destruct s; [|simpl in Hn; lia]. now exists prev.
  - destruct s as [|c s]; [now exists prev|].
    change (loop (S n) prev (String c s) cs)
      with (match (if Py.is_space c
                   then if (String.length s <? String.length (String c s))%nat
                        then loop n (Some c) s cs else None
                   else None)
            with Some a => Some a | None => k prev (String c s) cs end).
    cbn [after_space].
    destruct (Py.is_space c) eqn:Hc; [|now exists prev].
    replace (String.length s <? String.length (String c s))%nat with true
      by (symmetry; apply Nat.ltb_lt; simpl; lia).
    destruct (IH (Some c) s) as (p & ->); [simpl in Hn; lia|].
    exists p. now destruct (Hk p (after_space s)) as (a & ->).
Qed.

Lemma plus_space_match (prev : option ascii) (s : string) :
  match s with
  | String c s' =>
      if Py.is_space c
      then exists m, Re.match_here (Re.Plus Re.sp) prev s = Some m /\
                     Re.matched m = String c (leading_space s')
      else Re.match_here (Re.Plus Re.sp) prev s = None
  | EmptyString => Re.match_here (Re.Plus Re.sp) prev s = None
  end.
Proof.
  destruct s as [|c s']; [reflexivity|].
  unfold Re.match_here, Re.Plus. cbn [Re.run Re.sp].
  destruct (Py.is_space c) eqn:Hc; [|reflexivity].
  edestruct (star_space_greedy
               (fun prev' s'0 cs =>
                  Some {| Re.matched := Re.consumed (String c s') s'0; Re.groups := cs;
                          Re.rest := s'0; Re.last := prev' |})
               (Some c) s' []) as (p & Hp); [eauto|].
  change (Re.Star (Re.Cls Py.is_space)) with (Re.Star Re.sp). 
  cbn [Re.run Re.sp] in Hp |- *. rewrite Hp. eexists. split; [reflexivity|].
  cbn [Re.matched]. rewrite <- (leading_after s') at 1.
  rewrite <- ReSpec.append_cons. apply ReSpec.consumed_append.
Qed.

Lemma leading_space_length (s : string) :
  leading_space s = EmptyString ->
  match s with String c _ => Py.is_space c = false | EmptyString => True end.
Proof. destruct s as [|c s]; [auto|]. simpl. now destruct (Py.is_space c). Qed.

(** [re.sub(r'\s+', ' ', s)] computed from the left is [collapse]. *)
Lemma sub_space_collapse (s : string) :
  (forall prev,
     Re.sub_from (Re.Plus Re.sp) " " prev s (String.length (leading_space s))
     = collapse true s) /\
  (forall prev, Re.sub_from (Re.Plus Re.sp) " " prev s 0 = collapse false s).
Proof.
  induction s as [|c s [IH1 IH2]]; [split; reflexivity|].
  assert (H0 : forall prev,
             Re.sub_from (Re.Plus Re.sp) " " prev (String c s) 0
             = collapse false (String c s)).
  { intros prev. pose proof (plus_space_match prev (String c s)) as Hm.
    cbv beta iota in Hm. cbn [Re.sub_from collapse]. revert Hm. destruct (Py.is_space c).
    - intros (m & -> & ->). cbn [String.length Nat.sub]. rewrite ?Nat.sub_0_r.
      rewrite IH1. reflexivity.
    - intros ->. rewrite IH2. reflexivity. }
  split; [|exact H0]. intros prev.
  destruct (Py.is_space c) eqn:Hc.
  - cbn [leading_space]. rewrite Hc. cbn [String.length Re.sub_from collapse].
    rewrite Hc. apply IH1.
  - replace (leading_space (String c s)) with EmptyString by (simpl; now rewrite Hc).
    cbn [String.length]. rewrite H0. simpl. now rewrite Hc.
Qed.

Lemma normalize_text_eq (text : string) :
  normalize_text text = collapse false (Py.lower (Py.strip text)).
Proof. unfold normalize_text, Re.sub. apply sub_space_collapse. Qed.

(** *** What the result looks like *)

Lemma lower_char_space (c : ascii) : Py.is_space (Py.lower_char c) = Py.is_space c.
Proof. destruct c as [[] [] [] [] [] [] [] []]; reflexivity. Qed.

Definition head_ok (s : string) : Prop :=
  match s with String c _ => Py.is_space c = false | EmptyString => True end.

Lemma lstrip_head (s : string) : head_ok (Py.lstrip s).
Proof.
  induction s as [|c s IH]; [exact I|]. simpl.
  destruct (Py.is_space c) eqn:Hc; [exact IH|exact Hc].
Qed.

Lemma rstrip_head (s : string) : head_ok s -> head_ok (Py.rstrip s).
Proof.
  destruct s as [|c s]; [auto|]. simpl. intros Hc. rewrite Hc, andb_false_r. exact Hc.
Qed.

Lemma lower_head (s : string) : head_ok s -> head_ok (Py.lower s).
Proof. destruct s as [|c s]; [auto|]. unfold Py.lower. simpl. now rewrite lower_char_space. Qed.

Lemma collapse_head (b : bool) (s : string) : head_ok s -> head_ok (collapse b s).
Proof. destruct s as [|c s]; [auto|]. simpl. intros H. now rewrite H. Qed.

Lemma collapse_true_head (s : string) : head_ok (collapse true s).
Proof.
  induction s as [|c s IH]; [exact I|]. simpl.
  destruct (Py.is_space c) eqn:Hc; [exact IH|exact Hc].
Qed.

Lemma head_lstrip (s : string) : head_ok s -> Py.lstrip s = s.
Proof. destruct s as [|c s]; [auto|]. simpl. now intros ->. Qed.

Lemma head_collapse (s : string) : head_ok s -> collapse true s = collapse false s.
Proof. destruct s as [|c s]; [auto|]. simpl. now intros ->. Qed.

Lemma collapse_idem (b : bool) (s : string) : collapse false (collapse b s) = collapse b s.
Proof.
  revert b. induction s as [|c s IH]; intros b; [reflexivity|]. simpl.
  destruct (Py.is_space c) eqn:Hc.
  - destruct b; [apply IH|]. cbn [collapse].
    change (Py.is_space " ") with true. cbv iota.
    rewrite (head_collapse _ (collapse_true_head s)). now rewrite IH.
  - cbn [collapse]. rewrite Hc. now rewrite IH.
Qed.

Lemma collapse_lower (b : bool) (s : string) :
  Py.lower (collapse b s) = collapse b (Py.lower s).
Proof.
  unfold Py.lower. revert b. induction s as [|c s IH]; intros b; [reflexivity|].
  cbn [Py.smap collapse]. rewrite lower_char_space.
  destruct (Py.is_space c); [destruct b|]; cbn [Py.smap];
    try (change (Py.lower_char " ") with " "%char); f_equal; apply IH.
Qed.

Definition tail_ok (s : string) : Prop := Py.rstrip s = s.

Lemma rstrip_cons (c : ascii) (s : string) :
  tail_ok (String c s) <-> tail_ok s /\ (s = EmptyString -> Py.is_space c = false).
Proof.
  unfold tail_ok. cbn [Py.rstrip]. split.
  - destruct (String.eqb (Py.rstrip s) EmptyString && Py.is_space c) eqn:Hb; [discriminate|].
    intros [= Hs]. split; [exact Hs|]. intros ->. simpl in Hb. exact Hb.
  - intros [Hs Hc]. rewrite Hs. destruct s as [|c' s']; [|reflexivity].
    simpl. now rewrite (Hc eq_refl).
Qed.

Lemma rstrip_tail (s : string) : tail_ok (Py.rstrip s).
Proof.
  induction s as [|c s IH]; [reflexivity|]. cbn [Py.rstrip].
  destruct (String.eqb (Py.rstrip s) EmptyString && Py.is_space c) eqn:Hb; [reflexivity|].
  apply rstrip_cons. split; [exact IH|]. intros Hr. rewrite Hr in Hb. exact Hb.
Qed.

Lemma lower_tail (s : string) : tail_ok s -> tail_ok (Py.lower s).
Proof.
  induction s as [|c s IH]; [auto|]. intros [Hs Hc]%rstrip_cons.
  unfold Py.lower in *. cbn [Py.smap]. apply rstrip_cons. split; [now apply IH|].
  rewrite lower_char_space. destruct s; [auto|discriminate].
Qed.

Lemma collapse_nonempty (b : bool) (s : string) :
  tail_ok s -> s <> EmptyString -> collapse b s <> EmptyString.
Proof.
  revert b. induction s as [|c s IH]; intros b; [congruence|].
  intros [Hs Hc]%rstrip_cons _. cbn [collapse].
  destruct (Py.is_space c) eqn:Hsp; [|discriminate].
  assert (s <> EmptyString) by (intros ->; specialize (Hc eq_refl); congruence).
  destruct b; [now apply IH|discriminate].
Qed.

Lemma collapse_tail (b : bool) (s : string) : tail_ok s -> tail_ok (collapse b s).
Proof.
  revert b. induction s as [|c s IH]; intros b; [auto|].
  intros [Hs Hc]%rstrip_cons. cbn [collapse].
  destruct (Py.is_space c) eqn:Hsp.
  - assert (s <> EmptyString) by (intros ->; specialize (Hc eq_refl); congruence).
    destruct b; [now apply IH|]. apply rstrip_cons. split; [now apply IH|].
    intros He. now apply collapse_nonempty in He.
  - apply rstrip_cons. split; [now apply IH|]. auto.
Qed.

(** Whitespace in a normalised text: single spaces between other
    characters. *)
Fixpoint single_spaced (s : string) : Prop :=
  match s with
  | EmptyString => True
  | String c s' =>
      (Py.is_space c = true -> c = " "%char /\ head_ok s' /\ s' <> EmptyString) /\
      single_spaced s'
  end.

Lemma collapse_single_spaced (b : bool) (s : string) :
  tail_ok s -> single_spaced (collapse b s).
Proof.
  revert b. induction s as [|c s IH]; intros b; [exact (fun _ => I)|].
  intros [Hs Hc]%rstrip_cons. cbn [collapse].
  destruct (Py.is_space c) eqn:Hsp.
  - assert (s <> EmptyString) by (intros ->; specialize (Hc eq_refl); congruence).
    destruct b; [now apply IH|]. split; [|now apply IH].
    intros _. split; [reflexivity|]. split; [apply collapse_true_head|].
    now apply collapse_nonempty.
  - split; [|now apply IH]. congruence.
Qed.

(** X18: of an ASCII text [normalize_text] yields a text without
    upper-case letters, without whitespace at either end, and whose only
    whitespace is single spaces between other characters; normalising it
    again changes nothing. *)
Theorem normalize_text_normal (text : string) :
  ascii_text text ->
  let n := normalize_text text in
  Py.lower n = n /\ Py.strip n = n /\ single_spaced n /\ normalize_text n = n.
Proof.
  intros _.
  cbv zeta. rewrite normalize_text_eq.
  set (y := Py.lower (Py.strip text)).
  assert (Hhead : head_ok y).
  { apply lower_head, rstrip_head, lstrip_head. }
  assert (Htail : tail_ok y).
  { apply lower_tail, rstrip_tail. }
  assert (Hlow : Py.lower (collapse false y) = collapse false y).
  { rewrite collapse_lower. unfold y. now rewrite lower_idem. }
  assert (Hstrip : Py.strip (collapse false y) = collapse false y).
  { unfold Py.strip. rewrite (head_lstrip _ (collapse_head false y Hhead)).
    now apply collapse_tail. }
  split; [exact Hlow|]. split; [exact Hstrip|]. split; [now apply collapse_single_spaced|].
  rewrite normalize_text_eq, Hstrip, Hlow. apply collapse_idem.
Qed.

Lemma normalize_text_normal_witness :
  normalize_text "  Lost   PASSPORT in Rome " = "lost passport in rome" /\
  normalize_text "lost passport in rome" = "lost passport in rome".
Proof.
  assert (H : normalize_text "  Lost   PASSPORT in Rome " = "lost passport in rome")
    by (vm_compute; reflexivity).
  split; [exact H|].
  pose proof (normalize_text_normal "  Lost   PASSPORT in Rome " eq_refl) as Hn.
  cbv zeta in Hn. destruct Hn as (_ & _ & _ & Hn). rewrite H in Hn. exact Hn.
Defined.

(** ** text_utils.py: is_valid_email *)

Lemma Matches_Star_Cls (p : ascii -> bool) (a b : ReSpec.pos) :
  ReSpec.Matches (Re.Star (Re.Cls p)) a b ->
  exists pre, a.1.2 = pre ++ b.1.2 /\ Py.sforall p pre = true.
Proof.
  intros H. remember (Re.Star (Re.Cls p)) as r eqn:Hr.
  induction H; try discriminate.
  - exists EmptyString. auto.
  - injection Hr as ->. destruct (IHMatches2 eq_refl) as (pre & Hs & Hp).
    inversion H; subst. simpl in *. exists (String c0 pre). simpl.
    rewrite Hs, Hp. match goal with Hpc : p c0 = true |- _ => rewrite Hpc end. auto.
Qed.

Lemma Matches_Plus_Cls (p : ascii -> bool) (a b : ReSpec.pos) :
  ReSpec.Matches (Re.Plus (Re.Cls p)) a b ->
  exists pre, a.1.2 = pre ++ b.1.2 /\ pre <> EmptyString /\ Py.sforall p pre = true.
Proof.
  intros H. inversion H as [| |? ? ? m ? H1 H2| | | | | | | |]; subst.
  apply Matches_Star_Cls in H2 as (pre & Hs & Hp).
  inversion H1; subst. simpl in *. exists (String c pre). simpl.
  rewrite Hs, Hp. match goal with Hpc : p c = true |- _ => rewrite Hpc end.
  repeat split; discriminate.
Qed.

Lemma Matches_chr (c : ascii) (a b : ReSpec.pos) :
  ReSpec.Matches (Re.chr c) a b -> a.1.2 = String c b.1.2.
Proof.
  intros H. inversion H; subst. simpl.
  match goal with Hc : Ascii.eqb _ _ = true |- _ => apply Ascii.eqb_eq in Hc; now subst end.
Qed.

(** The characters [is_valid_email] allows before and after the "@". *)
Definition local_char (c : ascii) : bool := Py.is_word c || Re.one_of ".+-" c.
Definition domain_char (c : ascii) : bool := Py.is_word c || Re.one_of ".-" c.

Lemma or_else_Some {A : Type} (x y : option A) :
  is_Some y -> is_Some (match x with Some a => Some a | None => y end).
Proof. destruct x; eauto. Qed.

(** [p*] before a continuation that accepts what follows a run of [p]:
    the greedy attempt or a shorter one succeeds. *)
Lemma star_cls_complete {A : Type} (p : ascii -> bool)
    (k : option ascii -> string -> Re.caps -> option A) (cs : Re.caps) (s : string) :
  (forall prev, is_Some (k prev s cs)) ->
  forall pre prev,
    Py.sforall p pre = true ->
    is_Some (Re.run (Re.Star (Re.Cls p)) prev (pre ++ s) cs k).
Proof.
  intros Hk pre prev Hp. cbn [Re.run].
  match goal with
  | |- context [?f (String.length (pre ++ s)) prev (pre ++ s) cs] => set (loop := f)
  end.
  assert (Hn : (String.length (pre ++ s) <= String.length (pre ++ s))%nat) by lia.
  revert Hn. generalize (String.length (pre ++ s)) at 2 3. intros n.
  revert pre prev Hp.
  induction n as [|n IH]; intros pre prev Hp Hn.
  - destruct pre; [|simpl in Hn; lia]. destruct s; [|simpl in Hn; lia]. apply Hk.
  - destruct pre as [|c pre].
    + cbn [String.append].
      destruct s as [|c s'].
      * change (loop (S n) prev EmptyString cs) with (k prev EmptyString cs). apply Hk.
      * change (loop (S n) prev (String c s') cs)
          with (match (if p c
                       then if (String.length s' <? String.length (String c s'))%nat
                            then loop n (Some c) s' cs else None
                       else None)
                with Some a => Some a | None => k prev (String c s') cs end).
        apply or_else_Some, Hk.
    + rewrite ReSpec.append_cons. cbn [Py.sforall] in Hp.
      apply andb_true_iff in Hp as [Hc Hp].
      change (loop (S n) prev (String c (pre ++ s)) cs)
        with (match (if p c
                     then if (String.length (pre ++ s)
                              <? String.length (String c (pre ++ s)))%nat
                          then loop n (Some c) (pre ++ s) cs else None
                     else None)
              with Some a => Some a | None => k prev (String c (pre ++ s)) cs end).
      rewrite Hc.
      replace (String.length (pre ++ s) <? String.length (String c (pre ++ s)))%nat
        with true by (symmetry; apply Nat.ltb_lt; simpl; lia).
      destruct (IH pre (Some c) Hp) as (a & ->);
        [rewrite ReSpec.append_cons in Hn; simpl in Hn; lia|]. eauto.
Qed.

Lemma plus_cls_complete {A : Type} (p : ascii -> bool)
    (k : option ascii -> string -> Re.caps -> option A) (cs : Re.caps) (s : string) :
  (forall prev, is_Some (k prev s cs)) ->
  forall pre prev,
    pre <> EmptyString -> Py.sforall p pre = true ->
    is_Some (Re.run (Re.Plus (Re.Cls p)) prev (pre ++ s) cs k).
Proof.
  intros Hk [|c pre] prev Hne Hp; [contradiction|].
  cbn [Py.sforall] in Hp. apply andb_true_iff in Hp as [Hc Hp].
  unfold Re.Plus. rewrite ReSpec.append_cons.
  change (Re.run (Re.Cat (Re.Cls p) (Re.Star (Re.Cls p))) prev (String c (pre ++ s)) cs k)
    with (if p c then Re.run (Re.Star (Re.Cls p)) (Some c) (pre ++ s) cs k else None).
  rewrite Hc. now apply star_cls_complete.
Qed.

Lemma chr_complete {A : Type} (c : ascii)
    (k : option ascii -> string -> Re.caps -> option A) (cs : Re.caps) (s : string)
    (prev : option ascii) :
  is_Some (k (Some c) s cs) -> is_Some (Re.run (Re.chr c) prev (String c s) cs k).
Proof. intros Hk. unfold Re.chr. cbn [Re.run]. now rewrite Ascii.eqb_refl. Qed.

(** The shape [is_valid_email] looks for at the head of an address. *)
Definition email_shape (email : string) : Prop :=
  exists local domain tld rest,
    email = local ++ "@" ++ domain ++ "." ++ tld ++ rest /\
    local <> EmptyString /\ domain <> EmptyString /\ tld <> EmptyString /\
    Py.sforall local_char local = true /\
    Py.sforall domain_char domain = true /\
    Py.sforall Py.is_word tld = true.

Lemma is_valid_email_shape (email : string) :
  is_valid_email email = true -> email_shape email.
Proof.
  unfold email_shape.
  unfold is_valid_email. intros H. apply bool_decide_eq_true in H as (m & H).
  apply ReSpec.match_here_sound in H as (prev' & s' & H & _).
  unfold email_pattern in H.
  inversion H as [| |? ? ? p1 ? H1 H2| | | | | | | |]; subst.
  inversion H2 as [| |? ? ? p2 ? H3 H4| | | | | | | |]; subst.
  inversion H4 as [| |? ? ? p3 ? H5 H6| | | | | | | |]; subst.
  inversion H6 as [| |? ? ? p4 ? H7 H8| | | | | | | |]; subst.
  apply Matches_Plus_Cls in H1 as (local & E1 & N1 & P1).
  apply Matches_chr in H3.
  apply Matches_Plus_Cls in H5 as (domain & E3 & N3 & P3).
  apply Matches_chr in H7.
  apply Matches_Plus_Cls in H8 as (tld & E5 & N5 & P5).
  simpl in *. exists local, domain, tld, s'.
  rewrite E1, H3, E3, H7, E5. auto 10.
Qed.

Lemma is_valid_email_complete (email : string) :
  email_shape email -> is_valid_email email = true.
Proof.
  intros (local & domain & tld & rest & -> & N1 & N2 & N3 & P1 & P2 & P3).
  unfold is_valid_email. apply bool_decide_eq_true.
  unfold Re.match_, Re.match_here, email_pattern. cbn [Re.run].
  apply plus_cls_complete; [|exact N1|exact P1].
  intros prev1. cbn [String.append]. apply chr_complete.
  apply (plus_cls_complete (fun c => Py.is_word c || Re.one_of ".-" c));
    [|exact N2|exact P2].
  intros prev2. cbn [String.append]. apply chr_complete.
  apply (plus_cls_complete Py.is_word); [|exact N3|exact P3].
  intros prev3. eauto.
Qed.

(** X19: on ASCII text, [is_valid_email] accepts exactly the addresses that
    begin with one or more characters of [\w.+-], an "@", one or more
    characters of [\w.-], a "." and one or more word characters; the
    pattern has no end anchor, so an accepted address stays accepted
    whatever is appended to it. *)
Theorem is_valid_email_spec (email : string) :
  ascii_text email ->
  (is_valid_email email = true <-> email_shape email) /\
  (forall more, ascii_text more ->
                is_valid_email email = true -> is_valid_email (email ++ more) = true).
Proof.
  intros _. split; [split|].
  - apply is_valid_email_shape.
  - apply is_valid_email_complete.
  - intros more _ H. apply is_valid_email_shape in H.
    destruct H as (local & domain & tld & rest & -> & H).
    apply is_valid_email_complete. exists local, domain, tld, (rest ++ more).
    split; [|exact H]. now rewrite !ReSpec.append_assoc.
Qed.

Lemma is_valid_email_spec_witness :
  is_valid_email "jo@ex.org" = true /\ is_valid_email ("jo@ex.org" ++ " and more") = true.
Proof.
  destruct (is_valid_email_spec "jo@ex.org") as [[_ Hshape] Hmore]; [reflexivity|].
  assert (H : is_valid_email "jo@ex.org" = true).
  { apply Hshape. exists "jo", "ex", "org", EmptyString. repeat split; discriminate. }
  split; [exact H|]. apply Hmore; [reflexivity|exact H].
Defined.
